(** * Multichannel multikernel convolution (vector_convolution.c)

    A shallow embedding of the reference convolution [multichannel_conv],
    the vectorised convolution [student_conv], the checker [check_result],
    the driver [main], the allocators with their tables of pointers, the
    generators of random matrices, [copy_4d_matrix] and [write_out],
    followed by the properties proved about them.

    Conventions of the embedding.
    - C [int] values are integers of [Z].  Signed overflow is undefined in
      C: the sizes and offsets the allocators compute from the arguments of
      [main] are checked to be ints ([is_int], [int_]); the indices the
      convolutions compute are kept in [Z], being below the number of
      elements of the tensors they are applied to (lemma
      [indices_are_ints]).
    - [float], [double] and [int16_t] are the carriers of a [Scalars]
      structure.  The code is written once over that structure and run on
      IEEE 754 binary32/binary64 ([IEEE]) and on expression trees that
      record which operation was performed at which precision ([Sym]).
    - A tensor is the contiguous block [mat3] of [new_empty_4d_matrix_*]
      together with its dimensions; the tables of row pointers are
      represented by the index arithmetic they implement (the loops that
      link the tables are embedded as well and shown to implement it).
    - Statements run in a monad with the output block as state, a log of
      the element accesses, and two ways of not returning: undefined
      behaviour ([Undefined]: an access outside a block or through a
      pointer that does not exist, an int that overflows, a data race) and
      a failed [assert] ([Aborted]).
    - [omp] tells whether the OpenMP pragmas are in force: the file is
      compiled with OpenMP and a parallel loop is shared out among a team
      of several threads. *)

From Stdlib Require Import ZArith Lia List Bool.
From Stdlib Require Import Floats.SpecFloat.
From stdpp Require Import base numbers list list_numbers option.

Local Open Scope Z_scope.

(** ** Scalar types *)

Class Scalars := {
  float : Type;
  double : Type;
  int16 : Type;
  (** conversions inserted by the usual arithmetic conversions, by
      assignments and by casts *)
  float_of_int16 : int16 → float;
  double_of_int16 : int16 → double;
  double_of_float : float → double;
  float_of_double : double → float;
  float_of_int : Z → float;
  int16_of_int : Z → int16;
  (** single precision arithmetic *)
  fmul : float → float → float;
  fadd : float → float → float;
  fsub : float → float → float;
  (** double precision arithmetic *)
  dmul : double → double → double;
  dadd : double → double → double;
  fabs : double → double;
  d_ge : double → double → bool;
  d_gt : double → double → bool;
  (** literals *)
  f0 : float;
  f1 : float;
  d0 : double;
  d0_0625 : double;
}.

(** ** Tensors *)

Record shape3 := Shape3 { s3_0 : Z; s3_1 : Z; s3_2 : Z }.
Record shape4 := Shape4 { s4_0 : Z; s4_1 : Z; s4_2 : Z; s4_3 : Z }.

Definition size3 (s : shape3) : Z := s3_0 s * s3_1 s * s3_2 s.
Definition size4 (s : shape4) : Z := s4_0 s * s4_1 s * s4_2 s * s4_3 s.

Record tensor3 (A : Type) := Tensor3 { t3_shape : shape3; t3_data : list A }.
Record tensor4 (A : Type) := Tensor4 { t4_shape : shape4; t4_data : list A }.
Arguments Tensor3 {A} _ _.
Arguments t3_shape {A} _.
Arguments t3_data {A} _.
Arguments Tensor4 {A} _ _.
Arguments t4_shape {A} _.
Arguments t4_data {A} _.

Definition in_range (lo x hi : Z) : bool := (lo <=? x) && (x <? hi).

(** [a[i][j][k]] for a matrix made by [new_empty_3d_matrix_*]: [a[i]] is
    entry [i] of the table of [dim0] row pointers, [a[i][j]] is entry
    [i*dim1 + j] of the table of [dim0*dim1] element pointers, which points
    to [mat3[(i*dim1 + j)*dim2]].  The result is the offset in [mat3]. *)
Definition index3 (s : shape3) (i j k : Z) : option Z :=
  let p := i * s3_1 s + j in
  let f := p * s3_2 s + k in
  if in_range 0 i (s3_0 s) && in_range 0 p (s3_0 s * s3_1 s)
     && in_range 0 f (size3 s)
  then Some f else None.

(** [a[i][j][k][l]] for a matrix made by [new_empty_4d_matrix_*]. *)
Definition index4 (s : shape4) (i j k l : Z) : option Z :=
  let p := i * s4_1 s + j in
  let q := p * s4_2 s + k in
  let f := q * s4_3 s + l in
  if in_range 0 i (s4_0 s) && in_range 0 p (s4_0 s * s4_1 s)
     && in_range 0 q (s4_0 s * s4_1 s * s4_2 s)
     && in_range 0 f (size4 s)
  then Some f else None.

(** ** Effects *)

Inductive tensor_id := Image | Kernels | Output | Result | Control.

Inductive access :=
  | Rd (t : tensor_id) (offset : Z)
  | Wr (t : tensor_id) (offset : Z).

Inductive result (X : Type) :=
  | Undefined
  | Aborted
  | Ok (x : X).
Arguments Undefined {X}.
Arguments Aborted {X}.
Arguments Ok {X} _.

(** A statement: from the block being written to a value, the updated
    block and the accesses made. *)
Definition M (S X : Type) : Type := S → result (X * S * list access).

Definition ret {S X} (x : X) : M S X := λ s, Ok (x, s, []).

Definition bind {S X Y} (m : M S X) (f : X → M S Y) : M S Y :=
  λ s, match m s with
       | Undefined => Undefined
       | Aborted => Aborted
       | Ok (x, s1, l1) =>
           match f x s1 with
           | Undefined => Undefined
           | Aborted => Aborted
           | Ok (y, s2, l2) => Ok (y, s2, l1 ++ l2)
           end
       end.

Definition undefined {S X} : M S X := λ _, Undefined.

(** The values of type [int] (32 bits). *)
Definition INT_MAX : Z := 2147483647.
Definition INT_MIN : Z := -2147483648.
Definition is_int (n : Z) : bool := (INT_MIN <=? n) && (n <=? INT_MAX).

(** the value of an [int] operation whose exact result is [n]: undefined
    when it overflows *)
Definition int_ {S} (n : Z) : M S Z :=
  λ s, if is_int n then Ok (n, s, []) else Undefined.

(** [assert(b)] of <assert.h>, NDEBUG not being defined. *)
Definition assert_ {S} (b : bool) : M S unit :=
  λ s, if b then Ok (tt, s, []) else Aborted.

Declare Scope conv_scope.
Delimit Scope conv_scope with conv.
Notation "x <- m ;; k" := (bind m (λ x, k))
  (at level 100, m at next level, right associativity) : conv_scope.
Notation "m ;;; k" := (bind m (λ _, k))
  (at level 100, right associativity) : conv_scope.
Local Open Scope conv_scope.

(** [for (i = 0; i < n; i++) acc = body(i, acc);] *)
Fixpoint iterate {S X} (body : Z → X → M S X) (l : list Z) (acc : X) : M S X :=
  match l with
  | [] => ret acc
  | i :: l' => acc' <- body i acc ;; iterate body l' acc'
  end.

Definition for_acc {S X} (n : Z) (body : Z → X → M S X) (acc : X) : M S X :=
  iterate body (seqZ 0 n) acc.

Definition for_ {S} (n : Z) (body : Z → M S unit) : M S unit :=
  for_acc n (λ i _, body i) tt.

Section Memory.
Context {A S : Type}.

(** read element [f] of a block through a pointer to its first element *)
Definition load_flat (id : tensor_id) (block : list A) (f : Z) : M S A :=
  λ s, if 0 <=? f
       then match block !! Z.to_nat f with
            | Some v => Ok (v, s, [Rd id f])
            | None => Undefined
            end
       else Undefined.

(** read [t[i][j][k]] *)
Definition load3 (id : tensor_id) (t : tensor3 A) (i j k : Z) : M S A :=
  match index3 (t3_shape t) i j k with
  | Some f => load_flat id (t3_data t) f
  | None => undefined
  end.

(** read [t[i][j][k][l]] *)
Definition load4 (id : tensor_id) (t : tensor4 A) (i j k l : Z) : M S A :=
  match index4 (t4_shape t) i j k l with
  | Some f => load_flat id (t4_data t) f
  | None => undefined
  end.

(** [***t]: the pointer to the first element, read through the three
    pointer tables, which must each have an entry *)
Definition first_element4 (t : tensor4 A) : M S (list A) :=
  let s := t4_shape t in
  if (0 <? s4_0 s) && (0 <? s4_0 s * s4_1 s)
     && (0 <? s4_0 s * s4_1 s * s4_2 s)
  then ret (t4_data t) else undefined.
End Memory.

Section Stores.
Context {A : Type}.

(** write element [f] of the block being filled *)
Definition store_flat (id : tensor_id) (f : Z) (v : A) : M (list A) unit :=
  λ block, if in_range 0 f (Z.of_nat (length block))
           then Ok (tt, <[Z.to_nat f := v]> block, [Wr id f])
           else Undefined.

(** [o[i][j][k] = v] *)
Definition store3 (id : tensor_id) (o : shape3) (i j k : Z) (v : A)
  : M (list A) unit :=
  match index3 o i j k with
  | Some f => store_flat id f v
  | None => undefined
  end.

(** [**o]: the pointer to the first element of the block being filled *)
Definition first_element3 (o : shape3) : M (list A) unit :=
  if (0 <? s3_0 o) && (0 <? s3_0 o * s3_1 o) then ret tt else undefined.
End Stores.

(** ** SSE intrinsics used by [student_conv]

    <immintrin.h> is not part of the repository; the definitions follow the
    operation sections of the instruction set reference. *)

Section Intrinsics.
Context {scalars : Scalars}.

(** [__m128]: four packed floats, element 0 lowest *)
Record m128 := M128 { ps0 : float; ps1 : float; ps2 : float; ps3 : float }.
(** [__m128d]: two packed doubles *)
Record m128d := M128d { pd0 : double; pd1 : double }.

Definition _mm_set_ps (e3 e2 e1 e0 : float) : m128 := M128 e0 e1 e2 e3.
Definition _mm_set1_ps (a : float) : m128 := M128 a a a a.
Definition _mm_mul_ps (a b : m128) : m128 :=
  M128 (fmul (ps0 a) (ps0 b)) (fmul (ps1 a) (ps1 b))
       (fmul (ps2 a) (ps2 b)) (fmul (ps3 a) (ps3 b)).

(** DPPS: bits 4..7 of [imm8] select the products, bits 0..3 the
    destination elements that receive the sum *)
Definition _mm_dp_ps (a b : m128) (imm8 : Z) : m128 :=
  let prod (bit : Z) (x y : float) :=
    if Z.testbit imm8 bit then fmul x y else f0 in
  let temp1_0 := prod 4 (ps0 a) (ps0 b) in
  let temp1_1 := prod 5 (ps1 a) (ps1 b) in
  let temp1_2 := prod 6 (ps2 a) (ps2 b) in
  let temp1_3 := prod 7 (ps3 a) (ps3 b) in
  let temp2 := fadd temp1_0 temp1_1 in
  let temp3 := fadd temp1_2 temp1_3 in
  let temp4 := fadd temp2 temp3 in
  let dest (bit : Z) := if Z.testbit imm8 bit then temp4 else f0 in
  M128 (dest 0) (dest 1) (dest 2) (dest 3).

Definition _mm_cvtss_f32 (a : m128) : float := ps0 a.

Definition _mm_set_pd (e1 e0 : double) : m128d := M128d e0 e1.
Definition _mm_set_sd (a : double) : m128d := M128d a d0.
Definition _mm_mul_pd (a b : m128d) : m128d :=
  M128d (dmul (pd0 a) (pd0 b)) (dmul (pd1 a) (pd1 b)).
Definition _mm_mul_sd (a b : m128d) : m128d :=
  M128d (dmul (pd0 a) (pd0 b)) (pd1 a).
Definition _mm_add_pd (a b : m128d) : m128d :=
  M128d (dadd (pd0 a) (pd0 b)) (dadd (pd1 a) (pd1 b)).
Definition _mm_add_sd (a b : m128d) : m128d :=
  M128d (dadd (pd0 a) (pd0 b)) (pd1 a).
Definition _mm_unpackhi_pd (a b : m128d) : m128d := M128d (pd1 a) (pd1 b).
(** [_mm_store_sd(&temp, a)] leaves the low element in [temp] *)
Definition _mm_store_sd (a : m128d) : double := pd0 a.
End Intrinsics.

(** ** The program *)

(** what [check_result] prints: the sum it computed, as a warning or as a
    comment *)
Inductive verdict (D : Type) :=
  | WARNING (sum_abs_diff : D)
  | COMMENT (sum_abs_diff : D).
Arguments WARNING {D} _.
Arguments COMMENT {D} _.

(** what [main] prints, except the timings *)
Inductive event (D : Type) :=
  | USAGE
  | FATAL (kernel_order : Z)
  | CONTROL_CONV
  | STUDENT_CONV
  | CHECK (v : verdict D).
Arguments USAGE {D}.
Arguments FATAL {D} _.
Arguments CONTROL_CONV {D}.
Arguments STUDENT_CONV {D}.
Arguments CHECK {D} _.

Section Program.
Context {scalars : Scalars}.

Local Abbreviation stmt := (M (list float)).

(** [sum += a * k] with [a] a float and [k] an int16_t: [k] is converted
    to float, the product is a float, and it is converted to double for
    the addition. *)
Definition mac (sum : double) (a : float) (k : int16) : double :=
  dadd sum (double_of_float (fmul a (float_of_int16 k))).

(** lines 320-347 *)
Definition multichannel_conv (image : tensor3 float) (kernels : tensor4 int16)
    (output : shape3) (width height nchannels nkernels kernel_order : Z)
  : stmt unit :=
  for_ nkernels (λ m,
    for_ width (λ w,
      for_ height (λ h,
        _ <- for_acc nchannels (λ c sum,
               sum <- for_acc kernel_order (λ x sum,
                        for_acc kernel_order (λ y sum,
                          a <- load3 Image image (w + x) (h + y) c ;;
                          k <- load4 Kernels kernels m c x y ;;
                          ret (mac sum a k)) sum) sum ;;
               store3 Output output m w h (float_of_double sum) ;;;
               ret sum) d0 ;;
        ret tt))).

Section Student.
Variable omp : bool.
Variable image : tensor3 float.
Variable kernel_pointer : list int16.

(** lines 385-391.  With OpenMP the clause [private(x, sum)] gives the
    parallel loop its own [sum], which is lost when the loop ends: the
    elements are read and the enclosing [sum] keeps its value. *)
Definition order1 (kernel_order w h c c_index : Z) (sum : double)
  : stmt double :=
  if omp then
    for_ kernel_order (λ x,
      let x_index := x * kernel_order + c_index in
      _ <- load3 Image image (w + x) h c ;;
      _ <- load_flat Kernels kernel_pointer x_index ;;
      ret tt) ;;;
    ret sum
  else
    for_acc kernel_order (λ x sum,
      let x_index := x * kernel_order + c_index in
      a <- load3 Image image (w + x) h c ;;
      k <- load_flat Kernels kernel_pointer x_index ;;
      ret (mac sum a k)) sum.

(** lines 395-402 *)
Definition order3 (kernel_order w h c c_index : Z) (sum : double)
  : stmt double :=
  for_acc kernel_order (λ x sum,
    let x_index := x * kernel_order + c_index in
    a2 <- load3 Image image (w + x) (h + 2) c ;;
    a1 <- load3 Image image (w + x) (h + 1) c ;;
    a0 <- load3 Image image (w + x) h c ;;
    let img := _mm_set_ps f0 a2 a1 a0 in
    k2 <- load_flat Kernels kernel_pointer (2 + x_index) ;;
    k1 <- load_flat Kernels kernel_pointer (1 + x_index) ;;
    k0 <- load_flat Kernels kernel_pointer x_index ;;
    let kern := _mm_set_ps f0 (float_of_int16 k2) (float_of_int16 k1)
                           (float_of_int16 k0) in
    let mul := _mm_mul_ps img kern in
    ret (dadd sum (double_of_float
           (_mm_cvtss_f32 (_mm_dp_ps mul (_mm_set1_ps f1) 0x71))))) sum.

(** lines 406-428 *)
Definition order5 (kernel_order w h c c_index : Z) (sum : double)
  : stmt double :=
  for_acc kernel_order (λ x sum,
    let x_index := x * kernel_order + c_index in
    a4 <- load3 Image image (w + x) (h + 4) c ;;
    a3 <- load3 Image image (w + x) (h + 3) c ;;
    let img1 := _mm_set_pd (double_of_float a4) (double_of_float a3) in
    a2 <- load3 Image image (w + x) (h + 2) c ;;
    a1 <- load3 Image image (w + x) (h + 1) c ;;
    let img2 := _mm_set_pd (double_of_float a2) (double_of_float a1) in
    a0 <- load3 Image image (w + x) h c ;;
    let img3 := _mm_set_sd (double_of_float a0) in
    k4 <- load_flat Kernels kernel_pointer (4 + x_index) ;;
    k3 <- load_flat Kernels kernel_pointer (3 + x_index) ;;
    let kern1 := _mm_set_pd (double_of_int16 k4) (double_of_int16 k3) in
    k2 <- load_flat Kernels kernel_pointer (2 + x_index) ;;
    k1 <- load_flat Kernels kernel_pointer (1 + x_index) ;;
    let kern2 := _mm_set_pd (double_of_int16 k2) (double_of_int16 k1) in
    k0 <- load_flat Kernels kernel_pointer x_index ;;
    let kern3 := _mm_set_sd (double_of_int16 k0) in
    let mul1 := _mm_mul_pd img1 kern1 in
    let mul2 := _mm_mul_pd img2 kern2 in
    let mul3 := _mm_mul_sd img3 kern3 in
    let sum2_1 := _mm_add_pd mul1 mul2 in
    let sum2_2 := _mm_add_sd mul3 (_mm_unpackhi_pd sum2_1 sum2_1) in
    let sum2_1 := _mm_add_sd sum2_1 sum2_2 in
    let temp := _mm_store_sd sum2_1 in
    ret (dadd sum temp)) sum.

(** lines 432-443 *)
Definition order7 (kernel_order w h c c_index : Z) (sum : double)
  : stmt double :=
  for_acc kernel_order (λ x sum,
    let x_index := x * kernel_order + c_index in
    a <- load3 Image image (w + x) h c ;;
    k <- load_flat Kernels kernel_pointer x_index ;;
    let sum := mac sum a k in
    a <- load3 Image image (w + x) (h + 1) c ;;
    k <- load_flat Kernels kernel_pointer (1 + x_index) ;;
    let sum := mac sum a k in
    a <- load3 Image image (w + x) (h + 2) c ;;
    k <- load_flat Kernels kernel_pointer (2 + x_index) ;;
    let sum := mac sum a k in
    a <- load3 Image image (w + x) (h + 3) c ;;
    k <- load_flat Kernels kernel_pointer (3 + x_index) ;;
    let sum := mac sum a k in
    a <- load3 Image image (w + x) (h + 4) c ;;
    k <- load_flat Kernels kernel_pointer (4 + x_index) ;;
    let sum := mac sum a k in
    a <- load3 Image image (w + x) (h + 5) c ;;
    k <- load_flat Kernels kernel_pointer (5 + x_index) ;;
    let sum := mac sum a k in
    a <- load3 Image image (w + x) (h + 6) c ;;
    k <- load_flat Kernels kernel_pointer (6 + x_index) ;;
    ret (mac sum a k)) sum.

(** lines 382-444: the body of the loop over the channels *)
Definition channel (kernel_order w h c c_index : Z) (sum : double)
  : stmt double :=
  if kernel_order =? 1 then order1 kernel_order w h c c_index sum
  else if kernel_order =? 3 then order3 kernel_order w h c c_index sum
  else if kernel_order =? 5 then order5 kernel_order w h c c_index sum
  else if kernel_order =? 7 then order7 kernel_order w h c c_index sum
  else ret sum.
End Student.

(** lines 355, 363 and 368.  [h], [w], [x], [y], [c] and [m_index],
    [x_index], [mo_index], [w_index], [h_index] are declared before
    [#pragma omp parallel for] and no clause makes them private: the
    threads that run the iterations of the loop over [m] share them.  With
    two iterations or more and a cell to store, one thread computes the
    place of its cell from what another has written to [w], [h],
    [mo_index], [w_index] and [h_index]: a data race.  With a single
    iteration there is one thread at work; without a cell ([width] or
    [height] not positive) the threads write these variables only and
    nothing is stored. *)
Definition data_race (omp : bool) (nkernels width height : Z) : bool :=
  omp && (1 <? nkernels) && (0 <? width) && (0 <? height).

(** lines 351-452.  The index products of lines 362-388 are kept in [Z]:
    for a valid input with sizes within int none of them overflows (lemma
    [indices_are_ints]). *)
Definition student_conv (omp : bool) (image : tensor3 float)
    (kernels : tensor4 int16) (output : shape3)
    (width height nchannels nkernels kernel_order : Z) : stmt unit :=
  kernel_pointer <- first_element4 kernels ;;
  first_element3 output ;;;
  let kernel_order_squared := kernel_order * kernel_order in
  let m_mult := kernel_order_squared * nchannels in
  let mo_mult := width * height in
  if data_race omp nkernels width height then undefined else
  for_ nkernels (λ m,
    let mo_index := m * mo_mult in
    let m_index := m * m_mult in
    for_ width (λ w,
      let w_index := w * height + mo_index in
      for_ height (λ h,
        let h_index := h + w_index in
        sum <- for_acc nchannels (λ c sum,
                 let c_index := c * kernel_order_squared + m_index in
                 channel omp image kernel_pointer kernel_order w h c c_index
                         sum) d0 ;;
        store_flat Output h_index (float_of_double sum)))).

(** lines 286-317 *)
Definition check_result (result control : tensor3 float) (dim0 dim1 dim2 : Z)
  : M unit (verdict double) :=
  sum_abs_diff <-
    for_acc dim0 (λ i sum_abs_diff,
      for_acc dim1 (λ j sum_abs_diff,
        for_acc dim2 (λ k sum_abs_diff,
          c <- load3 Control control i j k ;;
          r <- load3 Result result i j k ;;
          let diff := fabs (double_of_float (fsub c r)) in
          assert_ (d_ge diff d0) ;;;
          ret (dadd sum_abs_diff diff)) sum_abs_diff) sum_abs_diff) d0 ;;
  ret (if d_gt sum_abs_diff d0_0625
       then WARNING sum_abs_diff else COMMENT sum_abs_diff).
End Program.

(** ** IEEE 754 arithmetic *)

Module IEEE.
(** binary32 and binary64 values; [prec] and [emax] as in [SpecFloat] *)
Definition round32 (m e : Z) (szero : bool) : spec_float :=
  binary_normalize 24 128 m e szero.
Definition round64 (m e : Z) (szero : bool) : spec_float :=
  binary_normalize 53 1024 m e szero.

(** conversion of a value to the format with the given rounding *)
Definition convert (round : Z → Z → bool → spec_float) (x : spec_float)
  : spec_float :=
  match x with
  | S754_finite s m e => round (cond_Zopp s (Z.pos m)) e s
  | _ => x
  end.

#[export] Instance scalars : Scalars := {|
  float := spec_float;
  double := spec_float;
  int16 := Z;
  float_of_int16 k := round32 k 0 false;
  double_of_int16 k := round64 k 0 false;
  double_of_float := convert round64;
  float_of_double := convert round32;
  float_of_int n := round32 n 0 false;
  int16_of_int n := (n + 32768) `mod` 65536 - 32768;
  fmul := SFmul 24 128;
  fadd := SFadd 24 128;
  fsub := SFsub 24 128;
  dmul := SFmul 53 1024;
  dadd := SFadd 53 1024;
  fabs := SFabs;
  d_ge x y := SFleb y x;
  d_gt x y := SFltb y x;
  f0 := S754_zero false;
  f1 := round32 1 0 false;
  d0 := S754_zero false;
  d0_0625 := round64 1 (-4) false;
|}.

Definition is_nan (x : spec_float) : bool :=
  match x with
  | S754_nan => true
  | _ => false
  end.

Definition is_finite (x : spec_float) : bool :=
  match x with
  | S754_zero _ | S754_finite _ _ _ => true
  | _ => false
  end.

(** the float and the double with an integer value *)
Definition F (n : Z) : spec_float := round32 n 0 false.
Definition D (n : Z) : spec_float := round64 n 0 false.

(** [q * 2^k] for [0 <= k] *)
Definition shlp (q : positive) (k : Z) : positive :=
  match k with
  | Z.pos kp => Pos.iter xO q kp
  | _ => q
  end.

(** the value [q] with a mantissa of [prec] digits *)
Definition canon (prec : Z) (q : positive) : spec_float :=
  S754_finite false (shlp q (prec - Z.pos (digits2_pos q)))
              (Z.pos (digits2_pos q) - prec).
End IEEE.

(** ** The driver *)

Definition rbind {X Y} (r : result X) (f : X → result Y) : result Y :=
  match r with
  | Undefined => Undefined
  | Aborted => Aborted
  | Ok x => f x
  end.

Section Driver.
Context {scalars : Scalars}.

(** A block of [n] elements whose contents are given by [content]. *)
Definition block {A} (content : nat → A) (n : Z) : list A :=
  content <$> seq 0 (Z.to_nat n).

(** lines 75-97 and 114-136: the block of [dim0*dim1*dim2*dim3] elements,
    not initialised ([junk] stands for what malloc returns).  The numbers
    of entries [dim0 * dim1], [dim0 * dim1 * dim2] and
    [dim0 * dim1 * dim2 * dim3] of lines 78-80 are int products, formed
    before the conversion to size_t.  A negative number of entries is
    converted to a size that malloc cannot give: it returns NULL, the
    table has no entry and the block no element, and [index4] finds
    nothing in a matrix with a negative dimension. *)
Definition new_empty_4d_matrix {A} (junk : nat → A) (dim0 dim1 dim2 dim3 : Z)
  : result (tensor4 A) :=
  if is_int (dim0 * dim1) && is_int (dim0 * dim1 * dim2)
     && is_int (dim0 * dim1 * dim2 * dim3)
  then Ok (Tensor4 (Shape4 dim0 dim1 dim2 dim3)
                   (block junk (dim0 * dim1 * dim2 * dim3)))
  else Undefined.

(** lines 100-111 and 139-150: the 4d matrix with a single first dimension,
    without that dimension *)
Definition new_empty_3d_matrix {A} (junk : nat → A) (dim0 dim1 dim2 : Z)
  : result (tensor3 A) :=
  rbind (new_empty_4d_matrix junk 1 dim0 dim1 dim2) (λ mat4d,
    Ok (Tensor3 (Shape3 dim0 dim1 dim2) (t4_data mat4d))).

(** lines 176-214: [random n] is the value of the [n]-th call of random()
    after the seeding *)
Definition gen_random_4d_matrix_int16 (random : nat → Z)
    (dim0 dim1 dim2 dim3 : Z) : result (tensor4 int16) :=
  let range := Z.shiftl 1 10 in
  new_empty_4d_matrix (λ n, int16_of_int (Z.rem (random n) range))
                      dim0 dim1 dim2 dim3.

(** lines 217-255 *)
Definition gen_random_4d_matrix_float (random : nat → Z)
    (dim0 dim1 dim2 dim3 : Z) : result (tensor4 float) :=
  let range := Z.shiftl 1 12 in
  let bias := Z.shiftl 1 10 in
  new_empty_4d_matrix (λ n, float_of_int (Z.rem (random n) range + bias))
                      dim0 dim1 dim2 dim3.

(** lines 258-269 *)
Definition gen_random_3d_matrix_float (random : nat → Z) (dim0 dim1 dim2 : Z)
  : result (tensor3 float) :=
  rbind (gen_random_4d_matrix_float random 1 dim0 dim1 dim2) (λ mat4d,
    Ok (Tensor3 (Shape3 dim0 dim1 dim2) (t4_data mat4d))).

(** the block a statement leaves *)
Definition run {X} (c : M (list float) X) (blk : list float)
  : result (list float) :=
  match c blk with
  | Ok (_, blk', _) => Ok blk'
  | Aborted => Aborted
  | Undefined => Undefined
  end.

(** lines 468-548.  [width] ... [nkernels] are the values atoi returns for
    argv[1] ... argv[5]; the result is the exit status with what was
    printed.  [width + kernel_order] and [height + kernel_order] (line 511)
    are int sums. *)
Definition main (omp : bool) (random_image random_kernels : nat → Z)
    (junk_output junk_control : nat → float)
    (argc width height kernel_order nchannels nkernels : Z)
  : result (Z * list (event double)) :=
  if negb (argc =? 6) then Ok (1, [USAGE])
  else if negb ((kernel_order =? 1) || (kernel_order =? 3)
                || (kernel_order =? 5) || (kernel_order =? 7))
  then Ok (1, [FATAL kernel_order])
  else if negb (is_int (width + kernel_order)
                && is_int (height + kernel_order))
  then Undefined
  else
    rbind (gen_random_3d_matrix_float random_image (width + kernel_order)
             (height + kernel_order) nchannels) (λ image,
    rbind (gen_random_4d_matrix_int16 random_kernels nkernels nchannels
             kernel_order kernel_order) (λ kernels,
    rbind (new_empty_3d_matrix junk_output nkernels width height) (λ output,
    rbind (new_empty_3d_matrix junk_control nkernels width height)
      (λ control_output,
    rbind (run (multichannel_conv image kernels (t3_shape control_output)
                  width height nchannels nkernels kernel_order)
               (t3_data control_output)) (λ control_block,
    rbind (run (student_conv omp image kernels (t3_shape output)
                  width height nchannels nkernels kernel_order)
               (t3_data output)) (λ output_block,
    match check_result (Tensor3 (t3_shape output) output_block)
                       (Tensor3 (t3_shape control_output) control_block)
                       nkernels width height tt with
    | Ok (v, _, _) => Ok (0, [CONTROL_CONV; STUDENT_CONV; CHECK v])
    | Aborted => Aborted
    | Undefined => Undefined
    end)))))).
End Driver.

(** ** The tables of pointers (lines 75-150)

    Beside the block [mat3] of elements, [new_empty_4d_matrix_*] allocates
    the tables [result], [mat1] and [mat2] and links them.  A pointer into
    a table or into the block is the offset of the entry it points to; an
    entry that has not been assigned holds no pointer. *)

Record tables := Tables {
  tab_result : list (option Z);
  tab_mat1 : list (option Z);
  tab_mat2 : list (option Z);
}.

(** the pointer in entry [i] of a table *)
Definition entry (table : list (option Z)) (i : Z) : option Z :=
  if 0 <=? i then
    match table !! Z.to_nat i with
    | Some (Some p) => Some p
    | _ => None
    end
  else None.

Definition read_entry (table : tables → list (option Z)) (i : Z)
  : M tables Z :=
  λ t, match entry (table t) i with
       | Some p => Ok (p, t, [])
       | None => Undefined
       end.

Definition write_entry (table : list (option Z)) (i p : Z)
  : option (list (option Z)) :=
  if in_range 0 i (Z.of_nat (length table))
  then Some (<[Z.to_nat i := Some p]> table) else None.

Definition write_result (i p : Z) : M tables unit :=
  λ t, match write_entry (tab_result t) i p with
       | Some r => Ok (tt, Tables r (tab_mat1 t) (tab_mat2 t), [])
       | None => Undefined
       end.

Definition write_mat1 (i p : Z) : M tables unit :=
  λ t, match write_entry (tab_mat1 t) i p with
       | Some r => Ok (tt, Tables (tab_result t) r (tab_mat2 t), [])
       | None => Undefined
       end.

Definition write_mat2 (i p : Z) : M tables unit :=
  λ t, match write_entry (tab_mat2 t) i p with
       | Some r => Ok (tt, Tables (tab_result t) (tab_mat1 t) r, [])
       | None => Undefined
       end.

(** lines 77-79: what the three calls of malloc return for the tables.
    For a negative number of entries malloc returns NULL: a table without
    entries. *)
Definition malloc_tables (dim0 dim1 dim2 : Z) : tables :=
  Tables (replicate (Z.to_nat dim0) None)
         (replicate (Z.to_nat (dim0 * dim1)) None)
         (replicate (Z.to_nat (dim0 * dim1 * dim2)) None).

(** lines 75-97 and 114-136: the loops that link the tables.
    [result[i]] is entry [i] of [result]; [result[i][j]] is entry [j] of
    the part of [mat1] that [result[i]] points to; [result[i][j][k]] is
    entry [k] of the part of [mat2] that [result[i][j]] points to. *)
Definition link_tables (dim0 dim1 dim2 dim3 : Z) : M tables unit :=
  for_ dim0 (λ i,
    mat1_i <- int_ (i * dim1) ;;
    write_result i mat1_i ;;;
    for_ dim1 (λ j,
      result_i <- read_entry tab_result i ;;
      a <- int_ (i * dim1) ;;
      a <- int_ (a * dim2) ;;
      b <- int_ (j * dim2) ;;
      mat2_i_j <- int_ (a + b) ;;
      write_mat1 (result_i + j) mat2_i_j ;;;
      for_ dim2 (λ k,
        result_i <- read_entry tab_result i ;;
        result_i_j <- read_entry tab_mat1 (result_i + j) ;;
        a <- int_ (i * dim1) ;;
        a <- int_ (a * dim2) ;;
        a <- int_ (a * dim3) ;;
        b <- int_ (j * dim2) ;;
        b <- int_ (b * dim3) ;;
        c <- int_ (k * dim3) ;;
        ab <- int_ (a + b) ;;
        mat3_i_j_k <- int_ (ab + c) ;;
        write_mat2 (result_i_j + k) mat3_i_j_k))).

(** lines 77-80 and the loops: the numbers of entries are int products *)
Definition new_empty_4d_matrix_tables (dim0 dim1 dim2 dim3 : Z)
  : result tables :=
  if is_int (dim0 * dim1) && is_int (dim0 * dim1 * dim2)
     && is_int (dim0 * dim1 * dim2 * dim3)
  then match link_tables dim0 dim1 dim2 dim3
               (malloc_tables dim0 dim1 dim2) with
       | Ok (_, t, _) => Ok t
       | Aborted => Aborted
       | Undefined => Undefined
       end
  else Undefined.

(** lines 100-111 and 139-150: [mat3d = mat4d[0]; free(mat4d)].  The
    matrix is the pointer [mat3d] into [mat1]; the table [result] is
    gone. *)
Definition new_empty_3d_matrix_tables (dim0 dim1 dim2 : Z)
  : result (Z * tables) :=
  rbind (new_empty_4d_matrix_tables 1 dim0 dim1 dim2) (λ mat4d,
    match entry (tab_result mat4d) 0 with
    | Some mat3d => Ok (mat3d, Tables [] (tab_mat1 mat4d) (tab_mat2 mat4d))
    | None => Undefined
    end).

(** the element of the block of [size] elements that [a[i][j][k][l]]
    designates *)
Definition element4 (a : tables) (size : Z) (i j k l : Z) : option Z :=
  a_i ← entry (tab_result a) i;
  a_i_j ← entry (tab_mat1 a) (a_i + j);
  a_i_j_k ← entry (tab_mat2 a) (a_i_j + k);
  if in_range 0 (a_i_j_k + l) size then Some (a_i_j_k + l) else None.

(** the element that [a[i][j][k]] designates, [a] being the pointer
    [mat3d] *)
Definition element3 (a : Z * tables) (size : Z) (i j k : Z) : option Z :=
  a_i ← entry (tab_mat1 a.2) (a.1 + i);
  a_i_j ← entry (tab_mat2 a.2) (a_i + j);
  if in_range 0 (a_i_j + k) size then Some (a_i_j + k) else None.

(** [***kernels] and [**output] of lines 358-359: the pointers to the
    first element *)
Definition first_pointer4 (a : tables) : option Z :=
  a_0 ← entry (tab_result a) 0;
  a_0_0 ← entry (tab_mat1 a) a_0;
  entry (tab_mat2 a) a_0_0.

Definition first_pointer3 (a : Z * tables) : option Z :=
  a_0 ← entry (tab_mat1 a.2) a.1;
  entry (tab_mat2 a.2) a_0.

(** ** Copying and printing a matrix *)

Section Utilities.
Context {scalars : Scalars}.

(** [result[i][j][k][l] = v] *)
Definition store4 (id : tensor_id) (o : shape4) (i j k l : Z) (v : int16)
  : M (list int16) unit :=
  match index4 o i j k l with
  | Some f => store_flat id f v
  | None => undefined
  end.

(** lines 159-171: the loops of [copy_4d_matrix], which fill the block of
    [result] *)
Definition copy_elements (source_matrix : tensor4 int16) (result : shape4)
    (dim0 dim1 dim2 dim3 : Z) : M (list int16) unit :=
  for_ dim0 (λ i,
    for_ dim1 (λ j,
      for_ dim2 (λ k,
        for_ dim3 (λ l,
          v <- load4 Kernels source_matrix i j k l ;;
          store4 Result result i j k l v)))).

(** lines 153-173 *)
Definition copy_4d_matrix (junk : nat → int16)
    (source_matrix : tensor4 int16) (dim0 dim1 dim2 dim3 : Z)
  : result (tensor4 int16) :=
  rbind (new_empty_4d_matrix junk dim0 dim1 dim2 dim3) (λ result,
    match copy_elements source_matrix (t4_shape result)
            dim0 dim1 dim2 dim3 (t4_data result) with
    | Ok (_, block, _) => Ok (Tensor4 (t4_shape result) block)
    | Aborted => Aborted
    | Undefined => Undefined
    end).

(** what [write_out] sends to stdout *)
Inductive printed :=
  | Outer_dimension_number (i : Z)
  | Element (v : int16)
  | Last_element (v : int16).

Definition printf (p : printed) : M (list printed) unit :=
  λ stdout, Ok (tt, stdout ++ [p], []).

(** lines 55-72.  The format "%d, " is [Element], "%d\n" is
    [Last_element]. *)
Definition write_out (a : tensor3 int16) (dim0 dim1 dim2 : Z)
  : M (list printed) unit :=
  for_ dim0 (λ i,
    printf (Outer_dimension_number i) ;;;
    for_ dim1 (λ j,
      for_ (dim2 - 1) (λ k,
        v <- load3 Output a i j k ;;
        printf (Element v)) ;;;
      v <- load3 Output a i j (dim2 - 1) ;;
      printf (Last_element v))).

(** lines 272-283 *)
Definition gen_random_3d_matrix_int16 (random : nat → Z)
    (dim0 dim1 dim2 : Z) : result (tensor3 int16) :=
  rbind (gen_random_4d_matrix_int16 random 1 dim0 dim1 dim2) (λ mat4d,
    Ok (Tensor3 (Shape3 dim0 dim1 dim2) (t4_data mat4d))).
End Utilities.

(** ** Expression trees

    A second interpretation of the scalar operations: every value is the
    tree of the operations that produced it, each labelled with the
    precision in which it was performed. *)

Module Sym.
Inductive prec := I16 | F32 | F64.

Inductive expr :=
  | Elem (t : tensor_id) (offset : Z)
  | Int (n : Z)
  | Lit (p : prec) (num den : Z)
  | Conv (from to : prec) (e : expr)
  | Mul (p : prec) (a b : expr)
  | Add (p : prec) (a b : expr)
  | Sub (p : prec) (a b : expr)
  | Abs (e : expr).

#[export] Instance scalars : Scalars := {|
  float := expr;
  double := expr;
  int16 := expr;
  float_of_int16 := Conv I16 F32;
  double_of_int16 := Conv I16 F64;
  double_of_float := Conv F32 F64;
  float_of_double := Conv F64 F32;
  float_of_int n := Int n;
  int16_of_int n := Int n;
  fmul := Mul F32;
  fadd := Add F32;
  fsub := Sub F32;
  dmul := Mul F64;
  dadd := Add F64;
  fabs := Abs;
  d_ge _ _ := true;
  d_gt _ _ := false;
  f0 := Lit F32 0 1;
  f1 := Lit F32 1 1;
  d0 := Lit F64 0 1;
  d0_0625 := Lit F64 1 16;
|}.

(** the tensor whose element at offset [i] is the leaf [Elem id i] *)
Definition elements (id : tensor_id) (n : Z) : list expr :=
  Elem id <$> seqZ 0 n.
Definition image (s : shape3) : tensor3 expr :=
  Tensor3 s (elements Image (size3 s)).
Definition kernels (s : shape4) : tensor4 expr :=
  Tensor4 s (elements Kernels (size4 s)).

Definition is_elem (id : tensor_id) (e : expr) : Prop :=
  ∃ i, e = Elem id i.

(** an image element times a kernel weight, the weight converted from
    int16_t to the floating-point type of the multiplication *)
Inductive product : expr → Prop :=
  | product_float a k :
      is_elem Image a → is_elem Kernels k →
      product (Conv F32 F64 (Mul F32 a (Conv I16 F32 k)))
  | product_double a k :
      is_elem Image a → is_elem Kernels k →
      product (Mul F64 (Conv F32 F64 a) (Conv I16 F64 k)).

(** a sum of such products in which every addition is a double addition *)
Inductive double_sum : expr → Prop :=
  | double_sum_zero : double_sum (Lit F64 0 1)
  | double_sum_product e : product e → double_sum e
  | double_sum_add a b :
      double_sum a → double_sum b → double_sum (Add F64 a b).

(** an output cell: a double sum converted to float once, at the root *)
Inductive double_accumulated : expr → Prop :=
  | double_accumulated_intro s :
      double_sum s → double_accumulated (Conv F64 F32 s).

(** the same as a test *)
Definition is_elemb (id : tensor_id) (e : expr) : bool :=
  match e, id with
  | Elem Image _, Image | Elem Kernels _, Kernels => true
  | _, _ => false
  end.

Definition productb (e : expr) : bool :=
  match e with
  | Conv F32 F64 (Mul F32 a (Conv I16 F32 k)) =>
      is_elemb Image a && is_elemb Kernels k
  | Mul F64 (Conv F32 F64 a) (Conv I16 F64 k) =>
      is_elemb Image a && is_elemb Kernels k
  | _ => false
  end.

Fixpoint double_sumb (e : expr) : bool :=
  match e with
  | Lit F64 0 1 => true
  | Add F64 a b => double_sumb a && double_sumb b
  | _ => productb e
  end.

Definition double_accumulatedb (e : expr) : bool :=
  match e with
  | Conv F64 F32 s => double_sumb s
  | _ => false
  end.
End Sym.

(** ** Inputs of the scenarios *)

Module Scenario.
Import IEEE.

(** image (1+3)x(1+3)x1 of ones and one 3x3 kernel of ones *)
Definition ones_image : tensor3 float :=
  Tensor3 (Shape3 4 4 1) (replicate 16 (F 1)).
Definition ones_kernels : tensor4 int16 :=
  Tensor4 (Shape4 1 1 3 3) (replicate 9 1).

(** image (1+7)x(1+7)x1 of ones and one 7x7 kernel of ones *)
Definition ones_image7 : tensor3 float :=
  Tensor3 (Shape3 8 8 1) (replicate 64 (F 1)).
Definition ones_kernels7 : tensor4 int16 :=
  Tensor4 (Shape4 1 1 7 7) (replicate 49 1).

(** two kernels of order 7, one of ones and one of twos *)
Definition two_kernels7 : tensor4 int16 :=
  Tensor4 (Shape4 2 1 7 7) (replicate 49 1 ++ replicate 49 2).

(** order 1, two channels: image[0][0] = (2.0, 3.0), weights 4 and 5 *)
Definition two_channel_image : tensor3 float :=
  Tensor3 (Shape3 2 2 2) ([F 2; F 3] ++ replicate 6 (F 0)).
Definition two_channel_kernels : tensor4 int16 :=
  Tensor4 (Shape4 1 2 1 1) [4; 5].

(** order 3: image[0][0..2][0] = (2^24, 1.0, 1.0), the rest 0.0 *)
Definition wide_image : tensor3 float :=
  Tensor3 (Shape3 4 4 1) ([F 16777216; F 1; F 1] ++ replicate 13 (F 0)).


(** two output tensors with one cell, both holding +infinity *)
Definition infinite_output : tensor3 float :=
  Tensor3 (Shape3 1 1 1) [S754_infinity false].

(** order 5: image[0][0..1][0] = (2^24 - 1, 1.0), weights (3, 1), the
    rest 0 *)
Definition odd_image : tensor3 float :=
  Tensor3 (Shape3 6 6 1) ([F 16777215; F 1] ++ replicate 34 (F 0)).
Definition odd_kernels : tensor4 int16 :=
  Tensor4 (Shape4 1 1 5 5) ([3; 1] ++ replicate 23 0).

(** order 1, three channels: image[0][0] = (2^60, 2^60, 1.0) with weights
    (1, -1, 1), and the same with channels 1 and 2 exchanged *)
Definition two_to_60 : float := S754_finite false 8388608 37.
Definition cancelling_image : tensor3 float :=
  Tensor3 (Shape3 2 2 3) ([two_to_60; two_to_60; F 1] ++ replicate 9 (F 0)).
Definition cancelling_kernels : tensor4 int16 :=
  Tensor4 (Shape4 1 3 1 1) [1; -1; 1].
Definition exchanged_image : tensor3 float :=
  Tensor3 (Shape3 2 2 3) ([two_to_60; F 1; two_to_60] ++ replicate 9 (F 0)).
Definition exchanged_kernels : tensor4 int16 :=
  Tensor4 (Shape4 1 3 1 1) [1; 1; -1].
Definition exchange (c : Z) : Z :=
  if c =? 1 then 2 else if c =? 2 then 1 else c.
End Scenario.

(** ** Vocabulary of the specifications *)

(** [m] returns [v] from every state, leaves the state as it is, and
    makes only accesses that satisfy [φ] *)
Definition evals {S X} (φ : access → Prop) (m : M S X) (v : X) : Prop :=
  ∀ s, ∃ l, m s = Ok (v, s, l) ∧ Forall φ l.

(** *** Total element reads *)

Definition peek_flat {A} (dflt : A) (block : list A) (f : Z) : A :=
  default dflt (block !! Z.to_nat f).

Definition peek3 {A} (dflt : A) (t : tensor3 A) (i j k : Z) : A :=
  match index3 (t3_shape t) i j k with
  | Some f => peek_flat dflt (t3_data t) f
  | None => dflt
  end.

Definition peek4 {A} (dflt : A) (t : tensor4 A) (i j k l : Z) : A :=
  match index4 (t4_shape t) i j k l with
  | Some f => peek_flat dflt (t4_data t) f
  | None => dflt
  end.

Definition readable_flat {A} (block : list A) (f : Z) : Prop :=
  0 ≤ f < Z.of_nat (length block).

Definition readable3 {A} (t : tensor3 A) (i j k : Z) : Prop :=
  ∃ f, index3 (t3_shape t) i j k = Some f ∧ readable_flat (t3_data t) f.

Definition readable4 {A} (t : tensor4 A) (i j k l : Z) : Prop :=
  ∃ f, index4 (t4_shape t) i j k l = Some f ∧ readable_flat (t4_data t) f.

(** *** The values computed for one output cell *)

Section Values.
Context {scalars : Scalars}.
(** [img i j k] stands for [image[i][j][k]], [ker i j k l] for
    [kernels[i][j][k][l]] and [kp i] for [kernel_pointer[i]] *)
Variable img : Z → Z → Z → float.

Definition window_val (ker : Z → Z → Z → Z → int16) (K m w h c : Z)
    (sum : double) : double :=
  fold_left (λ sum x,
    fold_left (λ sum y, mac sum (img (w + x) (h + y) c) (ker m c x y))
              (seqZ 0 K) sum) (seqZ 0 K) sum.

Definition multichannel_val (ker : Z → Z → Z → Z → int16) (C K m w h : Z)
  : float :=
  float_of_double
    (fold_left (λ sum c, window_val ker K m w h c sum) (seqZ 0 C) d0).

Variable kp : Z → int16.

Definition order1_val (omp : bool) (K w h c c_index : Z) (sum : double)
  : double :=
  if omp then sum
  else fold_left (λ sum x, mac sum (img (w + x) h c) (kp (x * K + c_index)))
                 (seqZ 0 K) sum.

Definition order3_val (K w h c c_index : Z) (sum : double) : double :=
  fold_left (λ sum x,
    let x_index := x * K + c_index in
    let img_ := _mm_set_ps f0 (img (w + x) (h + 2) c) (img (w + x) (h + 1) c)
                           (img (w + x) h c) in
    let kern := _mm_set_ps f0 (float_of_int16 (kp (2 + x_index)))
                  (float_of_int16 (kp (1 + x_index)))
                  (float_of_int16 (kp x_index)) in
    dadd sum (double_of_float
      (_mm_cvtss_f32
         (_mm_dp_ps (_mm_mul_ps img_ kern) (_mm_set1_ps f1) 0x71))))
    (seqZ 0 K) sum.

Definition order5_val (K w h c c_index : Z) (sum : double) : double :=
  fold_left (λ sum x,
    let x_index := x * K + c_index in
    let a i := double_of_float (img (w + x) (h + i) c) in
    let k i := double_of_int16 (kp (i + x_index)) in
    let mul1 := _mm_mul_pd (_mm_set_pd (a 4) (a 3)) (_mm_set_pd (k 4) (k 3)) in
    let mul2 := _mm_mul_pd (_mm_set_pd (a 2) (a 1)) (_mm_set_pd (k 2) (k 1)) in
    let mul3 := _mm_mul_sd
                  (_mm_set_sd (double_of_float (img (w + x) h c)))
                  (_mm_set_sd (double_of_int16 (kp x_index))) in
    let sum2_1 := _mm_add_pd mul1 mul2 in
    let sum2_2 := _mm_add_sd mul3 (_mm_unpackhi_pd sum2_1 sum2_1) in
    dadd sum (_mm_store_sd (_mm_add_sd sum2_1 sum2_2)))
    (seqZ 0 K) sum.

Definition order7_val (K w h c c_index : Z) (sum : double) : double :=
  fold_left (λ sum x,
    let x_index := x * K + c_index in
    let t i sum := mac sum (img (w + x) (h + i) c) (kp (i + x_index)) in
    t 6 (t 5 (t 4 (t 3 (t 2 (t 1
      (mac sum (img (w + x) h c) (kp x_index))))))))
    (seqZ 0 K) sum.

Definition channel_val (omp : bool) (K w h c c_index : Z) (sum : double)
  : double :=
  if K =? 1 then order1_val omp K w h c c_index sum
  else if K =? 3 then order3_val K w h c c_index sum
  else if K =? 5 then order5_val K w h c c_index sum
  else if K =? 7 then order7_val K w h c c_index sum
  else sum.

Definition student_val (omp : bool) (C K m w h : Z) : float :=
  float_of_double
    (fold_left (λ sum c,
       channel_val omp K w h c (c * (K * K) + m * (K * K * C)) sum)
       (seqZ 0 C) d0).
End Values.

(** The accesses of a convolution: reads of the image and of the kernels. *)
Definition input_read (a : access) : Prop :=
  match a with
  | Rd Image _ | Rd Kernels _ => True
  | _ => False
  end.

(** *** Statements that fill consecutive elements of the block *)

(** the log of producing [n] consecutive elements from offset [p] on, when
    [cell_log] tells which accesses are made for the element at an offset *)
Inductive fill_log (cell_log : Z → list access → Prop)
  : Z → nat → list access → Prop :=
  | fill_log_nil p : fill_log cell_log p 0 []
  | fill_log_cons p n l1 l2 :
      cell_log p l1 → fill_log cell_log (p + 1) n l2 →
      fill_log cell_log p (S n) (l1 ++ l2).

(** [c] replaces the elements from offset [pos] on by [vs] and leaves the
    rest of the block as it is *)
Definition fills {A} (cell_log : Z → list access → Prop)
    (c : M (list A) unit) (pos : Z) (vs : list A) : Prop :=
  ∀ pre old suf,
    Z.of_nat (length pre) = pos → length old = length vs →
    ∃ l, c (pre ++ old ++ suf) = Ok (tt, pre ++ vs ++ suf, l)
         ∧ fill_log cell_log pos (length vs) l.

(** the elements [val m w h] in the order of the block *)
Definition tab3 {A} (M W H : Z) (val : Z → Z → Z → A) : list A :=
  concat ((λ m, concat ((λ w, (λ h, val m w h) <$> seqZ 0 H) <$> seqZ 0 W))
          <$> seqZ 0 M).

(** The accesses made for the cell at offset [p]: [k] rounds of accesses
    that satisfy [φ], each round followed by one write of the cell. *)
Definition cell_log (φ : access → Prop) (k : nat) (p : Z) (l : list access)
  : Prop :=
  ∃ rs : list (list access),
    length rs = k ∧ Forall (Forall φ) rs
    ∧ l = concat ((λ r, r ++ [Wr Output p]) <$> rs).

(** *** Access logs *)

Definition is_write_to (t : tensor_id) (f : Z) (a : access) : bool :=
  match a, t with
  | Wr Image o, Image | Wr Kernels o, Kernels | Wr Output o, Output
  | Wr Result o, Result | Wr Control o, Control => o =? f
  | _, _ => false
  end.

Definition is_read (a : access) : bool :=
  match a with
  | Rd _ _ => true
  | Wr _ _ => false
  end.

(** how many times element [f] of tensor [t] is written *)
Definition writes_to (t : tensor_id) (f : Z) (l : list access) : nat :=
  length (List.filter (is_write_to t f) l).

(** how many element reads are made *)
Definition reads (l : list access) : nat := length (List.filter is_read l).

(** every write goes to the output block *)
Definition writes_output_only (l : list access) : Prop :=
  ∀ t f, Wr t f ∈ l → t = Output.

(** ** Inputs as [main] builds them *)

(** The numbers of elements of the image, of the kernels and of the output
    are ints, as for any tensors the allocators have made: every index the
    convolutions compute for them is then an int as well. *)
Definition int_sizes (width height nchannels nkernels kernel_order : Z)
  : Prop :=
  (width + kernel_order) * (height + kernel_order) * nchannels ≤ INT_MAX
  ∧ nkernels * nchannels * kernel_order * kernel_order ≤ INT_MAX
  ∧ nkernels * width * height ≤ INT_MAX.

Section Inputs.
Context {scalars : Scalars}.

Record valid_input (image : tensor3 float) (kernels : tensor4 int16)
    (output : shape3) (width height nchannels nkernels kernel_order : Z)
  : Prop := ValidInput {
  valid_order : kernel_order = 1 ∨ kernel_order = 3
                ∨ kernel_order = 5 ∨ kernel_order = 7;
  valid_width : 0 < width;
  valid_height : 0 < height;
  valid_nchannels : 0 < nchannels;
  valid_nkernels : 0 < nkernels;
  valid_image_shape :
    t3_shape image
    = Shape3 (width + kernel_order) (height + kernel_order) nchannels;
  valid_image_data :
    Z.of_nat (length (t3_data image)) = size3 (t3_shape image);
  valid_kernels_shape :
    t4_shape kernels = Shape4 nkernels nchannels kernel_order kernel_order;
  valid_kernels_data :
    Z.of_nat (length (t4_data kernels)) = size4 (t4_shape kernels);
  valid_output : output = Shape3 nkernels width height;
}.

End Inputs.

(** *** The checker *)

(** [fabs(control[i][j][k] - result[i][j][k])] *)
Definition abs_diff {scalars : Scalars} (result control : tensor3 float)
    (i j k : Z) : double :=
  fabs (double_of_float
          (fsub (peek3 f0 control i j k) (peek3 f0 result i j k))).

(** the differences added up in the order of the loops *)
Definition sum_abs_diff {scalars : Scalars} (result control : tensor3 float)
    (dim0 dim1 dim2 : Z) : double :=
  fold_left (λ s i,
    fold_left (λ s j,
      fold_left (λ s k, dadd s (abs_diff result control i j k))
                (seqZ 0 dim2) s)
      (seqZ 0 dim1) s) (seqZ 0 dim0) d0.

Definition verdict_of {scalars : Scalars} (s : double) : verdict double :=
  if d_gt s d0_0625 then WARNING s else COMMENT s.

(** *** Tables of pointers *)

(** the first [n] entries of a table of [len] entries point to the
    multiples of [stride] *)
Definition linked (table : list (option Z)) (len n stride : Z) : Prop :=
  Z.of_nat (length table) = len
  ∧ ∀ x, 0 ≤ x < n → entry table x = Some (x * stride).

(** the tables of a matrix linked up to entries [a], [b] and [c] *)
Definition linked_tables (dim0 dim1 dim2 dim3 : Z) (a b c : Z) (t : tables)
  : Prop :=
  linked (tab_result t) dim0 a dim1
  ∧ linked (tab_mat1 t) (dim0 * dim1) b dim2
  ∧ linked (tab_mat2 t) (dim0 * dim1 * dim2) c dim3.

(** *** Runs that do not return *)

Inductive failure := UB | Abort.

Definition failed {X} (f : failure) : result X :=
  match f with
  | UB => Undefined
  | Abort => Aborted
  end.

(** [m] fails with [f] from every state *)
Definition ends_in {S X} (f : failure) (m : M S X) : Prop :=
  ∀ s, m s = failed f.

(** [m] fails with [f] from no state *)
Definition avoids {S X} (f : failure) (m : M S X) : Prop :=
  ∀ s, m s ≠ failed f.

(** *** Copying and printing *)

(** the first [n] elements are those of [source], the others those of
    [block0] *)
Definition copied {A} (source block0 : list A) (n : Z) (block : list A)
  : Prop :=
  block = take (Z.to_nat n) source ++ drop (Z.to_nat n) block0.

(** [m] appends [lines] to what has been printed *)
Definition prints {P X} (m : M (list P) X) (x : X) (lines : list P) : Prop :=
  ∀ stdout, ∃ l, m stdout = Ok (x, stdout ++ lines, l).

(** the values among what [write_out] printed, and the headers *)
Definition printed_values {scalars : Scalars} (lines : list printed)
  : list int16 :=
  omap (λ p, match p with
             | Outer_dimension_number _ => None
             | Element v | Last_element v => Some v
             end) lines.

Definition printed_headers {scalars : Scalars} (lines : list printed)
  : list Z :=
  omap (λ p, match p with
             | Outer_dimension_number i => Some i
             | _ => None
             end) lines.

(** the rows [write_out] ends *)
Definition printed_rows {scalars : Scalars} (lines : list printed) : nat :=
  length (List.filter (λ p, match p with
                            | Last_element _ => true
                            | _ => false
                            end) lines).

(** what [write_out] prints for a matrix whose elements are [val i j k] *)
Definition write_out_lines {scalars : Scalars} (val : Z → Z → Z → int16)
    (dim0 dim1 dim2 : Z) : list printed :=
  concat ((λ i,
    Outer_dimension_number i
    :: concat ((λ j,
         ((λ k, Element (val i j k)) <$> seqZ 0 (dim2 - 1))
         ++ [Last_element (val i j (dim2 - 1))]) <$> seqZ 0 dim1))
    <$> seqZ 0 dim0).

(** *** Outcomes *)

(** what a run returns, without the state and the accesses *)
Definition returned {S X} (r : result (X * S * list access)) : result X :=
  match r with
  | Ok (x, _, _) => Ok x
  | Aborted => Aborted
  | Undefined => Undefined
  end.

(** ** The claims as they are stated *)

Module Statement.
Import IEEE.

(** *** C1 *)

(** both convolutions run and [check_result] finds the sum of the absolute
    differences of their outputs at most 0.0625 *)
Definition within_epsilon (omp : bool) (image : tensor3 float)
    (kernels : tensor4 int16) (output : shape3)
    (width height nchannels nkernels kernel_order : Z)
    (out0 out0' : list float) : Prop :=
  ∃ control candidate S l,
    run (multichannel_conv image kernels output
           width height nchannels nkernels kernel_order) out0 = Ok control
    ∧ run (student_conv omp image kernels output
             width height nchannels nkernels kernel_order) out0'
      = Ok candidate
    ∧ check_result (Tensor3 output candidate) (Tensor3 output control)
        nkernels width height tt = Ok (COMMENT S, tt, l).

(** data in the range [main] generates (lines 195-208 and 231-245): the
    image elements are integers below 4096 + 1024 and the weights are
    non-negative and below 1024.  [small_sums] keeps the sum of the
    products of one cell below 2^53 (5236737 = 5119 * 1023). *)
Definition small_value (v : float) : Prop := ∃ i, 0 ≤ i < 5120 ∧ v = F i.
Definition small_weight (k : int16) : Prop := 0 ≤ k < 1024.
Definition small_image (image : tensor3 float) : Prop :=
  Forall small_value (t3_data image).
Definition small_kernels (kernels : tensor4 int16) : Prop :=
  Forall small_weight (t4_data kernels).
Definition small_sums (nchannels kernel_order : Z) : Prop :=
  nchannels * (kernel_order * kernel_order * 5236737) < 9007199254740992.

Definition small_data (image : tensor3 float) (kernels : tensor4 int16)
    (nchannels kernel_order : Z) : Prop :=
  small_image image ∧ small_kernels kernels
  ∧ small_sums nchannels kernel_order.

(** an output block without infinities and NaNs *)
Definition finite_output (out : list float) : Prop :=
  Forall (λ v, is_finite v = true) out.

(** *** C3 *)

(** [check_result] returns, having printed the sum of the differences with
    the classification the claim gives. *)
Definition check_result_returns (result control : tensor3 float)
    (dim0 dim1 dim2 : Z) : Prop :=
  ∃ l, check_result result control dim0 dim1 dim2 tt
       = Ok (verdict_of (sum_abs_diff result control dim0 dim1 dim2), tt, l).

(** *** C4 *)

(** [student_conv] on the tensors of leaves returns and every cell is a
    double sum of products narrowed once *)
Definition precision_policy (omp : bool)
    (width height nchannels nkernels kernel_order : Z)
    (out0 : list Sym.expr) : Prop :=
  ∃ out,
    run (student_conv (scalars := Sym.scalars) omp
           (Sym.image (Shape3 (width + kernel_order) (height + kernel_order)
                              nchannels))
           (Sym.kernels (Shape4 nkernels nchannels kernel_order kernel_order))
           (Shape3 nkernels width height)
           width height nchannels nkernels kernel_order) out0 = Ok out
    ∧ length out = length out0
    ∧ Forall Sym.double_accumulated out.

(** *** C6 *)

(** what the claim calls a configuration error *)
Definition configuration_error
    (width height kernel_order nchannels nkernels : Z) : Prop :=
  ¬ (kernel_order = 1 ∨ kernel_order = 3 ∨ kernel_order = 5
     ∨ kernel_order = 7)
  ∨ width ≤ 0 ∨ height ≤ 0 ∨ nchannels ≤ 0 ∨ nkernels ≤ 0.

(** the run ends with exit status 1 after a single message, before any
    convolution *)
Definition rejected (r : result (Z * list (event double))) : Prop :=
  ∃ e, r = Ok (1, [e]) ∧ e ≠ CONTROL_CONV ∧ e ≠ STUDENT_CONV.

(** *** C8 *)

(** [p] permutes the channel indices *)
Definition channel_permutation (nchannels : Z) (p : Z → Z) : Prop :=
  (∀ c, 0 ≤ c < nchannels → 0 ≤ p c < nchannels)
  ∧ (∀ c c', 0 ≤ c < nchannels → 0 ≤ c' < nchannels → p c = p c' → c = c').

(** [image'] and [kernels'] are [image] and [kernels] with the channels
    permuted by [p] *)
Definition channels_permuted (p : Z → Z)
    (image image' : tensor3 float) (kernels kernels' : tensor4 int16) : Prop :=
  t3_shape image' = t3_shape image
  ∧ t4_shape kernels' = t4_shape kernels
  ∧ (∀ i j c, 0 ≤ i < s3_0 (t3_shape image) → 0 ≤ j < s3_1 (t3_shape image) →
       0 ≤ c < s3_2 (t3_shape image) →
       peek3 f0 image' i j c = peek3 f0 image i j (p c))
  ∧ (∀ m c x y, 0 ≤ m < s4_0 (t4_shape kernels) →
       0 ≤ c < s4_1 (t4_shape kernels) → 0 ≤ x < s4_2 (t4_shape kernels) →
       0 ≤ y < s4_3 (t4_shape kernels) →
       peek4 0 kernels' m c x y = peek4 0 kernels m (p c) x y).
End Statement.

(** ** Reasoning about statements *)

Lemma bind_ok {S X Y} (m : M S X) (f : X → M S Y) s x s1 l1 y s2 l2 l :
  m s = Ok (x, s1, l1) → f x s1 = Ok (y, s2, l2) → l = l1 ++ l2 →
  bind m f s = Ok (y, s2, l).
Proof. intros E1 E2 ->. unfold bind. by rewrite E1, E2. Qed.

Lemma bind_ok_nil {S X Y} (m : M S X) (f : X → M S Y) s x s1 y s2 l :
  m s = Ok (x, s1, []) → f x s1 = Ok (y, s2, l) → bind m f s = Ok (y, s2, l).
Proof. intros E1 E2. by eapply bind_ok. Qed.

(** *** Statements that only read *)

Section Evaluation.
Context {S : Type}.

Lemma evals_ret {X} φ (v : X) : evals (S := S) φ (ret v) v.
Proof. intros s. exists []. split; [reflexivity | constructor]. Qed.

Lemma evals_bind {X Y} φ (m : M S X) (f : X → M S Y) v w :
  evals (S := S) φ m v → evals (S := S) φ (f v) w → evals (S := S) φ (bind m f) w.
Proof.
  intros Hm Hf s.
  destruct (Hm s) as (l1 & E1 & F1), (Hf s) as (l2 & E2 & F2).
  exists (l1 ++ l2). unfold bind. rewrite E1, E2.
  split; [reflexivity | by apply Forall_app].
Qed.

Lemma evals_weaken {X} (φ ψ : access → Prop) (m : M S X) v :
  (∀ a, φ a → ψ a) → evals (S := S) φ m v → evals (S := S) ψ m v.
Proof.
  intros Hw Hm s. destruct (Hm s) as (l & E & F).
  exists l. split; [done | by eapply Forall_impl].
Qed.

Lemma evals_iterate {X} φ (body : Z → X → M S X) (g : Z → X → X) l :
  (∀ i acc, i ∈ l → evals (S := S) φ (body i acc) (g i acc)) →
  ∀ acc, evals (S := S) φ (iterate body l acc) (fold_left (λ a i, g i a) l acc).
Proof.
  induction l as [|i l IH]; intros Hb acc; simpl.
  - apply evals_ret.
  - eapply evals_bind.
    + apply Hb. by left.
    + apply IH. intros j a Hj. apply Hb. by right.
Qed.

Lemma evals_for_acc {X} φ n (body : Z → X → M S X) (g : Z → X → X) acc :
  (∀ i a, 0 ≤ i < n → evals (S := S) φ (body i a) (g i a)) →
  evals (S := S) φ (for_acc n body acc) (fold_left (λ a i, g i a) (seqZ 0 n) acc).
Proof.
  intros Hb. apply evals_iterate. intros i a Hi.
  apply Hb. apply elem_of_seqZ in Hi. lia.
Qed.

Lemma evals_for_unit φ n (body : Z → M S unit) :
  (∀ i, 0 ≤ i < n → evals (S := S) φ (body i) tt) → evals (S := S) φ (for_ n body) tt.
Proof.
  intros Hb. unfold for_.
  assert (E : ∀ l a, fold_left (λ (a : unit) (_ : Z), tt) l a = tt).
  { induction l; intros []; simpl; auto. }
  pose proof (evals_for_acc φ n (λ i _, body i) (λ _ _, tt) tt) as Hl.
  rewrite E in Hl. apply Hl. intros i a Hi. by apply Hb.
Qed.

Lemma evals_run {X} φ (m : M S X) v s :
  evals (S := S) φ m v → ∃ l, m s = Ok (v, s, l) ∧ Forall φ l.
Proof. intros Hm. apply Hm. Qed.
End Evaluation.

(** *** Total element reads *)

Section Peek.
Context {A S : Type}.

Lemma evals_load_flat φ id dflt (block : list A) f :
  (∀ o, φ (Rd id o)) → readable_flat block f →
  evals (S := S) φ (load_flat id block f) (peek_flat dflt block f).
Proof.
  intros Hφ [H0 Hlen] s. exists [Rd id f].
  unfold load_flat, peek_flat.
  destruct (Z.leb_spec 0 f); [|lia].
  destruct (lookup_lt_is_Some_2 block (Z.to_nat f)) as [v Hv]; [lia|].
  rewrite Hv. simpl. split; [done | repeat constructor; apply Hφ].
Qed.

Lemma evals_load3 φ id dflt (t : tensor3 A) i j k :
  (∀ o, φ (Rd id o)) → readable3 t i j k →
  evals (S := S) φ (load3 id t i j k) (peek3 dflt t i j k).
Proof.
  intros Hφ (f & Hf & Hr). unfold load3, peek3. rewrite Hf.
  by apply evals_load_flat.
Qed.

Lemma evals_load4 φ id dflt (t : tensor4 A) i j k l :
  (∀ o, φ (Rd id o)) → readable4 t i j k l →
  evals (S := S) φ (load4 id t i j k l) (peek4 dflt t i j k l).
Proof.
  intros Hφ (f & Hf & Hr). unfold load4, peek4. rewrite Hf.
  by apply evals_load_flat.
Qed.
End Peek.

Section Branches.
Context {scalars : Scalars}.
Variables (image : tensor3 float) (kd : int16).
Variables (w h c : Z).

Local Abbreviation img := (peek3 f0 image).

Ltac step :=
  eapply evals_bind;
  [ first [ eapply (evals_load3 _ Image f0); [done|]
          | eapply (evals_load4 _ Kernels kd); [done|]
          | eapply (evals_load_flat _ Kernels kd); [done|] ] | ].

Lemma evals_window (kernels : tensor4 int16) K m sum :
  (∀ x y, 0 ≤ x < K → 0 ≤ y < K →
     readable3 image (w + x) (h + y) c ∧ readable4 kernels m c x y) →
  evals (S := list float) input_read
    (for_acc K (λ x sum,
       for_acc K (λ y sum,
         a <- load3 Image image (w + x) (h + y) c ;;
         k <- load4 Kernels kernels m c x y ;;
         ret (mac sum a k)) sum) sum)
    (window_val img (peek4 kd kernels) K m w h c sum).
Proof.
  intros Hr. unfold window_val.
  apply evals_for_acc. intros x a Hx.
  apply evals_for_acc. intros y b Hy.
  destruct (Hr x y Hx Hy) as [Hi Hk].
  step; [exact Hi|]. step; [exact Hk|]. apply evals_ret.
Qed.

Variable kernel_pointer : list int16.
Local Abbreviation kp := (peek_flat kd kernel_pointer).

Section Order.
Variables (K c_index : Z).
Hypothesis image_window :
  ∀ i j, w ≤ i < w + K → h ≤ j < h + K → readable3 image i j c.
Hypothesis kernel_window :
  ∀ i, c_index ≤ i < c_index + K * K → readable_flat kernel_pointer i.

Ltac side := first [ apply image_window; lia | apply kernel_window; lia ].

Lemma evals_order1 omp sum :
  K = 1 →
  evals (S := list float) input_read
    (order1 omp image kernel_pointer K w h c c_index sum)
    (order1_val img kp omp K w h c c_index sum).
Proof.
  intros ->. unfold order1, order1_val. destruct omp.
  - eapply evals_bind; [|apply evals_ret].
    apply evals_for_unit. intros x Hx.
    step; [side|]. step; [side|]. apply evals_ret.
  - apply evals_for_acc. intros x a Hx.
    step; [side|]. step; [side|]. apply evals_ret.
Qed.

Lemma evals_order3 sum :
  K = 3 →
  evals (S := list float) input_read
    (order3 image kernel_pointer K w h c c_index sum)
    (order3_val img kp K w h c c_index sum).
Proof.
  intros ->. unfold order3, order3_val.
  apply evals_for_acc. intros x a Hx. cbv zeta.
  do 6 (step; [side|]). apply evals_ret.
Qed.

Lemma evals_order5 sum :
  K = 5 →
  evals (S := list float) input_read
    (order5 image kernel_pointer K w h c c_index sum)
    (order5_val img kp K w h c c_index sum).
Proof.
  intros ->. unfold order5, order5_val.
  apply evals_for_acc. intros x a Hx. cbv zeta.
  do 10 (step; [side|]). apply evals_ret.
Qed.

Lemma evals_order7 sum :
  K = 7 →
  evals (S := list float) input_read
    (order7 image kernel_pointer K w h c c_index sum)
    (order7_val img kp K w h c c_index sum).
Proof.
  intros ->. unfold order7, order7_val.
  apply evals_for_acc. intros x a Hx. cbv zeta.
  do 14 (step; [side|]). apply evals_ret.
Qed.

(** One channel of one cell, for the four supported orders. *)
Lemma evals_channel omp sum :
  K = 1 ∨ K = 3 ∨ K = 5 ∨ K = 7 →
  evals (S := list float) input_read
    (channel omp image kernel_pointer K w h c c_index sum)
    (channel_val img kp omp K w h c c_index sum).
Proof.
  unfold channel, channel_val.
  intros [HK|[HK|[HK|HK]]]; rewrite HK; simpl; rewrite <- ?HK.
  - by apply evals_order1.
  - by apply evals_order3.
  - by apply evals_order5.
  - by apply evals_order7.
Qed.
End Order.


Lemma channel_val_other omp K c_index sum :
  K ≠ 1 → K ≠ 3 → K ≠ 5 → K ≠ 7 →
  channel_val img kp omp K w h c c_index sum = sum.
Proof.
  intros H1 H3 H5 H7. unfold channel_val.
  repeat match goal with
         | |- context [?a =? ?b] => destruct (Z.eqb_spec a b); [lia|]
         end.
  reflexivity.
Qed.
End Branches.

(** *** Statements that fill consecutive elements of the block *)

Section Filling.
Context {A : Type}.
(** the accesses allowed while the element at an offset is produced *)
Variable cell_log : Z → list access → Prop.

Lemma fill_log_one p l : cell_log p l → fill_log cell_log p 1 l.
Proof.
  intros Hc. rewrite <- (app_nil_r l). constructor; [done | constructor].
Qed.

Lemma fill_log_app p n1 n2 l1 l2 :
  fill_log cell_log p n1 l1 → fill_log cell_log (p + Z.of_nat n1) n2 l2 →
  fill_log cell_log p (n1 + n2) (l1 ++ l2).
Proof.
  induction 1 as [p|p n la lb Hc Hf IH]; intros H2; simpl.
  - by rewrite Z.add_0_r in H2.
  - rewrite <- app_assoc. constructor; [done|]. apply IH.
    by replace (p + 1 + Z.of_nat n) with (p + Z.of_nat (S n)) by lia.
Qed.

Lemma fills_iterate (body : Z → M (list A) unit) (vals : Z → list A)
    (stride base : Z) (n : nat) :
  ∀ a,
    (∀ i, a ≤ i < a + Z.of_nat n →
       fills cell_log (body i) (base + i * stride) (vals i)
       ∧ Z.of_nat (length (vals i)) = stride) →
    fills cell_log (iterate (λ i _, body i) (seqZ a (Z.of_nat n)) tt)
          (base + a * stride) (concat (vals <$> seqZ a (Z.of_nat n))).
Proof.
  induction n as [|n IH]; intros a Hb pre old suf Hpre Hold.
  - rewrite seqZ_nil in * by lia. simpl in *.
    destruct old; [|done]. exists []. split; [done | constructor].
  - rewrite seqZ_cons in * by lia.
    replace (Z.pred (Z.of_nat (S n))) with (Z.of_nat n) in * by lia.
    rewrite fmap_cons in *. simpl concat in *. simpl iterate.
    rewrite length_app in Hold |- *.
    destruct (Hb a ltac:(lia)) as [Ha Hla].
    set (k := length (vals a)) in *.
    assert (Ho : old = take k old ++ drop k old) by by rewrite take_drop.
    rewrite Ho, <- !app_assoc.
    destruct (Ha pre (take k old) (drop k old ++ suf) Hpre) as (l1 & E1 & L1).
    { rewrite length_take. lia. }
    assert (Hb' : ∀ i, Z.succ a ≤ i < Z.succ a + Z.of_nat n →
              fills cell_log (body i) (base + i * stride) (vals i)
              ∧ Z.of_nat (length (vals i)) = stride).
    { intros i Hi. apply Hb. lia. }
    destruct (IH (Z.succ a) Hb' (pre ++ vals a) (drop k old) suf)
      as (l2 & E2 & L2).
    { rewrite length_app. fold k. lia. }
    { rewrite length_drop. lia. }
    exists (l1 ++ l2). unfold bind. rewrite E1.
    rewrite <- !app_assoc in E2. rewrite E2.
    split; [done|]. apply fill_log_app; [done|].
    replace (base + a * stride + Z.of_nat k)
      with (base + Z.succ a * stride) by lia.
    done.
Qed.

Lemma fills_for (body : Z → M (list A) unit) (vals : Z → list A)
    (stride base n : Z) :
  (∀ i, 0 ≤ i < n →
     fills cell_log (body i) (base + i * stride) (vals i)
     ∧ Z.of_nat (length (vals i)) = stride) →
  fills cell_log (for_ n body) base (concat (vals <$> seqZ 0 n)).
Proof.
  intros Hb. unfold for_, for_acc.
  replace (seqZ 0 n) with (seqZ 0 (Z.of_nat (Z.to_nat n)))
    by (unfold seqZ; by rewrite Nat2Z.id).
  replace base with (base + 0 * stride) at 1 by lia.
  apply fills_iterate. intros i Hi. apply Hb. lia.
Qed.

Lemma concat_singletons {B} (f : B → A) (l : list B) :
  concat ((λ x, [f x]) <$> l) = f <$> l.
Proof.
  induction l as [|x l IH]; [done|].
  rewrite !fmap_cons. simpl. by rewrite IH.
Qed.

Lemma length_concat_fmap {B} (f : B → list A) (l : list B) (k : nat) :
  (∀ x, x ∈ l → length (f x) = k) →
  length (concat (f <$> l)) = (length l * k)%nat.
Proof.
  induction l as [|x l IH]; intros Hk; [done|].
  rewrite fmap_cons. simpl. rewrite length_app, Hk, IH; [done| |by left].
  intros y Hy. apply Hk. by right.
Qed.

Lemma length_tab_row (H m w : Z) (val : Z → Z → Z → A) :
  length ((λ h, val m w h) <$> seqZ 0 H) = Z.to_nat H.
Proof. by rewrite length_fmap, length_seqZ. Qed.

Lemma length_tab_slab (W H m : Z) (val : Z → Z → Z → A) :
  length (concat ((λ w, (λ h, val m w h) <$> seqZ 0 H) <$> seqZ 0 W))
  = (Z.to_nat W * Z.to_nat H)%nat.
Proof.
  rewrite (length_concat_fmap _ _ (Z.to_nat H)), length_seqZ; [done|].
  intros w _. apply length_tab_row.
Qed.

Lemma length_tab3 (M W H : Z) (val : Z → Z → Z → A) :
  length (tab3 M W H val) = (Z.to_nat M * (Z.to_nat W * Z.to_nat H))%nat.
Proof.
  unfold tab3.
  rewrite (length_concat_fmap _ _ (Z.to_nat W * Z.to_nat H)), length_seqZ;
    [done|].
  intros m _. apply length_tab_slab.
Qed.

Lemma fmap_seqZ_ext {B} (f g : Z → B) (n : Z) :
  (∀ i, 0 ≤ i < n → f i = g i) → f <$> seqZ 0 n = g <$> seqZ 0 n.
Proof.
  intros He. apply Forall_fmap_ext_1, Forall_seqZ. intros i Hi. apply He. lia.
Qed.

Lemma tab3_ext (M W H : Z) (val val' : Z → Z → Z → A) :
  (∀ m w h, 0 ≤ m < M → 0 ≤ w < W → 0 ≤ h < H → val m w h = val' m w h) →
  tab3 M W H val = tab3 M W H val'.
Proof.
  intros He. unfold tab3. f_equal.
  apply fmap_seqZ_ext. intros m Hm. f_equal.
  apply fmap_seqZ_ext. intros w Hw.
  apply fmap_seqZ_ext. intros h Hh. by apply He.
Qed.

Lemma Forall_concat_fmap (P : A → Prop) (f : Z → list A) (n : Z) :
  (∀ i, 0 ≤ i < n → Forall P (f i)) → Forall P (concat (f <$> seqZ 0 n)).
Proof.
  intros HP.
  assert (Hl : Forall (λ i, Forall P (f i)) (seqZ 0 n)).
  { apply Forall_seqZ. intros i Hi. apply HP. lia. }
  induction Hl as [|i l Hi Hl IH]; [constructor|].
  rewrite fmap_cons. simpl. by apply Forall_app.
Qed.

Lemma Forall_tab3 (P : A → Prop) (M W H : Z) (val : Z → Z → Z → A) :
  (∀ m w h, 0 ≤ m < M → 0 ≤ w < W → 0 ≤ h < H → P (val m w h)) →
  Forall P (tab3 M W H val).
Proof.
  intros HP. unfold tab3.
  apply Forall_concat_fmap. intros m Hm.
  apply Forall_concat_fmap. intros w Hw.
  apply Forall_fmap, Forall_seqZ. intros h Hh. apply HP; lia.
Qed.

(** The three loops over the cells. *)
Lemma fills_nest (cell : Z → Z → Z → M (list A) unit)
    (val : Z → Z → Z → A) (M W H : Z) :
  0 ≤ W → 0 ≤ H →
  (∀ m w h, 0 ≤ m < M → 0 ≤ w < W → 0 ≤ h < H →
     fills cell_log (cell m w h) (m * (W * H) + w * H + h) [val m w h]) →
  fills cell_log (for_ M (λ m, for_ W (λ w, for_ H (λ h, cell m w h))))
        0 (tab3 M W H val).
Proof.
  intros HW HH Hc. unfold tab3.
  apply (fills_for _ _ (W * H)). intros m Hm. split.
  - apply (fills_for _ _ H). intros w Hw. split.
    + rewrite <- concat_singletons.
      apply (fills_for _ _ 1). intros h Hh. split; [|done].
      replace (0 + m * (W * H) + w * H + h * 1)
        with (m * (W * H) + w * H + h) by lia.
      by apply Hc.
    + rewrite length_tab_row. lia.
  - rewrite length_tab_slab. nia.
Qed.
End Filling.

(** *** One output cell *)

Section Cells.
Context {scalars : Scalars}.
Variable φ : access → Prop.

Lemma store_flat_at (pre : list float) (x v : float) (suf : list float) p :
  Z.of_nat (length pre) = p →
  store_flat Output p v (pre ++ [x] ++ suf)
  = Ok (tt, pre ++ [v] ++ suf, [Wr Output p]).
Proof.
  intros Hp. unfold store_flat, in_range.
  rewrite length_app. simpl length.
  destruct (Z.leb_spec 0 p); [|lia].
  destruct (Z.ltb_spec p (Z.of_nat (length pre + S (length suf)))); [|lia].
  simpl. rewrite insert_app_r_alt by lia.
  replace (Z.to_nat p - length pre)%nat with 0%nat by lia. done.
Qed.

(** lines 379-448: the cell of [student_conv] *)
Lemma fills_student_cell (acc : M (list float) double) (v : double) (p : Z) :
  evals φ acc v →
  fills (cell_log φ 1)
        (sum <- acc ;; store_flat Output p (float_of_double sum))
        p [float_of_double v].
Proof.
  intros Hacc pre old suf Hpre Hold.
  destruct old as [|x [|? ?]]; try done.
  destruct (Hacc (pre ++ [x] ++ suf)) as (r & E & Hr).
  exists (r ++ [Wr Output p]). split.
  { eapply bind_ok; [exact E|by apply store_flat_at|done]. }
  apply fill_log_one.
  exists [r]. split; [done|]. split; [by repeat constructor|].
  simpl. by rewrite app_nil_r.
Qed.

(** lines 332-343: the cell of [multichannel_conv], which stores the sum
    after every channel *)
Lemma reference_channels (win : Z → double → M (list float) double)
    (g : Z → double → double) (o : shape3) (m w h p : Z) (l : list Z) :
  index3 o m w h = Some p →
  (∀ c sum, c ∈ l → evals φ (win c sum) (g c sum)) →
  ∀ sum pre x suf,
    Z.of_nat (length pre) = p →
    ∃ rs, length rs = length l ∧ Forall (Forall φ) rs
      ∧ iterate (λ c sum,
                   sum <- win c sum ;;
                   store3 Output o m w h (float_of_double sum) ;;;
                   ret sum) l sum (pre ++ [x] ++ suf)
        = Ok (fold_left (λ s c, g c s) l sum,
              pre ++ [match l with
                      | [] => x
                      | _ => float_of_double (fold_left (λ s c, g c s) l sum)
                      end] ++ suf,
              concat ((λ r, r ++ [Wr Output p]) <$> rs)).
Proof.
  intros Hidx. induction l as [|c l IH]; intros Hw sum pre x suf Hpre.
  - exists []. split; [done|]. split; [constructor|done].
  - destruct (Hw c sum ltac:(by left) (pre ++ [x] ++ suf)) as (r & E & Hr).
    destruct (IH ltac:(intros; apply Hw; by right) (g c sum) pre
                 (float_of_double (g c sum)) suf Hpre)
      as (rs & Hlen & Hrs & E').
    exists (r :: rs). split; [simpl; by rewrite Hlen|].
    split; [by constructor|].
    assert (Hlast : match l with
                    | [] => float_of_double (g c sum)
                    | _ => float_of_double
                             (fold_left (λ s c, g c s) l (g c sum))
                    end
                    = float_of_double
                        (fold_left (λ s c, g c s) (c :: l) sum))
      by by destruct l.
    rewrite Hlast in E'.
    cbn [iterate]. eapply bind_ok; [|exact E'|].
    + eapply bind_ok; [exact E| |reflexivity].
      eapply bind_ok; [|reflexivity|reflexivity].
      unfold store3. rewrite Hidx. by apply store_flat_at.
    + rewrite fmap_cons. simpl. by rewrite <- !app_assoc.
Qed.

Lemma fills_reference_cell (win : Z → double → M (list float) double)
    (g : Z → double → double) (o : shape3) (m w h p C : Z) :
  0 < C → index3 o m w h = Some p →
  (∀ c sum, 0 ≤ c < C → evals φ (win c sum) (g c sum)) →
  fills (cell_log φ (Z.to_nat C))
        (_ <- for_acc C (λ c sum,
                sum <- win c sum ;;
                store3 Output o m w h (float_of_double sum) ;;;
                ret sum) d0 ;;
         ret tt)
        p [float_of_double (fold_left (λ s c, g c s) (seqZ 0 C) d0)].
Proof.
  intros HC Hidx Hw pre old suf Hpre Hold.
  destruct old as [|x [|? ?]]; try done.
  destruct (reference_channels win g o m w h p (seqZ 0 C) Hidx) with
    (sum := d0) (pre := pre) (x := x) (suf := suf)
    as (rs & Hlen & Hrs & E); [|done|].
  { intros c sum Hc%elem_of_seqZ. apply Hw. lia. }
  exists (concat ((λ r, r ++ [Wr Output p]) <$> rs)). split.
  - eapply bind_ok; [exact E| |by rewrite app_nil_r].
    rewrite (seqZ_cons 0 C) by lia. done.
  - apply fill_log_one. exists rs. rewrite Hlen, length_seqZ. done.
Qed.
End Cells.

(** *** Offsets of the elements *)

Lemma index3_in (d0_ d1 d2 i j k : Z) :
  0 ≤ i < d0_ → 0 ≤ j < d1 → 0 ≤ k < d2 →
  index3 (Shape3 d0_ d1 d2) i j k = Some ((i * d1 + j) * d2 + k).
Proof.
  intros Hi Hj Hk. unfold index3, in_range, size3. simpl.
  assert (0 ≤ i * d1 + j < d0_ * d1) by nia.
  assert (0 ≤ (i * d1 + j) * d2 + k < d0_ * d1 * d2) by nia.
  repeat match goal with
         | |- context [?a <=? ?b] => destruct (Z.leb_spec a b); [|lia]
         | |- context [?a <? ?b] => destruct (Z.ltb_spec a b); [|lia]
         end.
  reflexivity.
Qed.

Lemma index4_in (d0_ d1 d2 d3 i j k l : Z) :
  0 ≤ i < d0_ → 0 ≤ j < d1 → 0 ≤ k < d2 → 0 ≤ l < d3 →
  index4 (Shape4 d0_ d1 d2 d3) i j k l
  = Some (((i * d1 + j) * d2 + k) * d3 + l).
Proof.
  intros Hi Hj Hk Hl. unfold index4, in_range, size4. simpl.
  assert (0 ≤ i * d1 + j < d0_ * d1) by nia.
  assert (0 ≤ (i * d1 + j) * d2 + k < d0_ * d1 * d2) by nia.
  assert (0 ≤ ((i * d1 + j) * d2 + k) * d3 + l < d0_ * d1 * d2 * d3) by nia.
  repeat match goal with
         | |- context [?a <=? ?b] => destruct (Z.leb_spec a b); [|lia]
         | |- context [?a <? ?b] => destruct (Z.ltb_spec a b); [|lia]
         end.
  reflexivity.
Qed.

Lemma readable3_in {A} (t : tensor3 A) (d0_ d1 d2 i j k : Z) :
  t3_shape t = Shape3 d0_ d1 d2 →
  Z.of_nat (length (t3_data t)) = size3 (t3_shape t) →
  0 ≤ i < d0_ → 0 ≤ j < d1 → 0 ≤ k < d2 → readable3 t i j k.
Proof.
  intros Hs Hd Hi Hj Hk. unfold readable3, readable_flat.
  rewrite Hd, Hs, index3_in by lia.
  eexists. split; [reflexivity|]. unfold size3. simpl.
  assert (0 ≤ i * d1 + j < d0_ * d1) by nia.
  nia.
Qed.

Lemma readable4_in {A} (t : tensor4 A) (d0_ d1 d2 d3 i j k l : Z) :
  t4_shape t = Shape4 d0_ d1 d2 d3 →
  Z.of_nat (length (t4_data t)) = size4 (t4_shape t) →
  0 ≤ i < d0_ → 0 ≤ j < d1 → 0 ≤ k < d2 → 0 ≤ l < d3 → readable4 t i j k l.
Proof.
  intros Hs Hd Hi Hj Hk Hl. unfold readable4, readable_flat.
  rewrite Hd, Hs, index4_in by lia.
  eexists. split; [reflexivity|]. unfold size4. simpl.
  assert (0 ≤ i * d1 + j < d0_ * d1) by nia.
  assert (0 ≤ (i * d1 + j) * d2 + k < d0_ * d1 * d2) by nia.
  nia.
Qed.

Lemma image_readable {A} (image : tensor3 A) (W H C K w h c i j : Z) :
  t3_shape image = Shape3 (W + K) (H + K) C →
  Z.of_nat (length (t3_data image)) = size3 (t3_shape image) →
  0 ≤ w < W → 0 ≤ h < H → 0 ≤ c < C →
  w ≤ i < w + K → h ≤ j < h + K → readable3 image i j c.
Proof.
  intros Hs Hd Hw Hh Hc Hi Hj.
  eapply readable3_in; [exact Hs|exact Hd|lia..].
Qed.

Lemma kernels_readable {A} (kernels : tensor4 A) (C M K m c x y : Z) :
  t4_shape kernels = Shape4 M C K K →
  Z.of_nat (length (t4_data kernels)) = size4 (t4_shape kernels) →
  0 ≤ m < M → 0 ≤ c < C → 0 ≤ x < K → 0 ≤ y < K →
  readable4 kernels m c x y.
Proof.
  intros Hs Hd Hm Hc Hx Hy.
  eapply readable4_in; [exact Hs|exact Hd|lia..].
Qed.

Lemma kernel_pointer_readable {A} (kernels : tensor4 A) (C M K m c i : Z) :
  t4_shape kernels = Shape4 M C K K →
  Z.of_nat (length (t4_data kernels)) = size4 (t4_shape kernels) →
  0 ≤ m < M → 0 ≤ c < C →
  c * (K * K) + m * (K * K * C) ≤ i < c * (K * K) + m * (K * K * C) + K * K →
  readable_flat (t4_data kernels) i.
Proof.
  intros Hs Hd Hm Hc Hi. unfold readable_flat.
  rewrite Hd, Hs. unfold size4. simpl. clear Hs Hd.
  assert (Hq : 0 ≤ K * K) by nia.
  replace (M * C * K * K) with (M * (C * (K * K))) by ring.
  replace (m * (K * K * C)) with (m * (C * (K * K))) in Hi by ring.
  revert Hq Hi. generalize (K * K). intros q Hq Hi.
  assert (0 ≤ c * q) by nia.
  assert (c * q + q ≤ C * q) by nia.
  assert (0 ≤ m * (C * q)) by nia.
  assert (m * (C * q) + C * q ≤ M * (C * q)) by nia.
  lia.
Qed.

(** [kernels[m][c][x][y]] and [kernel_pointer[y + x_index]] are the same
    element. *)
Lemma peek4_kernel_pointer {A} (kernels : tensor4 A) (C M K : Z) (kd : A)
    (m c x y : Z) :
  t4_shape kernels = Shape4 M C K K →
  0 ≤ m < M → 0 ≤ c < C → 0 ≤ x < K → 0 ≤ y < K →
  peek4 kd kernels m c x y
  = peek_flat kd (t4_data kernels)
      (y + (x * K + (c * (K * K) + m * (K * K * C)))).
Proof.
  intros Hs Hm Hc Hx Hy. unfold peek4.
  rewrite Hs, index4_in by lia. f_equal. lia.
Qed.


(** ** Ints *)

Lemma int_nonneg {St} (n : Z) (s : St) :
  0 ≤ n ≤ INT_MAX → int_ n s = Ok (n, s, []).
Proof.
  intros Hn. unfold int_, is_int.
  destruct (Z.leb_spec INT_MIN n); [|unfold INT_MIN in *; lia].
  destruct (Z.leb_spec n INT_MAX); [done|lia].
Qed.

Lemma is_int_nonneg (n : Z) : 0 ≤ n ≤ INT_MAX → is_int n = true.
Proof.
  intros Hn. unfold is_int.
  destruct (Z.leb_spec INT_MIN n); [|unfold INT_MIN in *; lia].
  destruct (Z.leb_spec n INT_MAX); [done|lia].
Qed.

(** entry [i] of a table of [n] slots of [s] entries *)
Lemma slot_bounds (i n s : Z) :
  0 ≤ i < n → 0 ≤ s → 0 ≤ i * s ∧ i * s + s ≤ n * s.
Proof. intros Hi Hs. nia. Qed.

Lemma le_mul_pos (a b : Z) : 0 ≤ a → 0 < b → a ≤ a * b.
Proof. intros Ha Hb. nia. Qed.

(** ** Indices within int

    For a valid input whose tensors have numbers of elements within int,
    every int that the convolutions compute (lines 339, 362-365, 371-378
    and 382-389) is the index of an element of one of the tensors or is
    below their size: none overflows, and the model keeps them in [Z]. *)
Lemma indices_are_ints
    (width height nchannels nkernels kernel_order m w h c x y : Z) :
  int_sizes width height nchannels nkernels kernel_order →
  0 < width → 0 < height → 0 < nchannels → 0 < nkernels →
  0 < kernel_order →
  0 ≤ m < nkernels → 0 ≤ w < width → 0 ≤ h < height → 0 ≤ c < nchannels →
  0 ≤ x < kernel_order → 0 ≤ y < kernel_order →
  let kernel_order_squared := kernel_order * kernel_order in
  let m_mult := kernel_order_squared * nchannels in
  let mo_mult := width * height in
  let mo_index := m * mo_mult in
  let m_index := m * m_mult in
  let w_index := w * height + mo_index in
  let h_index := h + w_index in
  let c_index := c * kernel_order_squared + m_index in
  let x_index := x * kernel_order + c_index in
  Forall (λ n, is_int n = true)
    [kernel_order_squared; m_mult; mo_mult; mo_index; m_index;
     w * height; w_index; h_index; c * kernel_order_squared; c_index;
     x * kernel_order; x_index; y + x_index; w + x; h + y].
Proof.
  intros (Si & Sk & So) HW HH HC HM HK Hm Hw Hh Hc Hx Hy. cbv zeta.
  pose proof (slot_bounds x kernel_order kernel_order Hx ltac:(lia)) as Hxk.
  replace (nkernels * nchannels * kernel_order * kernel_order)
    with (nkernels * (kernel_order * kernel_order * nchannels)) in Sk
    by ring.
  replace (nkernels * width * height) with (nkernels * (width * height))
    in So by ring.
  assert (HK2 : 0 < kernel_order * kernel_order)
    by (apply Z.mul_pos_pos; lia).
  assert (HWH : 0 < width * height) by (apply Z.mul_pos_pos; lia).
  revert Sk Hxk HK2. generalize (kernel_order * kernel_order).
  intros K2 Sk Hxk HK2.
  pose proof (slot_bounds w width height Hw ltac:(lia)) as Hwh.
  revert So HWH Hwh. generalize (width * height). intros WH So HWH Hwh.
  pose proof (slot_bounds c nchannels K2 Hc ltac:(lia)) as Hck.
  assert (HCK : 0 < K2 * nchannels) by (apply Z.mul_pos_pos; lia).
  pose proof (le_mul_pos K2 nchannels ltac:(lia) ltac:(lia)) as HK2C.
  assert (Ec : nchannels * K2 = K2 * nchannels) by ring.
  pose proof (slot_bounds m nkernels (K2 * nchannels) Hm ltac:(lia)) as Hmk.
  pose proof (slot_bounds m nkernels WH Hm ltac:(lia)) as Hmo.
  pose proof (le_mul_pos (width + kernel_order) (height + kernel_order)
                ltac:(lia) ltac:(lia)) as Hi1.
  assert (Hi2 : height + kernel_order
                ≤ (width + kernel_order) * (height + kernel_order)).
  { rewrite Z.mul_comm. apply le_mul_pos; lia. }
  pose proof (le_mul_pos ((width + kernel_order) * (height + kernel_order))
                nchannels ltac:(lia) ltac:(lia)) as Hi3.
  revert Si Hi1 Hi2 Hi3.
  generalize ((width + kernel_order) * (height + kernel_order) * nchannels).
  generalize ((width + kernel_order) * (height + kernel_order)).
  intros I2 I3 Si Hi1 Hi2 Hi3.
  revert Sk HCK HK2C Hmk Ec Hck. generalize (K2 * nchannels).
  intros K2C Sk HCK HK2C Hmk Ec Hck.
  repeat (constructor; [apply is_int_nonneg; lia|]).
  constructor.
Qed.

(** ** What the convolutions compute *)

(** without OpenMP, or with a single iteration of the parallel loop, there
    is no race *)
Lemma no_data_race (omp : bool) (nkernels width height : Z) :
  omp = false ∨ nkernels = 1 → data_race omp nkernels width height = false.
Proof. intros [->| ->]; [done|]. unfold data_race. by destruct omp. Qed.

Lemma fills_run {A} (cl : Z → list access → Prop) (c : M (list A) unit)
    (vs out0 : list A) :
  fills cl c 0 vs → length out0 = length vs →
  ∃ l, c out0 = Ok (tt, vs, l) ∧ fill_log cl 0 (length out0) l.
Proof.
  intros Hf Hl. destruct (Hf [] out0 [] eq_refl Hl) as (l & E & Hlog).
  simpl in E. rewrite !app_nil_r in E. exists l. by rewrite Hl.
Qed.

Lemma block_length {A} (out0 : list A) (M W H : Z)
    (val : Z → Z → Z → A) :
  0 ≤ M → 0 ≤ W → 0 ≤ H → Z.of_nat (length out0) = M * W * H →
  length out0 = length (tab3 M W H val).
Proof. intros HM HW HH Hl. rewrite length_tab3. nia. Qed.

Lemma fold_left_const {X} (l : list Z) (x : X) :
  fold_left (λ a _, a) l x = x.
Proof. induction l; simpl; auto. Qed.

Section Convolutions.
Context {scalars : Scalars}.
Variables (image : tensor3 float) (kernels : tensor4 int16).
Variables (W H C M K : Z).
Variable kd : int16.

Local Abbreviation img := (peek3 f0 image).
Local Abbreviation ker := (peek4 kd kernels).
Local Abbreviation kp := (peek_flat kd (t4_data kernels)).

Section Supported.
Hypothesis image_shape : t3_shape image = Shape3 (W + K) (H + K) C.
Hypothesis image_data :
  Z.of_nat (length (t3_data image)) = size3 (t3_shape image).
Hypothesis kernels_shape : t4_shape kernels = Shape4 M C K K.
Hypothesis kernels_data :
  Z.of_nat (length (t4_data kernels)) = size4 (t4_shape kernels).
Hypothesis HW : 0 < W.
Hypothesis HH : 0 < H.
Hypothesis HC : 0 < C.
Hypothesis HM : 0 < M.

(** [multichannel_conv] fills the block with [multichannel_val] and writes
    every element [nchannels] times. *)
Lemma multichannel_conv_fills (out0 : list float) :
  0 < K →
  Z.of_nat (length out0) = M * W * H →
  ∃ l, multichannel_conv image kernels (Shape3 M W H) W H C M K out0
       = Ok (tt, tab3 M W H (multichannel_val img ker C K), l)
       ∧ fill_log (cell_log input_read (Z.to_nat C)) 0 (length out0) l.
Proof.
  intros HK Hlen. apply fills_run; [|apply block_length; lia].
  unfold multichannel_conv.
  apply fills_nest; [lia..|]. intros m w h Hm Hw Hh.
  unfold multichannel_val.
  apply (fills_reference_cell input_read
           (λ c sum, for_acc K (λ x sum, for_acc K (λ y sum,
              a <- load3 Image image (w + x) (h + y) c ;;
              k <- load4 Kernels kernels m c x y ;;
              ret (mac sum a k)) sum) sum)
           (λ c sum, window_val img ker K m w h c sum)); [done| |].
  - rewrite index3_in by lia. f_equal. lia.
  - intros c sum Hc. apply evals_window. intros x y Hx Hy. split.
    + eapply image_readable; eauto; lia.
    + eapply kernels_readable; eauto.
Qed.

(** [student_conv] fills the block with [student_val] and writes every
    element once. *)
Lemma student_conv_fills (omp : bool) (out0 : list float) :
  omp = false ∨ M = 1 →
  K = 1 ∨ K = 3 ∨ K = 5 ∨ K = 7 →
  Z.of_nat (length out0) = M * W * H →
  ∃ l, student_conv omp image kernels (Shape3 M W H) W H C M K out0
       = Ok (tt, tab3 M W H (student_val img kp omp C K), l)
       ∧ fill_log (cell_log input_read 1) 0 (length out0) l.
Proof.
  intros Hrace HK Hlen.
  assert (HKpos : 0 < K) by lia.
  destruct (fills_run (cell_log input_read 1)
    (for_ M (λ m, for_ W (λ w, for_ H (λ h,
       sum <- for_acc C (λ c sum,
                channel omp image (t4_data kernels) K w h c
                        (c * (K * K) + m * (K * K * C)) sum) d0 ;;
       store_flat Output (h + (w * H + m * (W * H)))
                  (float_of_double sum)))))
    (tab3 M W H (student_val img kp omp C K)) out0) as (l & E & Hl).
  - apply fills_nest; [lia..|]. intros m w h Hm Hw Hh.
    replace (m * (W * H) + w * H + h) with (h + (w * H + m * (W * H))) by lia.
    apply fills_student_cell.
    apply evals_for_acc. intros c sum Hc.
    apply evals_channel; [| |done].
    + intros i j Hi Hj. eapply image_readable; eauto.
    + intros i Hi. eapply kernel_pointer_readable; eauto.
  - apply block_length; lia.
  - exists l. split; [|done].
    unfold student_conv. eapply bind_ok_nil.
    { unfold first_element4. rewrite kernels_shape. simpl.
      destruct (Z.ltb_spec 0 M); [|lia].
      destruct (Z.ltb_spec 0 (M * C)); [|nia].
      destruct (Z.ltb_spec 0 (M * C * K)); [|nia].
      reflexivity. }
    eapply bind_ok_nil;
      [|cbv beta zeta; rewrite (no_data_race omp M W H Hrace); exact E].
    unfold first_element3. simpl.
    destruct (Z.ltb_spec 0 M); [|lia].
    destruct (Z.ltb_spec 0 (M * W)); [|nia].
    reflexivity.
Qed.
End Supported.

End Convolutions.

(** ** Access logs *)

Lemma writes_to_app t f l1 l2 :
  writes_to t f (l1 ++ l2) = (writes_to t f l1 + writes_to t f l2)%nat.
Proof. unfold writes_to. by rewrite List.filter_app, length_app. Qed.

Lemma reads_app l1 l2 : reads (l1 ++ l2) = (reads l1 + reads l2)%nat.
Proof. unfold reads. by rewrite List.filter_app, length_app. Qed.

Lemma writes_to_reads_only (φ : access → Prop) t f l :
  (∀ a, φ a → is_read a = true) → Forall φ l → writes_to t f l = 0%nat.
Proof.
  intros Hφ Hl. unfold writes_to.
  induction Hl as [|a l Ha Hl IH]; [done|]. simpl.
  apply Hφ in Ha. destruct a; [|done]. destruct t; exact IH.
Qed.

Lemma input_read_is_read a : input_read a → is_read a = true.
Proof. by destruct a as [[]|]. Qed.

Section CellLogs.
Variable φ : access → Prop.
Hypothesis φ_reads : ∀ a, φ a → is_read a = true.

Lemma cell_log_writes k p l f :
  cell_log φ k p l →
  writes_to Output f l = if decide (f = p) then k else 0%nat.
Proof.
  intros (rs & <- & Hrs & ->).
  induction Hrs as [|r rs Hr Hrs IH]; [by destruct (decide _)|].
  rewrite fmap_cons. simpl concat. rewrite !writes_to_app, IH.
  rewrite (writes_to_reads_only φ) by done.
  unfold writes_to. simpl.
  destruct (decide (f = p)) as [->|Hne].
  - by rewrite Z.eqb_refl.
  - destruct (Z.eqb_spec p f); [congruence|done].
Qed.

Lemma cell_log_accesses (ψ : access → Prop) k p l :
  (∀ a, φ a → ψ a) → ψ (Wr Output p) → cell_log φ k p l → Forall ψ l.
Proof.
  intros Hφ Hw (rs & _ & Hrs & ->).
  induction Hrs as [|r rs Hr Hrs IH]; [constructor|].
  rewrite fmap_cons. simpl concat. rewrite !Forall_app.
  split; [split|done].
  - by eapply Forall_impl.
  - by repeat constructor.
Qed.

(** Filling [n] elements from offset [p] on writes each of them [k] times
    and writes nothing else. *)
Lemma fill_log_writes k p n l f :
  fill_log (cell_log φ k) p n l →
  writes_to Output f l
  = if decide (p ≤ f < p + Z.of_nat n) then k else 0%nat.
Proof.
  induction 1 as [p|p n l1 l2 Hc Hf IH].
  - destruct (decide _); [lia|done].
  - rewrite writes_to_app, (cell_log_writes k p) by done. rewrite IH.
    repeat destruct (decide _); lia.
Qed.

Lemma fill_log_accesses (ψ : access → Prop) k p n l :
  (∀ a, φ a → ψ a) → (∀ f, ψ (Wr Output f)) →
  fill_log (cell_log φ k) p n l → Forall ψ l.
Proof.
  intros Hφ Hw. induction 1 as [p|p n l1 l2 Hc Hf IH]; [constructor|].
  apply Forall_app. split; [|done].
  eapply cell_log_accesses; eauto.
Qed.

Lemma fill_log_writes_output_only k p n l :
  fill_log (cell_log φ k) p n l → writes_output_only l.
Proof.
  intros Hf t f Hin.
  eapply (fill_log_accesses
            (λ a, match a with Wr t _ => t = Output | Rd _ _ => True end))
    in Hf; [| |done].
  - rewrite list.Forall_forall in Hf. exact (Hf _ Hin).
  - intros a Ha%φ_reads. by destruct a.
Qed.
End CellLogs.


(** ** Properties *)

Lemma fold_left_ext_in {A B} (f g : A → B → A) (l : list B) (a : A) :
  (∀ x a, x ∈ l → f a x = g a x) → fold_left f l a = fold_left g l a.
Proof.
  revert a. induction l as [|x l IH]; intros a He; [done|]. simpl.
  rewrite He by by left. apply IH. intros y b Hy. apply He. by right.
Qed.

Lemma fold_left_seqZ_ext {A} (f g : A → Z → A) (n : Z) (a : A) :
  (∀ i a, 0 ≤ i < n → f a i = g a i) →
  fold_left f (seqZ 0 n) a = fold_left g (seqZ 0 n) a.
Proof.
  intros He. apply fold_left_ext_in. intros i b Hi%elem_of_seqZ.
  apply He. lia.
Qed.

Section SameSum.
Context {scalars : Scalars}.
Variables (image : tensor3 float) (kernels : tensor4 int16).
Variables (W H C M K : Z) (kd : int16).
Hypothesis kernels_shape : t4_shape kernels = Shape4 M C K K.

Local Abbreviation img := (peek3 f0 image).
Local Abbreviation ker := (peek4 kd kernels).
Local Abbreviation kp := (peek_flat kd (t4_data kernels)).

Ltac to_pointer :=
  repeat (erewrite (peek4_kernel_pointer kernels C M K)
            by first [exact kernels_shape | lia]).

(** For order 7 the unrolled row is the loop over [y]. *)
Lemma window_val_order7 m w h c sum :
  K = 7 → 0 ≤ m < M → 0 ≤ c < C →
  window_val img ker K m w h c sum
  = channel_val img kp true K w h c (c * (K * K) + m * (K * K * C)) sum
  ∧ window_val img ker K m w h c sum
    = channel_val img kp false K w h c (c * (K * K) + m * (K * K * C)) sum.
Proof.
  intros HK Hm Hc. unfold channel_val, window_val, order7_val.
  rewrite HK. change (7 =? 1) with false. change (7 =? 3) with false.
  change (7 =? 5) with false. change (7 =? 7) with true. cbv iota.
  rewrite <- HK.
  assert (E : ∀ x a, 0 ≤ x < K →
    fold_left (λ sum y, mac sum (img (w + x) (h + y) c) (ker m c x y))
              (seqZ 0 K) a
    = (let x_index := x * K + (c * (K * K) + m * (K * K * C)) in
       let t i sum := mac sum (img (w + x) (h + i) c) (kp (i + x_index)) in
       t 6 (t 5 (t 4 (t 3 (t 2 (t 1
         (mac a (img (w + x) h c) (kp x_index))))))))).
  { intros x a Hx. rewrite HK at 1.
    change (seqZ 0 7) with [0; 1; 2; 3; 4; 5; 6]. cbn [fold_left]. cbv zeta.
    to_pointer. rewrite Z.add_0_r, Z.add_0_l. reflexivity. }
  split; apply fold_left_seqZ_ext; intros x a Hx; by apply E.
Qed.

(** For order 1, with the pragmas ignored, the single tap is the window. *)
Lemma window_val_order1 m w h c sum :
  K = 1 → 0 ≤ m < M → 0 ≤ c < C →
  window_val img ker K m w h c sum
  = channel_val img kp false K w h c (c * (K * K) + m * (K * K * C)) sum.
Proof.
  intros HK Hm Hc. unfold channel_val, window_val, order1_val.
  rewrite HK. change (1 =? 1) with true. cbv iota. rewrite <- HK.
  apply fold_left_seqZ_ext. intros x a Hx. rewrite HK at 1.
  change (seqZ 0 1) with [0]. cbn [fold_left].
  to_pointer. rewrite Z.add_0_r, Z.add_0_l. reflexivity.
Qed.

End SameSum.

(** With OpenMP the order-1 loop leaves the sum at 0.0. *)
Lemma student_val_order1_openmp {scalars : Scalars}
    (img : Z → Z → Z → float) (kp : Z → int16) (C m w h : Z) :
  student_val img kp true C 1 m w h = float_of_double d0.
Proof.
  unfold student_val, channel_val, order1_val. simpl.
  by rewrite fold_left_const.
Qed.

Section Agreement.
Context {scalars : Scalars}.
Variables (image : tensor3 float) (kernels : tensor4 int16) (output : shape3).
Variables (W H C M K : Z).
Hypothesis valid : valid_input image kernels output W H C M K.

Lemma valid_input_weight : ∃ kd : int16, True.
Proof using valid.
  destruct valid as [HK HW HH HC HM _ _ Hks Hkd _].
  destruct (t4_data kernels) as [|kd ?]; [|by exists kd]. exfalso.
  rewrite Hks in Hkd. unfold size4 in Hkd. simpl in Hkd.
  assert (0 < M * C * K * K) by (destruct HK as [->|[->|[->| ->]]]; nia).
  lia.
Qed.

(** The two convolutions leave the same block whenever they compute the
    same value for every cell. *)
Lemma same_values_same_block (omp : bool) (out0 out0' : list float) :
  omp = false ∨ M = 1 →
  (∀ kd m w h, 0 ≤ m < M → 0 ≤ w < W → 0 ≤ h < H →
     multichannel_val (peek3 f0 image) (peek4 kd kernels) C K m w h
     = student_val (peek3 f0 image) (peek_flat kd (t4_data kernels))
         omp C K m w h) →
  Z.of_nat (length out0) = M * W * H →
  Z.of_nat (length out0') = M * W * H →
  ∃ out,
    run (multichannel_conv image kernels output W H C M K) out0 = Ok out
    ∧ run (student_conv omp image kernels output W H C M K) out0' = Ok out
    ∧ length out = length out0.
Proof using valid.
  intros Hrace Hval Hl Hl'. destruct valid_input_weight as [kd _].
  destruct valid as [HK HW HH HC HM His Hid Hks Hkd ->].
  destruct (multichannel_conv_fills image kernels W H C M K kd
              His Hid Hks Hkd HW HH HC HM out0) as (l & E & _);
    [lia|done|].
  destruct (student_conv_fills image kernels W H C M K kd
              His Hid Hks Hkd HW HH HC HM omp out0') as (l' & E' & _);
    [done|done|done|].
  eexists. unfold run. rewrite E, E'. split; [reflexivity|]. split.
  - f_equal. symmetry. apply tab3_ext. intros m w h Hm Hw Hh. by apply Hval.
  - symmetry. apply block_length; lia.
Qed.
End Agreement.

(** For order 7 the two convolutions compute the same value for a cell. *)
Lemma order7_same_values {scalars : Scalars} (omp : bool)
    (image : tensor3 float) (kernels : tensor4 int16) (output : shape3)
    (width height nchannels nkernels : Z) (kd : int16) (m w h : Z) :
  valid_input image kernels output width height nchannels nkernels 7 →
  0 ≤ m < nkernels →
  multichannel_val (peek3 f0 image) (peek4 kd kernels) nchannels 7 m w h
  = student_val (peek3 f0 image) (peek_flat kd (t4_data kernels))
      omp nchannels 7 m w h.
Proof.
  intros Hv Hm. unfold multichannel_val, student_val. f_equal.
  apply fold_left_seqZ_ext. intros c sum Hc.
  destruct (window_val_order7 image kernels nchannels nkernels 7 kd
              (valid_kernels_shape _ _ _ _ _ _ _ _ Hv) m w h c sum)
    as [Et Ef]; [done..|].
  by destruct omp.
Qed.

(** X27.  Without OpenMP, or with a single kernel, for every valid input
    with kernel_order = 7 and sizes within int, [student_conv] performs the
    multiply-accumulate operations of [multichannel_conv] in the same
    order, and the two output tensors are identical.  The statement holds
    for every interpretation of the scalar operations, so also for the
    expression trees, whose equality is equality of the operations and of
    their order. *)
Theorem order7_same_output {scalars : Scalars} (omp : bool)
    (image : tensor3 float) (kernels : tensor4 int16) (output : shape3)
    (width height nchannels nkernels : Z) (out0 out0' : list float) :
  omp = false ∨ nkernels = 1 →
  int_sizes width height nchannels nkernels 7 →
  valid_input image kernels output width height nchannels nkernels 7 →
  Z.of_nat (length out0) = nkernels * width * height →
  Z.of_nat (length out0') = nkernels * width * height →
  ∃ out,
    run (multichannel_conv image kernels output
           width height nchannels nkernels 7) out0 = Ok out
    ∧ run (student_conv omp image kernels output
             width height nchannels nkernels 7) out0' = Ok out.
Proof.
  intros Hrace _ Hv Hl Hl'.
  destruct (same_values_same_block image kernels output width height
              nchannels nkernels 7 Hv omp out0 out0')
    as (out & E & E' & _); [done| |done|done|by exists out].
  intros kd m w h Hm Hw Hh. by eapply order7_same_values.
Qed.

Lemma order7_same_output_witness :
  ∃ out,
    run (multichannel_conv Scenario.ones_image7 Scenario.ones_kernels7
           (Shape3 1 1 1) 1 1 1 1 7) [IEEE.F 0] = Ok out
    ∧ run (student_conv true Scenario.ones_image7 Scenario.ones_kernels7
             (Shape3 1 1 1) 1 1 1 1 7) [IEEE.F 0] = Ok out.
Proof.
  apply (order7_same_output (scalars := IEEE.scalars));
    [by right | unfold int_sizes, INT_MAX; lia
    |constructor; simpl; first [lia | reflexivity | auto] | reflexivity..].
Defined.

(** C9.  Two kernels of order 7 on the image (1+7)x(1+7)x1 of ones:
    [multichannel_conv] leaves 49.0 and 98.0 in the two cells, and so does
    [student_conv] with the pragmas ignored.  With the pragmas in force the
    two iterations of the loop over [m] are run by threads that share [w],
    [h], [mo_index], [w_index] and [h_index] (lines 355, 363 and 368): a
    data race, after which the output need not be the reference output. *)
Theorem order7_openmp_data_race (junk0 junk1 : IEEE.scalars.(float)) :
  run (multichannel_conv Scenario.ones_image7 Scenario.two_kernels7
         (Shape3 2 1 1) 1 1 1 2 7) [junk0; junk1]
  = Ok [IEEE.F 49; IEEE.F 98]
  ∧ run (student_conv false Scenario.ones_image7 Scenario.two_kernels7
           (Shape3 2 1 1) 1 1 1 2 7) [junk0; junk1]
    = Ok [IEEE.F 49; IEEE.F 98]
  ∧ run (student_conv true Scenario.ones_image7 Scenario.two_kernels7
           (Shape3 2 1 1) 1 1 1 2 7) [junk0; junk1]
    = Undefined.
Proof. repeat split; vm_compute; reflexivity. Qed.

(** X23.  With the pragmas ignored (the program compiled without
    OpenMP), for every valid input with kernel_order = 1 [student_conv]
    leaves in the output the block that [multichannel_conv] leaves. *)
Lemma order1_same_output_without_openmp {scalars : Scalars}
    (image : tensor3 float) (kernels : tensor4 int16) (output : shape3)
    (width height nchannels nkernels : Z) (out0 out0' : list float) :
  valid_input image kernels output width height nchannels nkernels 1 →
  Z.of_nat (length out0) = nkernels * width * height →
  Z.of_nat (length out0') = nkernels * width * height →
  ∃ out,
    run (multichannel_conv image kernels output
           width height nchannels nkernels 1) out0 = Ok out
    ∧ run (student_conv false image kernels output
             width height nchannels nkernels 1) out0' = Ok out.
Proof.
  intros Hv Hl Hl'.
  destruct (same_values_same_block image kernels output width height
              nchannels nkernels 1 Hv false out0 out0')
    as (out & E & E' & _); [by left| |done|done|by exists out].
  intros kd m w h Hm Hw Hh. unfold multichannel_val, student_val. f_equal.
  apply fold_left_seqZ_ext. intros c sum Hc.
  apply (window_val_order1 image kernels nchannels nkernels 1 kd
           (valid_kernels_shape _ _ _ _ _ _ _ _ Hv)); done.
Qed.

Lemma order1_same_output_without_openmp_witness :
  ∃ out,
    run (multichannel_conv (scalars := IEEE.scalars)
           Scenario.two_channel_image Scenario.two_channel_kernels
           (Shape3 1 1 1) 1 1 2 1 1) [IEEE.F 0] = Ok out
    ∧ run (student_conv false Scenario.two_channel_image
             Scenario.two_channel_kernels (Shape3 1 1 1) 1 1 2 1 1)
          [IEEE.F 1] = Ok out.
Proof.
  apply (order1_same_output_without_openmp (scalars := IEEE.scalars)
           Scenario.two_channel_image Scenario.two_channel_kernels
           (Shape3 1 1 1) 1 1 2 1 [IEEE.F 0] [IEEE.F 1]);
    [constructor; simpl; first [lia | reflexivity | auto]
    |reflexivity|reflexivity].
Defined.

(** X24.  With the OpenMP pragmas in force, for every valid input
    with kernel_order = 1 and a single kernel [student_conv] leaves
    (float)0.0 in every cell of the output, whatever the image and the
    kernel hold. *)
Lemma order1_openmp_zero {scalars : Scalars}
    (image : tensor3 float) (kernels : tensor4 int16) (output : shape3)
    (width height nchannels nkernels : Z) (out0 : list float) :
  nkernels = 1 →
  valid_input image kernels output width height nchannels nkernels 1 →
  Z.of_nat (length out0) = nkernels * width * height →
  ∃ out,
    run (student_conv true image kernels output
           width height nchannels nkernels 1) out0 = Ok out
    ∧ length out = length out0
    ∧ Forall (λ v, v = float_of_double d0) out.
Proof.
  intros H1 Hv Hl.
  destruct (valid_input_weight _ _ _ _ _ _ _ _ Hv) as [kd _].
  destruct Hv as [HK HW HH HC HM His Hid Hks Hkd ->].
  destruct (student_conv_fills image kernels width height nchannels nkernels
              1 kd His Hid Hks Hkd HW HH HC HM true out0)
    as (l & E & _); [by right|auto|done|].
  eexists. unfold run. rewrite E. split; [reflexivity|]. split.
  - symmetry. apply block_length; lia.
  - apply Forall_tab3. intros m w h _ _ _.
    by apply student_val_order1_openmp.
Qed.

Lemma order1_openmp_zero_witness :
  ∃ out,
    run (student_conv (scalars := IEEE.scalars) true
           Scenario.two_channel_image Scenario.two_channel_kernels
           (Shape3 1 1 1) 1 1 2 1 1) [IEEE.F 1] = Ok out
    ∧ length out = length [IEEE.F 1]
    ∧ Forall (λ v, v = float_of_double d0) out.
Proof.
  apply (order1_openmp_zero (scalars := IEEE.scalars)
           Scenario.two_channel_image Scenario.two_channel_kernels
           (Shape3 1 1 1) 1 1 2 1 [IEEE.F 1]);
    [reflexivity
    |constructor; simpl; first [lia | reflexivity | auto]|reflexivity].
Defined.

(** C2.  With kernel_order = 1, two channels, image values (2.0, 3.0) and
    weights (4, 5), [multichannel_conv] leaves 23.0 in the output cell while
    [student_conv], with the OpenMP pragmas in force, leaves 0.0. *)
Theorem order1_openmp_loses_sum (junk : IEEE.scalars.(float)) :
  run (multichannel_conv Scenario.two_channel_image
         Scenario.two_channel_kernels (Shape3 1 1 1) 1 1 2 1 1) [junk]
  = Ok [IEEE.F 23]
  ∧ run (student_conv true Scenario.two_channel_image
           Scenario.two_channel_kernels (Shape3 1 1 1) 1 1 2 1 1) [junk]
    = Ok [S754_zero false].
Proof. split; reflexivity. Qed.

(** X25.  Without OpenMP, or with a single kernel, for every valid input
    [student_conv] writes nothing but the output block and writes each of
    its elements exactly once. *)
Lemma student_conv_writes_once {scalars : Scalars} (omp : bool)
    (image : tensor3 float) (kernels : tensor4 int16) (output : shape3)
    (width height nchannels nkernels kernel_order : Z) (out0 : list float) :
  omp = false ∨ nkernels = 1 →
  valid_input image kernels output width height nchannels nkernels
              kernel_order →
  Z.of_nat (length out0) = nkernels * width * height →
  ∃ out l,
    student_conv omp image kernels output
      width height nchannels nkernels kernel_order out0 = Ok (tt, out, l)
    ∧ writes_output_only l
    ∧ ∀ f, 0 ≤ f < nkernels * width * height → writes_to Output f l = 1%nat.
Proof.
  intros Hrace Hv Hl.
  destruct (valid_input_weight _ _ _ _ _ _ _ _ Hv) as [kd _].
  destruct Hv as [HK HW HH HC HM His Hid Hks Hkd ->].
  destruct (student_conv_fills image kernels width height nchannels nkernels
              kernel_order kd His Hid Hks Hkd HW HH HC HM omp out0)
    as (l & E & Hlog); [done..|].
  exists (tab3 nkernels width height
            (student_val (peek3 f0 image)
               (peek_flat kd (t4_data kernels)) omp nchannels kernel_order)), l.
  split; [done|]. split.
  - eapply fill_log_writes_output_only; [|exact Hlog].
    apply input_read_is_read.
  - intros f Hf.
    rewrite (fill_log_writes input_read input_read_is_read _ _ _ _ f Hlog).
    destruct (decide _); [done|lia].
Qed.

Lemma student_conv_writes_once_witness :
  ∃ out l,
    student_conv (scalars := IEEE.scalars) true Scenario.ones_image
      Scenario.ones_kernels (Shape3 1 1 1) 1 1 1 1 3 [IEEE.F 0]
    = Ok (tt, out, l)
    ∧ writes_output_only l
    ∧ ∀ f, 0 ≤ f < 1 * 1 * 1 → writes_to Output f l = 1%nat.
Proof.
  apply (student_conv_writes_once (scalars := IEEE.scalars) true
           Scenario.ones_image Scenario.ones_kernels (Shape3 1 1 1)
           1 1 1 1 3 [IEEE.F 0]);
    [by right
    |constructor; simpl; first [lia | reflexivity | auto]|reflexivity].
Defined.

(** X26.  For every valid input [multichannel_conv] writes
    nothing but the output block and writes each of its elements once per
    channel. *)
Lemma multichannel_conv_writes_per_channel {scalars : Scalars}
    (image : tensor3 float) (kernels : tensor4 int16) (output : shape3)
    (width height nchannels nkernels kernel_order : Z) (out0 : list float) :
  valid_input image kernels output width height nchannels nkernels
              kernel_order →
  Z.of_nat (length out0) = nkernels * width * height →
  ∃ out l,
    multichannel_conv image kernels output
      width height nchannels nkernels kernel_order out0 = Ok (tt, out, l)
    ∧ writes_output_only l
    ∧ ∀ f, 0 ≤ f < nkernels * width * height →
           writes_to Output f l = Z.to_nat nchannels.
Proof.
  intros Hv Hl. destruct (valid_input_weight _ _ _ _ _ _ _ _ Hv) as [kd _].
  destruct Hv as [HK HW HH HC HM His Hid Hks Hkd ->].
  destruct (multichannel_conv_fills image kernels width height nchannels
              nkernels kernel_order kd His Hid Hks Hkd HW HH HC HM out0)
    as (l & E & Hlog); [lia|done|].
  exists (tab3 nkernels width height
            (multichannel_val (peek3 f0 image) (peek4 kd kernels)
               nchannels kernel_order)), l.
  split; [done|]. split.
  - eapply fill_log_writes_output_only; [|exact Hlog].
    apply input_read_is_read.
  - intros f Hf.
    rewrite (fill_log_writes input_read input_read_is_read _ _ _ _ f Hlog).
    destruct (decide _); [done|lia].
Qed.

Lemma multichannel_conv_writes_per_channel_witness :
  ∃ out l,
    multichannel_conv (scalars := IEEE.scalars) Scenario.two_channel_image
      Scenario.two_channel_kernels (Shape3 1 1 1) 1 1 2 1 1 [IEEE.F 0]
    = Ok (tt, out, l)
    ∧ writes_output_only l
    ∧ ∀ f, 0 ≤ f < 1 * 1 * 1 → writes_to Output f l = Z.to_nat 2.
Proof.
  apply (multichannel_conv_writes_per_channel (scalars := IEEE.scalars)
           Scenario.two_channel_image Scenario.two_channel_kernels
           (Shape3 1 1 1) 1 1 2 1 1 [IEEE.F 0]);
    [constructor; simpl; first [lia | reflexivity | auto]|reflexivity].
Defined.

(** C5.  With two channels [multichannel_conv] writes the output cell
    twice, once after each channel (the store of line 342 is inside the loop
    over the channels), where [student_conv] writes it once. *)
Theorem multichannel_conv_writes_cell_twice (junk : IEEE.scalars.(float)) :
  (∃ out l,
     multichannel_conv Scenario.two_channel_image
       Scenario.two_channel_kernels (Shape3 1 1 1) 1 1 2 1 1 [junk]
     = Ok (tt, out, l)
     ∧ writes_to Output 0 l = 2%nat)
  ∧ (∃ out l,
       student_conv false Scenario.two_channel_image
         Scenario.two_channel_kernels (Shape3 1 1 1) 1 1 2 1 1 [junk]
       = Ok (tt, out, l)
       ∧ writes_to Output 0 l = 1%nat).
Proof. split; eexists; eexists; split; reflexivity. Qed.




(** C7.  Image (1+3)x(1+3)x1 of ones, one 3x3 kernel of ones, kernel_order
    3 and a single output cell: [multichannel_conv] and [student_conv] both
    leave 9.0 in the cell. *)
Theorem all_ones_order3_is_nine (omp : bool) (junk : IEEE.scalars.(float)) :
  run (multichannel_conv Scenario.ones_image Scenario.ones_kernels
         (Shape3 1 1 1) 1 1 1 1 3) [junk]
  = Ok [S754_finite false 9437184 (-20)]
  ∧ run (student_conv omp Scenario.ones_image Scenario.ones_kernels
           (Shape3 1 1 1) 1 1 1 1 3) [junk]
    = Ok [S754_finite false 9437184 (-20)]
  ∧ S754_finite false 9437184 (-20) = IEEE.F 9.
Proof. destruct omp; repeat split; reflexivity. Qed.

(** ** The checker *)

Section Checker.
Context {scalars : Scalars}.
Variables (result control : tensor3 float).

Lemma evals_assert {S} φ (b : bool) :
  b = true → evals (S := S) φ (assert_ b) tt.
Proof. intros -> s. exists []. split; [done|constructor]. Qed.

Lemma check_result_evals (dim0 dim1 dim2 : Z) :
  (∀ i j k, 0 ≤ i < dim0 → 0 ≤ j < dim1 → 0 ≤ k < dim2 →
     readable3 control i j k ∧ readable3 result i j k
     ∧ d_ge (abs_diff result control i j k) d0 = true) →
  evals (S := unit) (λ _, True) (check_result result control dim0 dim1 dim2)
        (verdict_of (sum_abs_diff result control dim0 dim1 dim2)).
Proof.
  intros Hok. unfold check_result, sum_abs_diff.
  eapply evals_bind; [|apply evals_ret].
  apply evals_for_acc. intros i a Hi.
  apply evals_for_acc. intros j b Hj.
  apply evals_for_acc. intros k c Hk.
  destruct (Hok i j k Hi Hj Hk) as (Hc & Hr & Hge).
  eapply evals_bind; [by apply (evals_load3 _ Control f0)|].
  eapply evals_bind; [by apply (evals_load3 _ Result f0)|].
  eapply evals_bind; [apply evals_assert; exact Hge|].
  apply evals_ret.
Qed.
End Checker.

Section IEEEFacts.
Import IEEE.

(** [fabs(x) >= 0.0] fails for NaN only. *)
Lemma fabs_ge_zero (x : spec_float) :
  is_nan (fabs x) = false → d_ge (fabs x) d0 = true.
Proof. by destruct x as [?|?| |[] ? ?]. Qed.

Lemma fabs_nonnegative (x : spec_float) :
  d_ge (fabs x) d0 = true → is_nan (fabs x) = false.
Proof. by destruct x as [?|?| |[] ? ?]. Qed.

(** [x - x] is +0.0 for a finite float. *)
Lemma fsub_diag (x : spec_float) :
  is_finite x = true → fsub x x = S754_zero false.
Proof.
  destruct x as [[]|?| |s m e]; try done. intros _.
  simpl. unfold SFsub. rewrite Z.min_id. unfold shl_align.
  by rewrite Z.sub_diag.
Qed.
End IEEEFacts.

Section CheckerAndDriver.
Import IEEE Scenario Statement.

(** *** C3 *)

(** C3, as stated, fails: for two identical output tensors that hold
    +infinity the difference is NaN, the assertion [diff >= 0.0] fails and
    the checker aborts. *)
Lemma check_result_aborts :
  check_result infinite_output infinite_output 1 1 1 tt = Aborted
  ∧ ¬ check_result_returns infinite_output infinite_output 1 1 1.
Proof.
  split; [vm_compute; reflexivity|]. intros [l E]. vm_compute in E.
  discriminate.
Qed.

(** C3, amended.  For every pair of output tensors of identical shape
    none of whose element differences is NaN, [check_result] computes the
    sum S of |control[m][w][h] - result[m][w][h]| over all (m,w,h), reports
    WARNING when S exceeds 0.0625 and COMMENT otherwise, and returns; every
    difference it adds is at least 0.0. *)
Theorem check_result_verdict (result control : tensor3 float)
    (dim0 dim1 dim2 : Z) :
  t3_shape result = Shape3 dim0 dim1 dim2 →
  t3_shape control = Shape3 dim0 dim1 dim2 →
  Z.of_nat (length (t3_data result)) = size3 (t3_shape result) →
  Z.of_nat (length (t3_data control)) = size3 (t3_shape control) →
  (∀ i j k, 0 ≤ i < dim0 → 0 ≤ j < dim1 → 0 ≤ k < dim2 →
     is_nan (abs_diff result control i j k) = false) →
  (∃ l, check_result result control dim0 dim1 dim2 tt
        = Ok (let S := sum_abs_diff result control dim0 dim1 dim2 in
              if SFltb d0_0625 S then WARNING S else COMMENT S, tt, l))
  ∧ (∀ i j k, 0 ≤ i < dim0 → 0 ≤ j < dim1 → 0 ≤ k < dim2 →
       SFleb (S754_zero false) (abs_diff result control i j k) = true).
Proof.
  intros Hrs Hcs Hrd Hcd Hnan.
  assert (Hge : ∀ i j k, 0 ≤ i < dim0 → 0 ≤ j < dim1 → 0 ≤ k < dim2 →
            d_ge (abs_diff result control i j k) d0 = true).
  { intros i j k Hi Hj Hk. apply fabs_ge_zero. by apply Hnan. }
  split; [|exact Hge].
  destruct (check_result_evals result control dim0 dim1 dim2) with (s := tt)
    as (l & E & _).
  - intros i j k Hi Hj Hk. split; [|split].
    + by eapply readable3_in.
    + by eapply readable3_in.
    + by apply Hge.
  - by exists l.
Qed.

Lemma check_result_verdict_witness :
  (∃ l, check_result (Tensor3 (Shape3 1 1 1) [F 16777216])
          (Tensor3 (Shape3 1 1 1) [F 16777218]) 1 1 1 tt
        = Ok (WARNING (D 2), tt, l))
  ∧ (∀ i j k, 0 ≤ i < 1 → 0 ≤ j < 1 → 0 ≤ k < 1 →
       SFleb (S754_zero false)
         (abs_diff (Tensor3 (Shape3 1 1 1) [F 16777216])
                   (Tensor3 (Shape3 1 1 1) [F 16777218]) i j k) = true).
Proof.
  apply (check_result_verdict (Tensor3 (Shape3 1 1 1) [F 16777216])
           (Tensor3 (Shape3 1 1 1) [F 16777218]) 1 1 1);
    try reflexivity.
  intros i j k Hi Hj Hk.
  assert (i = 0) as -> by lia. assert (j = 0) as -> by lia.
  assert (k = 0) as -> by lia. reflexivity.
Defined.

(** *** C6 *)

(** C6, as stated, fails: with height = 0 (and the other arguments 1)
    nothing is reported, both convolutions run and the exit status is 0. *)
Lemma zero_height_not_rejected :
  configuration_error 1 0 1 1 1
  ∧ main true (λ _, 0) (λ _, 0) (λ _, F 0) (λ _, F 0) 6 1 0 1 1 1
    = Ok (0, [CONTROL_CONV; STUDENT_CONV; CHECK (COMMENT (S754_zero false))])
  ∧ ¬ rejected (main true (λ _, 0) (λ _, 0) (λ _, F 0) (λ _, F 0)
                  6 1 0 1 1 1).
Proof.
  split; [unfold configuration_error; lia|].
  split; [vm_compute; reflexivity|].
  intros (e & E & _). vm_compute in E. discriminate.
Qed.

(** C6, amended.  A kernel order outside {1,3,5,7} is detected and reported
    before any tensor is allocated and before either convolution runs, and
    the run ends with exit status 1; it is not retried. *)
Theorem kernel_order_rejected (omp : bool) (random_image random_kernels : nat → Z)
    (junk_output junk_control : nat → float)
    (width height kernel_order nchannels nkernels : Z) :
  ¬ (kernel_order = 1 ∨ kernel_order = 3 ∨ kernel_order = 5
     ∨ kernel_order = 7) →
  main omp random_image random_kernels junk_output junk_control
       6 width height kernel_order nchannels nkernels
  = Ok (1, [FATAL kernel_order])
  ∧ rejected (main omp random_image random_kernels junk_output junk_control
                6 width height kernel_order nchannels nkernels).
Proof.
  intros HK. unfold main. change (negb (6 =? 6)) with false. cbv iota.
  assert (E : (kernel_order =? 1) || (kernel_order =? 3)
              || (kernel_order =? 5) || (kernel_order =? 7) = false).
  { repeat match goal with
           | |- context [?a =? ?b] => destruct (Z.eqb_spec a b); [tauto|]
           end. reflexivity. }
  rewrite E. simpl. split; [reflexivity|].
  exists (FATAL kernel_order). by repeat split.
Qed.

Lemma kernel_order_rejected_witness :
  main true (λ _, 0) (λ _, 0) (λ _, F 0) (λ _, F 0) 6 2 2 4 2 2
  = Ok (1, [FATAL 4])
  ∧ rejected (main true (λ _, 0) (λ _, 0) (λ _, F 0) (λ _, F 0) 6 2 2 4 2 2).
Proof.
  apply (kernel_order_rejected true (λ _, 0) (λ _, 0) (λ _, F 0) (λ _, F 0)
           2 2 4 2 2).
  lia.
Defined.
End CheckerAndDriver.

Lemma peek_flat_elem_of {A} (d : A) (block : list A) (f : Z) :
  readable_flat block f → peek_flat d block f ∈ block.
Proof.
  intros [H0 Hlen]. unfold peek_flat.
  destruct (lookup_lt_is_Some_2 block (Z.to_nat f)) as [v Hv]; [lia|].
  rewrite Hv. simpl. by eapply list_elem_of_lookup_2.
Qed.

Lemma peek3_elem_of {A} (d : A) (t : tensor3 A) (i j k : Z) :
  readable3 t i j k → peek3 d t i j k ∈ t3_data t.
Proof.
  intros (f & Hf & Hr). unfold peek3. rewrite Hf.
  by apply peek_flat_elem_of.
Qed.

Lemma fold_left_seqZ_fixed {A} (f : A → Z → A) (n : Z) (a : A) :
  (∀ i, 0 ≤ i < n → f a i = a) → fold_left f (seqZ 0 n) a = a.
Proof.
  intros Hf.
  assert (Hl : Forall (λ i, f a i = a) (seqZ 0 n)).
  { apply Forall_seqZ. intros i Hi. apply Hf. lia. }
  induction Hl as [|i l Hi Hl IH]; [done|]. simpl. by rewrite Hi.
Qed.


(** ** Exact operations of the formats on small integers *)

Section Exactness.
Import IEEE.

(** a positive number of [d] binary digits lies in [2^(d-1), 2^d) *)
Lemma digits2_pos_bounds (q : positive) :
  2 ^ (Z.pos (digits2_pos q) - 1) ≤ Z.pos q < 2 ^ Z.pos (digits2_pos q).
Proof.
  induction q as [q IH|q IH|]; simpl digits2_pos.
  - rewrite Pos2Z.inj_succ.
    replace (Z.succ (Z.pos (digits2_pos q)) - 1)
      with (Z.succ (Z.pos (digits2_pos q) - 1)) by lia.
    rewrite !Z.pow_succ_r by lia. lia.
  - rewrite Pos2Z.inj_succ.
    replace (Z.succ (Z.pos (digits2_pos q)) - 1)
      with (Z.succ (Z.pos (digits2_pos q) - 1)) by lia.
    rewrite !Z.pow_succ_r by lia. lia.
  - simpl. lia.
Qed.

Lemma iter_xO_val q k : Z.pos (Pos.iter xO q k) = Z.pos q * 2 ^ Z.pos k.
Proof.
  induction k as [|k IH] using Pos.peano_ind.
  - simpl. lia.
  - rewrite Pos.iter_succ, Pos2Z.inj_succ, Z.pow_succ_r by lia.
    rewrite Pos2Z.inj_xO, IH. lia.
Qed.

Lemma shlp_val q k : 0 ≤ k → Z.pos (shlp q k) = Z.pos q * 2 ^ k.
Proof.
  intros Hk. destruct k as [|kp|kp]; simpl; [lia| |lia].
  apply iter_xO_val.
Qed.

Lemma iter_xO_digits q k :
  digits2_pos (Pos.iter xO q k) = (digits2_pos q + k)%positive.
Proof.
  induction k as [|k IH] using Pos.peano_ind.
  - simpl. lia.
  - rewrite Pos.iter_succ. simpl. rewrite IH. lia.
Qed.

Lemma shlp_digits q k :
  0 ≤ k → Z.pos (digits2_pos (shlp q k)) = Z.pos (digits2_pos q) + k.
Proof.
  intros Hk. destruct k as [|kp|kp]; simpl; [lia| |lia].
  rewrite iter_xO_digits. lia.
Qed.

(** shifting right what was shifted left loses nothing *)
Lemma iter_pos_iter {A} (f : A → A) k x :
  SpecFloat.iter_pos f k x = Pos.iter f x k.
Proof.
  revert x. induction k as [k IH|k IH|]; intros x; simpl.
  - rewrite !IH. rewrite <- !Pos.iter_swap. reflexivity.
  - rewrite !IH. reflexivity.
  - reflexivity.
Qed.

Lemma shr_exact q k :
  SpecFloat.iter_pos shr_1 k
    (Build_shr_record (Z.pos (Pos.iter xO q k)) false false)
  = Build_shr_record (Z.pos q) false false.
Proof.
  rewrite iter_pos_iter. revert q.
  induction k as [|k IH] using Pos.peano_ind; intros q.
  - reflexivity.
  - rewrite (Pos.iter_succ k _ shr_1), (Pos.iter_succ k _ xO).
    rewrite <- (Pos.iter_swap k _ xO q), IH. reflexivity.
Qed.

Section Format.
Variables prec emax : Z.
Hypothesis prec_pos : 0 < prec.
Hypothesis prec_emax : prec < emax.

Lemma fexp_normal e :
  emin prec emax ≤ e - prec → fexp prec emax e = e - prec.
Proof. unfold fexp. lia. Qed.

Lemma shr_shlp (m' : positive) (k e : Z) :
  0 ≤ k →
  shr (Build_shr_record (Z.pos (shlp m' k)) false false) e k
  = (Build_shr_record (Z.pos m') false false, e + k).
Proof.
  intros Hk. destruct k as [|kp|kp]; [|simpl|lia].
  - simpl. f_equal. lia.
  - rewrite shr_exact. reflexivity.
Qed.

(** a mantissa of [prec] digits followed by [k] zeros is rounded to
    itself *)
Lemma round_aux_exact (m' : positive) (k e : Z) :
  Z.pos (digits2_pos m') = prec → 0 ≤ k →
  emin prec emax ≤ e + k ≤ emax - prec →
  binary_round_aux prec emax false (Z.pos (shlp m' k)) e loc_Exact
  = S754_finite false m' (e + k).
Proof.
  intros Hd Hk He. unfold binary_round_aux, shr_fexp.
  cbn [Zdigits2 shr_record_of_loc].
  rewrite (shlp_digits m' k Hk), Hd.
  rewrite fexp_normal by lia.
  replace (prec + k + e - prec - e) with k by lia.
  rewrite (shr_shlp m' k e Hk).
  cbn [shr_m loc_of_shr_record round_nearest_even Zdigits2 shr_record_of_loc].
  rewrite Hd, fexp_normal by lia.
  replace (prec + (e + k) - prec - (e + k)) with 0 by lia.
  cbn [shr shr_m].
  destruct (Z.leb_spec (e + k) (emax - prec)); [reflexivity|lia].
Qed.

Lemma digits_le_prec (q : positive) :
  Z.pos q < 2 ^ prec → Z.pos (digits2_pos q) ≤ prec.
Proof.
  intros Hq. pose proof (digits2_pos_bounds q) as [Hl _].
  assert (2 ^ (Z.pos (digits2_pos q) - 1) < 2 ^ prec) by lia.
  apply Z.pow_lt_mono_r_iff in H; lia.
Qed.

(** rounding [q * 2^j * 2^-j] gives [q] when [q] has at most [prec]
    digits *)
Lemma round_exact (q : positive) (j : Z) :
  Z.pos q < 2 ^ prec → 0 ≤ j →
  binary_round prec emax false (shlp q j) (- j) = canon prec q.
Proof.
  intros Hq Hj. pose proof (digits_le_prec q Hq) as Hd.
  unfold binary_round, canon.
  rewrite (shlp_digits q j Hj).
  replace (Z.pos (digits2_pos q) + j + - j) with (Z.pos (digits2_pos q))
    by lia.
  rewrite fexp_normal by (unfold emin; lia).
  set (dq := Z.pos (digits2_pos q)) in *.
  set (m' := shlp q (prec - dq)).
  assert (Hm' : Z.pos (digits2_pos m') = prec).
  { unfold m'. rewrite shlp_digits by lia. fold dq. lia. }
  unfold shl_align.
  destruct (dq - prec - - j) as [|t|t] eqn:Et.
  - replace (shlp q j) with (shlp m' 0).
    + rewrite round_aux_exact by (unfold emin; lia). f_equal. lia.
    + apply Pos2Z.inj. unfold m'. rewrite !shlp_val by lia.
      replace j with (prec - dq) by lia. rewrite Z.pow_0_r. lia.
  - replace (shlp q j) with (shlp m' (Z.pos t)).
    + rewrite round_aux_exact by (unfold emin; lia). f_equal. lia.
    + apply Pos2Z.inj. unfold m'. rewrite !shlp_val by lia.
      rewrite <- Z.mul_assoc, <- Z.pow_add_r by lia. do 2 f_equal. lia.
  - replace (Pos.iter xO (shlp q j) t) with (shlp m' 0).
    + rewrite round_aux_exact by (unfold emin; lia). f_equal. lia.
    + apply Pos2Z.inj. unfold m'. rewrite iter_xO_val, !shlp_val by lia.
      rewrite Z.pow_0_r, Z.mul_1_r, <- Z.mul_assoc, <- Z.pow_add_r by lia.
      do 2 f_equal. lia.
Qed.

Lemma normalize_pos (q : positive) :
  Z.pos q < 2 ^ prec →
  binary_normalize prec emax (Z.pos q) 0 false = canon prec q.
Proof.
  intros Hq. unfold binary_normalize.
  change q with (shlp q 0) at 1. change 0 with (- 0) at 2.
  apply round_exact; [exact Hq|lia].
Qed.

Lemma shl_align_fst (m : positive) (e ez : Z) :
  fst (shl_align m e ez) = shlp m (e - ez).
Proof.
  unfold shl_align.
  destruct (ez - e) as [|p|p] eqn:E; simpl.
  - replace (e - ez) with 0 by lia. reflexivity.
  - replace (e - ez) with (Z.neg p) by lia. reflexivity.
  - replace (e - ez) with (Z.pos p) by lia. reflexivity.
Qed.

Lemma normalize_zero : binary_normalize prec emax 0 0 false = S754_zero false.
Proof. reflexivity. Qed.

(** the sum of two non-negative integers is exact when it is below
    [2^prec] *)
Lemma add_exact (a b : Z) :
  0 ≤ a → 0 ≤ b → a + b < 2 ^ prec →
  SFadd prec emax (binary_normalize prec emax a 0 false)
                  (binary_normalize prec emax b 0 false)
  = binary_normalize prec emax (a + b) 0 false.
Proof.
  intros Ha Hb Hab.
  destruct a as [|qa|qa]; [|rewrite (normalize_pos qa) by lia|lia];
    (destruct b as [|qb|qb]; [|rewrite (normalize_pos qb) by lia|lia]).
  - reflexivity.
  - rewrite normalize_zero, Z.add_0_l, normalize_pos by lia. reflexivity.
  - rewrite normalize_zero, Z.add_0_r, normalize_pos by lia. reflexivity.
  - pose proof (digits_le_prec qa ltac:(lia)) as Hda.
    pose proof (digits_le_prec qb ltac:(lia)) as Hdb.
    change (Z.pos qa + Z.pos qb) with (Z.pos (qa + qb)) in *.
    rewrite (normalize_pos (qa + qb)) by lia.
    unfold canon at 1 2, SFadd. rewrite !shl_align_fst. unfold cond_Zopp.
    set (da := Z.pos (digits2_pos qa)) in *.
    set (db := Z.pos (digits2_pos qb)) in *.
    set (ez := Z.min (da - prec) (db - prec)).
    assert (Hez : ez ≤ 0) by lia.
    assert (Hsum : Z.pos (shlp (shlp qa (prec - da)) (da - prec - ez))
                   + Z.pos (shlp (shlp qb (prec - db)) (db - prec - ez))
                   = Z.pos (shlp (qa + qb) (- ez))).
    { rewrite !shlp_val by lia. rewrite Pos2Z.inj_add.
      rewrite <- !Z.mul_assoc, <- !Z.pow_add_r by lia.
      replace (prec - da + (da - prec - ez)) with (- ez) by lia.
      replace (prec - db + (db - prec - ez)) with (- ez) by lia. lia. }
    rewrite Hsum. unfold binary_normalize.
    replace ez with (- - ez) at 2 by lia.
    rewrite round_exact by lia.
    reflexivity.
Qed.

(** so is their product *)
Lemma mul_exact (a b : Z) :
  0 ≤ a < 2 ^ prec → 0 ≤ b < 2 ^ prec → a * b < 2 ^ prec →
  SFmul prec emax (binary_normalize prec emax a 0 false)
                  (binary_normalize prec emax b 0 false)
  = binary_normalize prec emax (a * b) 0 false.
Proof.
  intros [Ha Ha'] [Hb Hb'] Hab.
  destruct a as [|qa|qa]; [| |lia]; (destruct b as [|qb|qb]; [| |lia]).
  - reflexivity.
  - rewrite normalize_zero, normalize_pos by lia. reflexivity.
  - rewrite normalize_zero, normalize_pos by lia. reflexivity.
  - rewrite (normalize_pos qa), (normalize_pos qb) by assumption.
    change (Z.pos qa * Z.pos qb) with (Z.pos (qa * qb)) in *.
    rewrite normalize_pos by lia.
    pose proof (digits_le_prec (qa * qb) Hab) as Hdn.
    pose proof (digits2_pos_bounds qa) as [Hal Hau].
    pose proof (digits2_pos_bounds qb) as [Hbl Hbu].
    pose proof (digits2_pos_bounds (qa * qb)) as [Hnl Hnu].
    pose proof (digits_le_prec qa ltac:(nia)) as Hda.
    pose proof (digits_le_prec qb ltac:(nia)) as Hdb.
    unfold canon, SFmul. cbn [xorb].
    set (da := Z.pos (digits2_pos qa)) in *.
    set (db := Z.pos (digits2_pos qb)) in *.
    set (dn := Z.pos (digits2_pos (qa * qb))) in *.
    assert (H1a : 1 ≤ da) by (unfold da; lia).
    assert (H1b : 1 ≤ db) by (unfold db; lia).
    assert (Hlow : da + db - 1 ≤ dn).
    { assert (Hp : 2 ^ (da - 1 + (db - 1)) < 2 ^ dn).
      { rewrite Z.pow_add_r by lia. rewrite Pos2Z.inj_mul in Hnu.
        assert (0 < 2 ^ (da - 1)) by (apply Z.pow_pos_nonneg; lia).
        assert (0 < 2 ^ (db - 1)) by (apply Z.pow_pos_nonneg; lia).
        nia. }
      apply Z.pow_lt_mono_r_iff in Hp; lia. }
    set (m' := shlp (qa * qb) (prec - dn)).
    assert (Hm' : Z.pos (digits2_pos m') = prec).
    { unfold m'. rewrite shlp_digits by lia. fold dn. lia. }
    replace (shlp qa (prec - da) * shlp qb (prec - db))%positive
      with (shlp m' (prec - da - db + dn)).
    + rewrite round_aux_exact by (unfold emin; lia). f_equal. lia.
    + apply Pos2Z.inj. unfold m'.
      rewrite Pos2Z.inj_mul, !shlp_val by lia. rewrite Pos2Z.inj_mul.
      rewrite <- !Z.mul_assoc, <- Z.pow_add_r by lia.
      replace (prec - dn + (prec - da - db + dn))
        with ((prec - da) + (prec - db)) by lia.
      rewrite Z.pow_add_r by lia. ring.
Qed.
End Format.

(** widening binary32 to binary64 *)
Lemma widen_exact (n : Z) :
  0 ≤ n < 2 ^ 24 → convert round64 (F n) = D n.
Proof.
  intros [H0 Hn]. destruct n as [|q|q]; [reflexivity| |lia].
  unfold F, D, round32, round64.
  rewrite (normalize_pos 24 128) by lia.
  assert (Hq : Z.pos q < 2 ^ 53).
  { assert (2 ^ 24 < 2 ^ 53) by (apply Z.pow_lt_mono_r; lia). lia. }
  rewrite (normalize_pos 53 1024) by lia.
  pose proof (digits_le_prec 24 ltac:(lia) q Hn) as Hd.
  unfold canon at 1. cbn [convert cond_Zopp]. unfold binary_normalize.
  replace (Z.pos (digits2_pos q) - 24) with (- (24 - Z.pos (digits2_pos q)))
    by lia.
  apply round_exact; lia.
Qed.

(** shifting right keeps a mantissa non-negative and does not enlarge
    it *)
(** *** Narrowing stays finite *)

Lemma shr_1_bounds (mrs : shr_record) :
  0 ≤ shr_m mrs → 0 ≤ shr_m (shr_1 mrs) ≤ shr_m mrs.
Proof.
  destruct mrs as [m r s]. simpl.
  destruct m as [|[p|p|]|[p|p|]]; simpl; lia.
Qed.

Lemma shr_bounds (mrs mrs' : shr_record) (e n e' : Z) :
  shr mrs e n = (mrs', e') → 0 ≤ shr_m mrs →
  0 ≤ shr_m mrs' ≤ shr_m mrs ∧ e' = e + Z.max 0 n.
Proof.
  intros E Hm. destruct n as [|p|p]; simpl in E;
    injection E as <- <-; try (split; lia).
  split; [|lia]. rewrite iter_pos_iter.
  apply (Pos.iter_invariant p _ shr_1
           (λ r, 0 ≤ shr_m r ≤ shr_m mrs)); [|lia].
  intros r Hr. pose proof (shr_1_bounds r ltac:(lia)). lia.
Qed.

Lemma shr_record_of_loc_m (m : Z) (l : location) :
  shr_m (shr_record_of_loc m l) = m.
Proof. by destruct l as [|[]]. Qed.

Lemma round_nearest_even_bounds (m : Z) (l : location) :
  m ≤ round_nearest_even m l ≤ m + 1.
Proof.
  destruct l as [|[]]; simpl; try lia. destruct (IntDef.Z.even m); lia.
Qed.

Lemma Zdigits2_le (m k : Z) : 0 < k → 0 ≤ m < 2 ^ k → 0 ≤ Zdigits2 m ≤ k.
Proof.
  intros Hk Hm. destruct m as [|q|q]; simpl; [lia| |lia].
  pose proof (digits_le_prec k Hk q ltac:(lia)). lia.
Qed.

(** Narrowing the double of a non-negative integer below 2^53 gives a
    finite float. *)
Lemma narrow_finite (n : Z) :
  0 ≤ n < 2 ^ 53 → is_finite (convert round32 (D n)) = true.
Proof.
  intros [H0 Hn]. destruct n as [|q|q]; [reflexivity| |lia].
  unfold D, round64. rewrite (normalize_pos 53 1024) by lia.
  pose proof (digits_le_prec 53 ltac:(lia) q Hn) as Hd.
  pose proof (Pos2Z.is_pos (digits2_pos q)) as Hd0.
  unfold canon. cbn [convert cond_Zopp].
  set (d := Z.pos (digits2_pos q)) in *.
  set (mx := shlp q (53 - d)).
  assert (Hmx : Z.pos (digits2_pos mx) = 53).
  { unfold mx. rewrite shlp_digits by lia. fold d. lia. }
  assert (Hv : Z.pos mx < 2 ^ 53).
  { pose proof (digits2_pos_bounds mx) as [_ Hu]. by rewrite Hmx in Hu. }
  unfold round32, binary_normalize, binary_round. rewrite Hmx.
  replace (fexp 24 128 (53 + (d - 53))) with (d - 53 + 29)
    by (unfold fexp, emin; lia).
  unfold shl_align. replace (d - 53 + 29 - (d - 53)) with 29 by lia.
  cbv iota.
  unfold binary_round_aux.
  destruct (shr_fexp 24 128 (Z.pos mx) (d - 53) loc_Exact)
    as [mrs' e'] eqn:E1.
  destruct (shr_fexp 24 128
              (round_nearest_even (shr_m mrs') (loc_of_shr_record mrs'))
              e' loc_Exact) as [mrs'' e''] eqn:E2.
  unfold shr_fexp in E1, E2.
  apply shr_bounds in E1; [|rewrite shr_record_of_loc_m; lia].
  rewrite shr_record_of_loc_m in E1. destruct E1 as [Hm' He'].
  cbn [Zdigits2] in He'. rewrite Hmx in He'.
  replace (fexp 24 128 (53 + (d - 53))) with (d - 53 + 29) in He'
    by (unfold fexp, emin; lia).
  pose proof (round_nearest_even_bounds (shr_m mrs')
                (loc_of_shr_record mrs')) as Hr.
  set (m1 := round_nearest_even (shr_m mrs') (loc_of_shr_record mrs')) in *.
  apply shr_bounds in E2; [|rewrite shr_record_of_loc_m; lia].
  rewrite shr_record_of_loc_m in E2. destruct E2 as [Hm'' He''].
  assert (H54 : 2 ^ 54 = 2 * 2 ^ 53) by done.
  pose proof (Zdigits2_le m1 54 ltac:(lia) ltac:(lia)) as Hdg.
  assert (He : e'' ≤ 104).
  { rewrite He''. unfold fexp, emin. lia. }
  destruct (shr_m mrs'') as [|p|p]; [done| |lia].
  change (128 - 24) with 104.
  destruct (Z.leb_spec e'' 104); [done|lia].
Qed.
End Exactness.

(** *** Arithmetic on small integers *)

Section SmallIntegers.
Import IEEE.

Lemma fmul_small (a b : Z) :
  0 ≤ a < 16777216 → 0 ≤ b < 16777216 → a * b < 16777216 →
  fmul (F a) (F b) = F (a * b).
Proof. intros Ha Hb Hab. by apply (mul_exact 24 128). Qed.

Lemma fadd_small (a b : Z) :
  0 ≤ a → 0 ≤ b → a + b < 16777216 → fadd (F a) (F b) = F (a + b).
Proof. intros Ha Hb Hab. by apply (add_exact 24 128). Qed.

Lemma dmul_small (a b : Z) :
  0 ≤ a < 9007199254740992 → 0 ≤ b < 9007199254740992 →
  a * b < 9007199254740992 → dmul (D a) (D b) = D (a * b).
Proof. intros Ha Hb Hab. by apply (mul_exact 53 1024). Qed.

Lemma dadd_small (a b : Z) :
  0 ≤ a → 0 ≤ b → a + b < 9007199254740992 → dadd (D a) (D b) = D (a + b).
Proof. intros Ha Hb Hab. by apply (add_exact 53 1024). Qed.

Lemma double_of_float_small (n : Z) :
  0 ≤ n < 16777216 → double_of_float (F n) = D n.
Proof. intros Hn. by apply widen_exact. Qed.

Lemma small_product (a k : Z) :
  0 ≤ a < 5120 → 0 ≤ k < 1024 → 0 ≤ a * k ≤ 5236737.
Proof. nia. Qed.

(** [sum += a * k] on small integers *)
Lemma mac_small (n a k : Z) :
  0 ≤ n → n + 5236737 < 9007199254740992 → 0 ≤ a < 5120 → 0 ≤ k < 1024 →
  mac (D n) (F a) k = D (n + a * k).
Proof.
  intros Hn Hb Ha Hk. pose proof (small_product a k Ha Hk).
  unfold mac. change (@float_of_int16 IEEE.scalars k) with (F k).
  rewrite fmul_small, double_of_float_small, dadd_small by lia. done.
Qed.
End SmallIntegers.

(** two loops that agree on the states an invariant allows *)
Lemma fold_left_seqZ_agree {A} (I : Z → A → Prop) (f g : A → Z → A)
    (n : Z) (a : A) :
  0 ≤ n → I 0 a →
  (∀ i s, 0 ≤ i < n → I i s → f s i = g s i ∧ I (i + 1) (f s i)) →
  fold_left f (seqZ 0 n) a = fold_left g (seqZ 0 n) a
  ∧ I n (fold_left f (seqZ 0 n) a).
Proof.
  intros Hn Ha Hstep.
  assert (Hk : ∀ k : nat, Z.of_nat k ≤ n →
    fold_left f (seqZ 0 (Z.of_nat k)) a = fold_left g (seqZ 0 (Z.of_nat k)) a
    ∧ I (Z.of_nat k) (fold_left f (seqZ 0 (Z.of_nat k)) a)).
  { induction k as [|k IH]; intros Hle; [done|].
    destruct IH as [E HI]; [lia|].
    rewrite seqZ_S, !fold_left_app, <- E. simpl.
    destruct (Hstep (Z.of_nat k) _ ltac:(lia) HI) as [E' HI'].
    split; [done|].
    by replace (Z.of_nat (S k)) with (Z.of_nat k + 1) by lia. }
  specialize (Hk (Z.to_nat n)). rewrite Z2Nat.id in Hk by done.
  apply Hk. lia.
Qed.

(** a loop invariant that depends on the iteration *)
Lemma fold_left_seqZ_indexed {A} (I : Z → A → Prop) (f : A → Z → A)
    (n : Z) (a : A) :
  0 ≤ n → I 0 a →
  (∀ i s, 0 ≤ i < n → I i s → I (i + 1) (f s i)) →
  I n (fold_left f (seqZ 0 n) a).
Proof.
  intros Hn Ha Hstep. apply (fold_left_seqZ_agree I f f); [done..|].
  intros i s Hi Hs. split; [done|]. by apply Hstep.
Qed.

Lemma peek4_elem_of {A} (d : A) (t : tensor4 A) (i j k l : Z) :
  readable4 t i j k l → peek4 d t i j k l ∈ t4_data t.
Proof.
  intros (f & Hf & Hr). unfold peek4. rewrite Hf.
  by apply peek_flat_elem_of.
Qed.

Section SmallData.
Import IEEE Statement.

Local Abbreviation P := 5236737.
Local Abbreviation B53 := 9007199254740992.

(** three multiply-accumulate steps of the reference *)
Lemma reference_row3 (n a0 a1 a2 k0 k1 k2 : Z) :
  0 ≤ n → n + 3 * P < B53 →
  0 ≤ a0 < 5120 → 0 ≤ a1 < 5120 → 0 ≤ a2 < 5120 →
  0 ≤ k0 < 1024 → 0 ≤ k1 < 1024 → 0 ≤ k2 < 1024 →
  mac (mac (mac (D n) (F a0) k0) (F a1) k1) (F a2) k2
  = D (n + (a0 * k0 + a1 * k1 + a2 * k2)).
Proof.
  intros Hn Hb Ha0 Ha1 Ha2 Hk0 Hk1 Hk2.
  pose proof (small_product a0 k0 Ha0 Hk0).
  pose proof (small_product a1 k1 Ha1 Hk1).
  pose proof (small_product a2 k2 Ha2 Hk2).
  rewrite !mac_small by lia. f_equal. lia.
Qed.

(** the dot product of a row of three, added to the sum *)
Lemma student_row3 (n a0 a1 a2 k0 k1 k2 : Z) :
  0 ≤ n → n + 3 * P < B53 →
  0 ≤ a0 < 5120 → 0 ≤ a1 < 5120 → 0 ≤ a2 < 5120 →
  0 ≤ k0 < 1024 → 0 ≤ k1 < 1024 → 0 ≤ k2 < 1024 →
  dadd (D n) (double_of_float
    (_mm_cvtss_f32
       (_mm_dp_ps
          (_mm_mul_ps (_mm_set_ps f0 (F a2) (F a1) (F a0))
                      (_mm_set_ps f0 (float_of_int16 k2) (float_of_int16 k1)
                                  (float_of_int16 k0)))
          (_mm_set1_ps f1) 0x71)))
  = D (n + (a0 * k0 + a1 * k1 + a2 * k2)).
Proof.
  intros Hn Hb Ha0 Ha1 Ha2 Hk0 Hk1 Hk2.
  pose proof (small_product a0 k0 Ha0 Hk0).
  pose proof (small_product a1 k1 Ha1 Hk1).
  pose proof (small_product a2 k2 Ha2 Hk2).
  unfold _mm_cvtss_f32, _mm_dp_ps, _mm_mul_ps, _mm_set_ps, _mm_set1_ps.
  cbn [ps0 ps1 ps2 ps3].
  change (Z.testbit 0x71 0) with true. change (Z.testbit 0x71 4) with true.
  change (Z.testbit 0x71 5) with true. change (Z.testbit 0x71 6) with true.
  change (Z.testbit 0x71 7) with false. cbv iota.
  change (@float_of_int16 IEEE.scalars) with F.
  change (@f1 IEEE.scalars) with (F 1). change (@f0 IEEE.scalars) with (F 0).
  rewrite !fmul_small by lia. rewrite !Z.mul_1_r.
  rewrite !fadd_small by lia.
  rewrite double_of_float_small, dadd_small by lia.
  f_equal. lia.
Qed.

(** five multiply-accumulate steps of the reference *)
Lemma reference_row5 (n a0 a1 a2 a3 a4 k0 k1 k2 k3 k4 : Z) :
  0 ≤ n → n + 5 * P < B53 →
  0 ≤ a0 < 5120 → 0 ≤ a1 < 5120 → 0 ≤ a2 < 5120 → 0 ≤ a3 < 5120 →
  0 ≤ a4 < 5120 →
  0 ≤ k0 < 1024 → 0 ≤ k1 < 1024 → 0 ≤ k2 < 1024 → 0 ≤ k3 < 1024 →
  0 ≤ k4 < 1024 →
  mac (mac (mac (mac (mac (D n) (F a0) k0) (F a1) k1) (F a2) k2) (F a3) k3)
      (F a4) k4
  = D (n + (a0 * k0 + a1 * k1 + a2 * k2 + a3 * k3 + a4 * k4)).
Proof.
  intros Hn Hb Ha0 Ha1 Ha2 Ha3 Ha4 Hk0 Hk1 Hk2 Hk3 Hk4.
  pose proof (small_product a0 k0 Ha0 Hk0).
  pose proof (small_product a1 k1 Ha1 Hk1).
  pose proof (small_product a2 k2 Ha2 Hk2).
  pose proof (small_product a3 k3 Ha3 Hk3).
  pose proof (small_product a4 k4 Ha4 Hk4).
  rewrite !mac_small by lia. f_equal. lia.
Qed.

(** the products of a row of five in double precision, added to the sum *)
Lemma student_row5 (n a0 a1 a2 a3 a4 k0 k1 k2 k3 k4 : Z) :
  0 ≤ n → n + 5 * P < B53 →
  0 ≤ a0 < 5120 → 0 ≤ a1 < 5120 → 0 ≤ a2 < 5120 → 0 ≤ a3 < 5120 →
  0 ≤ a4 < 5120 →
  0 ≤ k0 < 1024 → 0 ≤ k1 < 1024 → 0 ≤ k2 < 1024 → 0 ≤ k3 < 1024 →
  0 ≤ k4 < 1024 →
  (let mul1 := _mm_mul_pd
                 (_mm_set_pd (double_of_float (F a4)) (double_of_float (F a3)))
                 (_mm_set_pd (double_of_int16 k4) (double_of_int16 k3)) in
   let mul2 := _mm_mul_pd
                 (_mm_set_pd (double_of_float (F a2)) (double_of_float (F a1)))
                 (_mm_set_pd (double_of_int16 k2) (double_of_int16 k1)) in
   let mul3 := _mm_mul_sd (_mm_set_sd (double_of_float (F a0)))
                          (_mm_set_sd (double_of_int16 k0)) in
   let sum2_1 := _mm_add_pd mul1 mul2 in
   let sum2_2 := _mm_add_sd mul3 (_mm_unpackhi_pd sum2_1 sum2_1) in
   dadd (D n) (_mm_store_sd (_mm_add_sd sum2_1 sum2_2)))
  = D (n + (a0 * k0 + a1 * k1 + a2 * k2 + a3 * k3 + a4 * k4)).
Proof.
  intros Hn Hb Ha0 Ha1 Ha2 Ha3 Ha4 Hk0 Hk1 Hk2 Hk3 Hk4.
  pose proof (small_product a0 k0 Ha0 Hk0).
  pose proof (small_product a1 k1 Ha1 Hk1).
  pose proof (small_product a2 k2 Ha2 Hk2).
  pose proof (small_product a3 k3 Ha3 Hk3).
  pose proof (small_product a4 k4 Ha4 Hk4).
  cbv zeta.
  unfold _mm_store_sd, _mm_add_sd, _mm_add_pd, _mm_unpackhi_pd, _mm_mul_sd,
    _mm_mul_pd, _mm_set_sd, _mm_set_pd.
  cbn [pd0 pd1].
  change (@double_of_int16 IEEE.scalars) with D.
  rewrite !double_of_float_small by lia.
  rewrite !dmul_small by lia.
  rewrite !dadd_small by lia.
  f_equal. lia.
Qed.

Section Rows.
Variables (img : Z → Z → Z → float) (ker : Z → Z → Z → Z → int16).
Variables (kp : Z → int16).
Variables (K m w h c c_index : Z).
Hypothesis small_img :
  ∀ x y, 0 ≤ x < K → 0 ≤ y < K → small_value (img (w + x) (h + y) c).
Hypothesis small_ker :
  ∀ x y, 0 ≤ x < K → 0 ≤ y < K → small_weight (ker m c x y).
Hypothesis pointer :
  ∀ x y, 0 ≤ x < K → 0 ≤ y < K →
    ker m c x y = kp (y + (x * K + c_index)).

(** the image elements and the weights of row [x], column [y] *)
Ltac element x y a Ha E Hk :=
  destruct (small_img x y ltac:(lia) ltac:(lia)) as (a & Ha & E);
  pose proof (small_ker x y ltac:(lia) ltac:(lia)) as Hk;
  rewrite (pointer x y) in Hk by lia;
  unfold small_weight in Hk.

(** One channel of a window of the reference on small data: the sum
    stays an integer. *)
Lemma window_small (n : Z) :
  0 ≤ K → 0 ≤ n → n + K * (K * P) < B53 →
  ∃ n', n ≤ n' ≤ n + K * (K * P)
        ∧ window_val img ker K m w h c (D n) = D n'.
Proof using small_img small_ker.
  intros HK Hn Hb. unfold window_val.
  apply (fold_left_seqZ_indexed
           (λ x s, ∃ n', n ≤ n' ≤ n + x * (K * P) ∧ s = D n')); [done| |].
  - exists n. split; [lia|done].
  - intros x s Hx (n1 & Hn1 & ->).
    assert (Hx1 : (x + 1) * (K * P) ≤ K * (K * P)) by nia.
    assert (Hrow : ∃ n2, n1 ≤ n2 ≤ n1 + K * P
      ∧ fold_left (λ sum y, mac sum (img (w + x) (h + y) c) (ker m c x y))
                  (seqZ 0 K) (D n1) = D n2).
    { apply (fold_left_seqZ_indexed
               (λ y s, ∃ n', n1 ≤ n' ≤ n1 + y * P ∧ s = D n')); [done| |].
      - exists n1. split; [lia|done].
      - intros y s Hy (n2 & Hn2 & ->).
        destruct (small_img x y Hx Hy) as (a & Ha & ->).
        pose proof (small_ker x y Hx Hy) as Hk. unfold small_weight in Hk.
        pose proof (small_product a _ Ha Hk).
        rewrite mac_small by nia.
        eexists. split; [|done]. lia. }
    destruct Hrow as (n2 & Hn2 & ->).
    exists n2. split; [nia|done].
Qed.

(** One channel of an order-3 window: the reference and the vectorised
    loop leave the same sum. *)
Lemma order3_channel (omp : bool) (n : Z) :
  K = 3 → 0 ≤ n → n + K * (K * P) < B53 →
  window_val img ker K m w h c (D n)
  = channel_val img kp omp K w h c c_index (D n)
  ∧ ∃ n', n ≤ n' ≤ n + K * (K * P)
          ∧ window_val img ker K m w h c (D n) = D n'.
Proof using small_img small_ker pointer.
  intros HK Hn Hb. unfold channel_val, window_val, order3_val.
  assert (HK1 : (K =? 1) = false) by by rewrite HK.
  assert (HK3 : (K =? 3) = true) by by rewrite HK.
  rewrite HK1, HK3.
  apply (fold_left_seqZ_agree
           (λ x s, ∃ n', n ≤ n' ≤ n + x * (K * P) ∧ s = D n')).
  - lia.
  - exists n. split; [lia|done].
  - intros x s Hx (n1 & Hn1 & ->).
    element x 0 a0 Ha0 E0 Hk0. element x 1 a1 Ha1 E1 Hk1.
    element x 2 a2 Ha2 E2 Hk2.
    rewrite Z.add_0_r in E0. rewrite Z.add_0_l in Hk0.
    assert (Er :
      fold_left (λ sum y, mac sum (img (w + x) (h + y) c) (ker m c x y))
                (seqZ 0 K) (D n1)
      = mac (mac (mac (D n1) (F a0) (kp (x * K + c_index)))
                 (F a1) (kp (1 + (x * K + c_index))))
            (F a2) (kp (2 + (x * K + c_index)))).
    { rewrite HK at 1. change (seqZ 0 3) with [0; 1; 2]. cbn [fold_left].
      rewrite Z.add_0_r, E0, E1, E2. rewrite !pointer by lia.
      by rewrite Z.add_0_l. }
    rewrite Er. cbv zeta. rewrite E0, E1, E2. clear Er E0 E1 E2.
    revert Hk0 Hk1 Hk2.
    generalize (kp (x * K + c_index)) (kp (1 + (x * K + c_index)))
      (kp (2 + (x * K + c_index))).
    intros k0 k1 k2 Hk0 Hk1 Hk2.
    rewrite reference_row3, student_row3 by lia.
    split; [done|].
    pose proof (small_product a0 k0 Ha0 Hk0).
    pose proof (small_product a1 k1 Ha1 Hk1).
    pose proof (small_product a2 k2 Ha2 Hk2).
    eexists. split; [|done]. lia.
Qed.

(** One channel of an order-5 window. *)
Lemma order5_channel (omp : bool) (n : Z) :
  K = 5 → 0 ≤ n → n + K * (K * P) < B53 →
  window_val img ker K m w h c (D n)
  = channel_val img kp omp K w h c c_index (D n)
  ∧ ∃ n', n ≤ n' ≤ n + K * (K * P)
          ∧ window_val img ker K m w h c (D n) = D n'.
Proof using small_img small_ker pointer.
  intros HK Hn Hb. unfold channel_val, window_val, order5_val.
  assert (HK1 : (K =? 1) = false) by by rewrite HK.
  assert (HK3 : (K =? 3) = false) by by rewrite HK.
  assert (HK5 : (K =? 5) = true) by by rewrite HK.
  rewrite HK1, HK3, HK5.
  apply (fold_left_seqZ_agree
           (λ x s, ∃ n', n ≤ n' ≤ n + x * (K * P) ∧ s = D n')).
  - lia.
  - exists n. split; [lia|done].
  - intros x s Hx (n1 & Hn1 & ->).
    element x 0 a0 Ha0 E0 Hk0. element x 1 a1 Ha1 E1 Hk1.
    element x 2 a2 Ha2 E2 Hk2. element x 3 a3 Ha3 E3 Hk3.
    element x 4 a4 Ha4 E4 Hk4.
    rewrite Z.add_0_r in E0. rewrite Z.add_0_l in Hk0.
    assert (Er :
      fold_left (λ sum y, mac sum (img (w + x) (h + y) c) (ker m c x y))
                (seqZ 0 K) (D n1)
      = mac (mac (mac (mac (mac (D n1) (F a0) (kp (x * K + c_index)))
                           (F a1) (kp (1 + (x * K + c_index))))
                      (F a2) (kp (2 + (x * K + c_index))))
                 (F a3) (kp (3 + (x * K + c_index))))
            (F a4) (kp (4 + (x * K + c_index)))).
    { rewrite HK at 1. change (seqZ 0 5) with [0; 1; 2; 3; 4].
      cbn [fold_left].
      rewrite Z.add_0_r, E0, E1, E2, E3, E4. rewrite !pointer by lia.
      by rewrite Z.add_0_l. }
    rewrite Er. rewrite E0, E1, E2, E3, E4. clear Er E0 E1 E2 E3 E4.
    revert Hk0 Hk1 Hk2 Hk3 Hk4.
    generalize (kp (x * K + c_index)) (kp (1 + (x * K + c_index)))
      (kp (2 + (x * K + c_index))) (kp (3 + (x * K + c_index)))
      (kp (4 + (x * K + c_index))).
    intros k0 k1 k2 k3 k4 Hk0 Hk1 Hk2 Hk3 Hk4.
    rewrite reference_row5, student_row5 by lia.
    split; [done|].
    pose proof (small_product a0 k0 Ha0 Hk0).
    pose proof (small_product a1 k1 Ha1 Hk1).
    pose proof (small_product a2 k2 Ha2 Hk2).
    pose proof (small_product a3 k3 Ha3 Hk3).
    pose proof (small_product a4 k4 Ha4 Hk4).
    eexists. split; [|done]. lia.
Qed.
End Rows.

(** On small data the two convolutions compute the same value for a cell
    of an order-3 or order-5 convolution. *)
Lemma small_same_values (omp : bool)
    (image : tensor3 float) (kernels : tensor4 int16) (output : shape3)
    (W H C M K : Z) (kd : int16) (m w h : Z) :
  valid_input image kernels output W H C M K →
  K = 3 ∨ K = 5 →
  small_image image → small_kernels kernels → small_sums C K →
  0 ≤ m < M → 0 ≤ w < W → 0 ≤ h < H →
  multichannel_val (peek3 f0 image) (peek4 kd kernels) C K m w h
  = student_val (peek3 f0 image) (peek_flat kd (t4_data kernels))
      omp C K m w h.
Proof.
  intros [_ HW HH HC HM His Hid Hks Hkd _] HK Hi Hk Hs Hm Hw Hh.
  unfold small_image, small_kernels in *.
  rewrite list.Forall_forall in Hi. rewrite list.Forall_forall in Hk.
  unfold multichannel_val, student_val. f_equal.
  apply (fold_left_seqZ_agree
           (λ c s, ∃ n, 0 ≤ n ≤ c * (K * (K * P)) ∧ s = D n)).
  - lia.
  - exists 0. split; [lia|done].
  - intros c s Hc (n & Hn & ->).
    assert (Hb : n + K * (K * P) < B53).
    { unfold small_sums in Hs. destruct HK as [-> | ->]; lia. }
    assert (Hch :
      window_val (peek3 f0 image) (peek4 kd kernels) K m w h c (D n)
      = channel_val (peek3 f0 image) (peek_flat kd (t4_data kernels))
          omp K w h c (c * (K * K) + m * (K * K * C)) (D n)
      ∧ ∃ n', n ≤ n' ≤ n + K * (K * P)
              ∧ window_val (peek3 f0 image) (peek4 kd kernels) K m w h c
                  (D n) = D n').
    { assert (Hsi : ∀ x y, 0 ≤ x < K → 0 ≤ y < K →
                small_value (peek3 f0 image (w + x) (h + y) c)).
      { intros x y Hx Hy. apply Hi, peek3_elem_of.
        apply (image_readable image W H C K w h c); [done|done|lia..]. }
      assert (Hsk : ∀ x y, 0 ≤ x < K → 0 ≤ y < K →
                small_weight (peek4 kd kernels m c x y)).
      { intros x y Hx Hy. apply Hk, peek4_elem_of.
        apply (kernels_readable kernels C M K); [done|done|lia..]. }
      assert (Hp : ∀ x y, 0 ≤ x < K → 0 ≤ y < K →
                peek4 kd kernels m c x y
                = peek_flat kd (t4_data kernels)
                    (y + (x * K + (c * (K * K) + m * (K * K * C))))).
      { intros x y Hx Hy.
        by apply (peek4_kernel_pointer kernels C M K). }
      destruct HK as [HK|HK];
        [apply order3_channel|apply order5_channel]; first [done|lia]. }
    destruct Hch as (E & n' & Hn' & E'). split; [done|].
    exists n'. split; [|done].
    destruct HK as [-> | ->]; lia.
Qed.

(** The value the reference computes for a cell on small data is the
    float of an integer below 2^53. *)
Lemma multichannel_val_small
    (image : tensor3 float) (kernels : tensor4 int16) (output : shape3)
    (W H C M K : Z) (kd : int16) (m w h : Z) :
  valid_input image kernels output W H C M K →
  small_image image → small_kernels kernels → small_sums C K →
  0 ≤ m < M → 0 ≤ w < W → 0 ≤ h < H →
  ∃ n, 0 ≤ n < B53
       ∧ multichannel_val (peek3 f0 image) (peek4 kd kernels) C K m w h
         = float_of_double (D n).
Proof.
  intros [HK HW HH HC HM His Hid Hks Hkd _] Hi Hk Hs Hm Hw Hh.
  unfold small_image, small_kernels, small_sums in *.
  rewrite list.Forall_forall in Hi. rewrite list.Forall_forall in Hk.
  assert (HK0 : 0 ≤ K) by lia.
  unfold multichannel_val.
  assert (Hsum : ∃ n, 0 ≤ n ≤ C * (K * (K * P))
    ∧ fold_left
        (λ sum c, window_val (peek3 f0 image) (peek4 kd kernels) K m w h c
                    sum) (seqZ 0 C) d0 = D n).
  { apply (fold_left_seqZ_indexed
             (λ c s, ∃ n, 0 ≤ n ≤ c * (K * (K * P)) ∧ s = D n)); [lia| |].
    - exists 0. split; [lia|done].
    - intros c s Hc (n & Hn & ->).
      destruct (window_small (peek3 f0 image) (peek4 kd kernels) K m w h c)
        with (n := n) as (n' & Hn' & E).
      + intros x y Hx Hy. apply Hi, peek3_elem_of.
        apply (image_readable image W H C K w h c); [done|done|lia..].
      + intros x y Hx Hy. apply Hk, peek4_elem_of.
        apply (kernels_readable kernels C M K); [done|done|lia..].
      + done.
      + lia.
      + nia.
      + exists n'. split; [nia|done]. }
  destruct Hsum as (n & Hn & ->). exists n. split; [nia|done].
Qed.

(** On small data the reference leaves finite values. *)
Lemma small_reference_finite
    (image : tensor3 float) (kernels : tensor4 int16) (output : shape3)
    (W H C M K : Z) (out0 control : list float) :
  valid_input image kernels output W H C M K →
  small_data image kernels C K →
  Z.of_nat (length out0) = M * W * H →
  run (multichannel_conv image kernels output W H C M K) out0 = Ok control →
  finite_output control.
Proof.
  intros Hv (Hi & Hk & Hs) Hl Href.
  destruct (valid_input_weight _ _ _ _ _ _ _ _ Hv) as [kd _].
  pose proof Hv as [HK HW HH HC HM His Hid Hks Hkd Ho].
  destruct (multichannel_conv_fills image kernels W H C M K kd
              His Hid Hks Hkd HW HH HC HM out0) as (l & E & _);
    [lia|done|].
  rewrite Ho in Href. unfold run in Href. rewrite E in Href.
  injection Href as <-.
  apply Forall_tab3. intros m w h Hm Hw Hh.
  destruct (multichannel_val_small image kernels output W H C M K kd m w h)
    as (n & Hn & E'); [done..|].
  transitivity (is_finite (float_of_double (D n)));
    [exact (f_equal is_finite E')|by apply narrow_finite].
Qed.
End SmallData.

Section Tolerance.
Import IEEE Scenario Statement.

(** *** C1 *)

(** C1, as stated, fails.  Order 3: the row (2^24, 1, 1) against weights
    (1, 1, 1) is added in single precision by the dot product and gives
    2^24, the reference gives 2^24 + 2.  Order 5: (2^24 - 1) * 3 + 1 is
    formed exactly in double precision and stored as 50331648, the reference
    rounds the product to float first and stores 50331644. *)
Lemma sum_abs_diff_exceeds_epsilon :
  (valid_input Scenario.wide_image Scenario.ones_kernels (Shape3 1 1 1)
     1 1 1 1 3
   ∧ ¬ within_epsilon true Scenario.wide_image Scenario.ones_kernels
         (Shape3 1 1 1) 1 1 1 1 3 [F 0] [F 0])
  ∧ (valid_input odd_image odd_kernels (Shape3 1 1 1) 1 1 1 1 5
     ∧ ¬ within_epsilon true odd_image odd_kernels
           (Shape3 1 1 1) 1 1 1 1 5 [F 0] [F 0]).
Proof.
  split; (split;
    [constructor; simpl; first [lia | reflexivity | auto]|]);
    intros (control & candidate & S & l & E1 & E2 & E3);
    vm_compute in E1; vm_compute in E2;
    injection E1 as <-; injection E2 as <-;
    vm_compute in E3; discriminate.
Qed.

(** The checker on two copies of a block of finite values. *)
Lemma check_result_same (output : shape3) (M W H : Z) (blk : list float) :
  output = Shape3 M W H →
  Z.of_nat (length blk) = M * W * H →
  Forall (λ v, is_finite v = true) blk →
  ∃ l, check_result (Tensor3 output blk) (Tensor3 output blk) M W H tt
       = Ok (COMMENT (S754_zero false), tt, l).
Proof.
  intros -> Hlen Hfin.
  assert (Hr : ∀ i j k, 0 ≤ i < M → 0 ≤ j < W → 0 ≤ k < H →
            readable3 (Tensor3 (Shape3 M W H) blk) i j k).
  { intros i j k Hi Hj Hk. by eapply readable3_in. }
  assert (Hz : ∀ i j k, 0 ≤ i < M → 0 ≤ j < W → 0 ≤ k < H →
            abs_diff (Tensor3 (Shape3 M W H) blk)
                     (Tensor3 (Shape3 M W H) blk) i j k = S754_zero false).
  { intros i j k Hi Hj Hk. unfold abs_diff.
    rewrite fsub_diag; [done|].
    pose proof (peek3_elem_of f0 _ i j k (Hr i j k Hi Hj Hk)) as Hin.
    rewrite list.Forall_forall in Hfin. by apply Hfin. }
  destruct (check_result_evals (Tensor3 (Shape3 M W H) blk)
              (Tensor3 (Shape3 M W H) blk) M W H) with (s := tt)
    as (l & E & _).
  { intros i j k Hi Hj Hk. split; [|split]; [by apply Hr..|].
    by rewrite Hz. }
  exists l. rewrite E. do 2 f_equal.
  assert (Hs : sum_abs_diff (Tensor3 (Shape3 M W H) blk)
                 (Tensor3 (Shape3 M W H) blk) M W H = S754_zero false).
  { unfold sum_abs_diff.
    apply fold_left_seqZ_fixed. intros i Hi.
    apply fold_left_seqZ_fixed. intros j Hj.
    apply fold_left_seqZ_fixed. intros k Hk.
    by rewrite Hz. }
  by rewrite Hs.
Qed.

(** The data [main] generates are small when random() returns non-negative
    values, as it does. *)
Lemma generated_image_small (random : nat → Z) (dim0 dim1 dim2 : Z)
    (image : tensor3 float) :
  (∀ n, 0 ≤ random n) →
  gen_random_3d_matrix_float random dim0 dim1 dim2 = Ok image →
  small_image image.
Proof.
  intros Hr. unfold gen_random_3d_matrix_float, gen_random_4d_matrix_float,
    new_empty_4d_matrix.
  destruct (_ && _ && _); [|done]. simpl. intros [= <-].
  unfold small_image, block. simpl. apply Forall_fmap, list.Forall_forall.
  intros n _. simpl.
  exists (Z.rem (random n) 4096 + 1024). split; [|done].
  pose proof (Z.rem_bound_pos (random n) 4096 (Hr n)). lia.
Qed.

Lemma generated_kernels_small (random : nat → Z) (dim0 dim1 dim2 dim3 : Z)
    (kernels : tensor4 int16) :
  (∀ n, 0 ≤ random n) →
  gen_random_4d_matrix_int16 random dim0 dim1 dim2 dim3 = Ok kernels →
  small_kernels kernels.
Proof.
  intros Hr. unfold gen_random_4d_matrix_int16, new_empty_4d_matrix.
  destruct (_ && _ && _); [|done]. intros [= <-].
  unfold small_kernels, block. simpl. apply Forall_fmap, list.Forall_forall.
  intros n _. simpl. unfold small_weight.
  pose proof (Z.rem_bound_pos (random n) 1024 (Hr n)).
  change (Z.shiftl 1 10) with 1024.
  rewrite Z.mod_small by lia. lia.
Qed.

(** C1, amended.  Without OpenMP, or with a single kernel, and with sizes
    within int: for every valid input with kernel_order = 7 for which
    the output of [multichannel_conv] holds finite values only, and for
    every valid input with kernel_order in {3, 5, 7} whose data are in the
    range [main] generates (image elements that are integers in [0, 5120),
    weights in [0, 1024), and nchannels * kernel_order^2 * 5119 * 1023
    below 2^53), the sum of the absolute differences between the outputs
    of [student_conv] and [multichannel_conv] is 0, hence at most
    0.0625. *)
Theorem agreeing_input_within_epsilon (omp : bool) (image : tensor3 float)
    (kernels : tensor4 int16) (output : shape3)
    (width height nchannels nkernels kernel_order : Z)
    (out0 out0' control : list float) :
  omp = false ∨ nkernels = 1 →
  int_sizes width height nchannels nkernels kernel_order →
  valid_input image kernels output width height nchannels nkernels
    kernel_order →
  Z.of_nat (length out0) = nkernels * width * height →
  Z.of_nat (length out0') = nkernels * width * height →
  run (multichannel_conv image kernels output
         width height nchannels nkernels kernel_order) out0 = Ok control →
  (kernel_order = 7 ∧ finite_output control)
  ∨ ((kernel_order = 3 ∨ kernel_order = 5 ∨ kernel_order = 7)
     ∧ small_data image kernels nchannels kernel_order) →
  ∃ candidate l,
    run (student_conv omp image kernels output
           width height nchannels nkernels kernel_order) out0' = Ok candidate
    ∧ check_result (Tensor3 output candidate) (Tensor3 output control)
        nkernels width height tt
      = Ok (COMMENT (S754_zero false), tt, l)
    ∧ within_epsilon omp image kernels output
        width height nchannels nkernels kernel_order out0 out0'.
Proof.
  intros Hrace _ Hv Hl Hl' Href Ha.
  assert (Hfin : finite_output control).
  { destruct Ha as [[_ Hfin]|[_ Hs]]; [done|].
    by apply (small_reference_finite image kernels output width height
                nchannels nkernels kernel_order out0). }
  destruct (same_values_same_block image kernels output width height
              nchannels nkernels kernel_order Hv omp out0 out0')
    as (out & E & E' & Hlen); [done| |done|done|].
  { intros kd m w h Hm Hw Hh.
    destruct Ha as [[-> _]|[[HK|[HK| ->]] (Hi & Hk & Hs)]].
    - by eapply order7_same_values.
    - eapply small_same_values; eauto.
    - eapply small_same_values; eauto.
    - by eapply order7_same_values. }
  rewrite Href in E. injection E as <-.
  destruct (check_result_same output nkernels width height control)
    as [l Hc]; [by destruct Hv|lia|done|].
  exists control, l. split; [done|]. split; [done|].
  by exists control, control, (S754_zero false), l.
Qed.

Lemma agreeing_input_within_epsilon_witness :
  ∃ candidate l,
    run (student_conv true Scenario.ones_image Scenario.ones_kernels
           (Shape3 1 1 1) 1 1 1 1 3) [F 0] = Ok candidate
    ∧ check_result (Tensor3 (Shape3 1 1 1) candidate)
        (Tensor3 (Shape3 1 1 1) [F 9]) 1 1 1 tt
      = Ok (COMMENT (S754_zero false), tt, l)
    ∧ within_epsilon true Scenario.ones_image Scenario.ones_kernels
        (Shape3 1 1 1) 1 1 1 1 3 [F 0] [F 0].
Proof.
  apply (agreeing_input_within_epsilon true Scenario.ones_image
           Scenario.ones_kernels (Shape3 1 1 1) 1 1 1 1 3
           [F 0] [F 0] [F 9]);
    [by right|unfold int_sizes, INT_MAX; lia
    |constructor; simpl; first [lia | reflexivity | auto]
    |reflexivity|reflexivity|vm_compute; reflexivity
    |right; split; [by left|]; split; [|split];
       [repeat (constructor; [exists 1; split; [lia|reflexivity]|]);
        constructor
       |repeat (constructor; [unfold small_weight; lia|]); constructor
       |unfold small_sums; lia]].
Defined.
End Tolerance.

(** *** Elements of the block by their indices *)

Lemma lookup_concat_fmap {A} (f : Z → list A) (k : nat) (n : nat) :
  ∀ (a : Z) (d j : nat),
    (∀ x, a ≤ x < a + Z.of_nat n → length (f x) = k) →
    (d < n)%nat → (j < k)%nat →
    concat (f <$> seqZ a (Z.of_nat n)) !! (d * k + j)%nat
    = f (a + Z.of_nat d) !! j.
Proof.
  induction n as [|n IH]; intros a d j Hk Hd Hj; [lia|].
  rewrite seqZ_cons by lia.
  replace (Z.pred (Z.of_nat (S n))) with (Z.of_nat n) by lia.
  rewrite fmap_cons. simpl concat.
  destruct d as [|d].
  - rewrite lookup_app_l by (rewrite Hk; lia).
    simpl. by rewrite Z.add_0_r.
  - rewrite lookup_app_r by (rewrite Hk; lia).
    rewrite Hk by lia.
    replace (S d * k + j - k)%nat with (d * k + j)%nat by lia.
    rewrite IH; [|intros; apply Hk; lia|lia|lia].
    f_equal. f_equal. lia.
Qed.

Lemma lookup_tab3 {A} (M W H : Z) (val : Z → Z → Z → A) (m w h : Z) :
  0 ≤ m < M → 0 ≤ w < W → 0 ≤ h < H →
  tab3 M W H val !! Z.to_nat ((m * W + w) * H + h) = Some (val m w h).
Proof.
  intros Hm Hw Hh. unfold tab3.
  replace (Z.to_nat ((m * W + w) * H + h))
    with (Z.to_nat m * (Z.to_nat W * Z.to_nat H)
          + (Z.to_nat w * Z.to_nat H + Z.to_nat h))%nat by nia.
  rewrite <- (Z2Nat.id M) at 1 by lia.
  rewrite (lookup_concat_fmap _ (Z.to_nat W * Z.to_nat H));
    [|intros; apply length_tab_slab|lia|nia].
  rewrite <- (Z2Nat.id W) at 1 by lia.
  rewrite (lookup_concat_fmap _ (Z.to_nat H));
    [|intros; apply length_tab_row|lia|lia].
  rewrite list_lookup_fmap, lookup_seqZ_lt by lia.
  simpl. do 2 f_equal; lia.
Qed.

Section Channels.
Import IEEE Scenario Statement.

(** *** C8 *)

Ltac cases_below x :=
  match goal with
  | Hx : 0 ≤ x < 1 |- _ => assert (x = 0) as -> by lia
  | Hx : 0 ≤ x < 2 |- _ =>
      let E := fresh in
      assert (E : x = 0 ∨ x = 1) by lia; destruct E as [-> | ->]
  | Hx : 0 ≤ x < 3 |- _ =>
      let E := fresh in
      assert (E : x = 0 ∨ x = 1 ∨ x = 2) by lia;
      destruct E as [-> | [-> | ->]]
  end.

(** C8, as stated, fails: 2^60 - 2^60 + 1 is 1.0 when added in the order
    of the channels, while 2^60 + 1 - 2^60, the order after the exchange of
    channels 1 and 2, is 0.0 in double precision. *)
Lemma channel_order_changes_output :
  valid_input cancelling_image cancelling_kernels (Shape3 1 1 1) 1 1 3 1 1
  ∧ valid_input exchanged_image exchanged_kernels (Shape3 1 1 1) 1 1 3 1 1
  ∧ channel_permutation 3 exchange
  ∧ channels_permuted exchange cancelling_image exchanged_image
      cancelling_kernels exchanged_kernels
  ∧ run (multichannel_conv cancelling_image cancelling_kernels
           (Shape3 1 1 1) 1 1 3 1 1) [F 0] = Ok [F 1]
  ∧ run (multichannel_conv exchanged_image exchanged_kernels
           (Shape3 1 1 1) 1 1 3 1 1) [F 0] = Ok [S754_zero false]
  ∧ run (multichannel_conv exchanged_image exchanged_kernels
           (Shape3 1 1 1) 1 1 3 1 1) [F 0]
    ≠ run (multichannel_conv cancelling_image cancelling_kernels
             (Shape3 1 1 1) 1 1 3 1 1) [F 0].
Proof.
  split; [constructor; simpl; first [lia | reflexivity | auto]|].
  split; [constructor; simpl; first [lia | reflexivity | auto]|].
  split.
  { split.
    - intros c Hc. cases_below c; vm_compute; split; congruence.
    - intros c c' Hc Hc'. cases_below c; cases_below c'; vm_compute;
        congruence. }
  split.
  { split; [reflexivity|]. split; [reflexivity|]. simpl. split.
    - intros i j c Hi Hj Hc.
      cases_below i; cases_below j; cases_below c; vm_compute; reflexivity.
    - intros m c x y Hm Hc Hx Hy.
      cases_below m; cases_below c; cases_below x; cases_below y;
        vm_compute; reflexivity. }
  split; [vm_compute; reflexivity|].
  split; [vm_compute; reflexivity|].
  vm_compute. discriminate.
Qed.
End Channels.

(** C8, amended.  For every valid input each output cell of
    [multichannel_conv] depends only on image[w+x][h+y][c] and
    kernel[m][c][x][y] for indices inside the declared window: two inputs
    that agree on the window of a cell give the same cell.  When the
    channels of the image and of the kernels are permuted by the same [p]
    inside that window, the cell is the sum of the same products
    accumulated with the channels taken in the order p(0), p(1), ...,
    p(nchannels-1); this need not round to the value of the unpermuted
    order. *)
Theorem multichannel_conv_cell_window {scalars : Scalars} (p : Z → Z)
    (image image' : tensor3 float) (kernels kernels' : tensor4 int16)
    (output : shape3) (width height nchannels nkernels kernel_order : Z)
    (kd : int16) (out0 out0' : list float) (m w h : Z) :
  valid_input image kernels output width height nchannels nkernels
              kernel_order →
  valid_input image' kernels' output width height nchannels nkernels
              kernel_order →
  Z.of_nat (length out0) = nkernels * width * height →
  Z.of_nat (length out0') = nkernels * width * height →
  0 ≤ m < nkernels → 0 ≤ w < width → 0 ≤ h < height →
  (∀ c x y, 0 ≤ c < nchannels → 0 ≤ x < kernel_order → 0 ≤ y < kernel_order →
     peek3 f0 image' (w + x) (h + y) c = peek3 f0 image (w + x) (h + y) (p c)
     ∧ peek4 kd kernels' m c x y = peek4 kd kernels m (p c) x y) →
  ∃ out out',
    run (multichannel_conv image kernels output
           width height nchannels nkernels kernel_order) out0 = Ok out
    ∧ run (multichannel_conv image' kernels' output
             width height nchannels nkernels kernel_order) out0' = Ok out'
    ∧ out' !! Z.to_nat ((m * width + w) * height + h)
      = Some (float_of_double
                (fold_left (λ sum c,
                   window_val (peek3 f0 image) (peek4 kd kernels)
                              kernel_order m w h (p c) sum)
                   (seqZ 0 nchannels) d0))
    ∧ ((∀ c, 0 ≤ c < nchannels → p c = c) →
       out' !! Z.to_nat ((m * width + w) * height + h)
       = out !! Z.to_nat ((m * width + w) * height + h)).
Proof.
  intros Hv Hv' Hl Hl' Hm Hw Hh Hwin.
  destruct Hv as [HK HW HH HC HM His Hid Hks Hkd ->].
  destruct Hv' as [_ _ _ _ _ His' Hid' Hks' Hkd' _].
  destruct (multichannel_conv_fills image kernels width height nchannels
              nkernels kernel_order kd His Hid Hks Hkd HW HH HC HM out0)
    as (l & E & _); [lia|done|].
  destruct (multichannel_conv_fills image' kernels' width height nchannels
              nkernels kernel_order kd His' Hid' Hks' Hkd' HW HH HC HM out0')
    as (l' & E' & _); [lia|done|].
  eexists _, _. unfold run. rewrite E, E'.
  split; [reflexivity|]. split; [reflexivity|].
  rewrite !lookup_tab3 by done.
  assert (Ep : multichannel_val (peek3 f0 image') (peek4 kd kernels')
                 nchannels kernel_order m w h
               = float_of_double
                   (fold_left (λ sum c,
                      window_val (peek3 f0 image) (peek4 kd kernels)
                                 kernel_order m w h (p c) sum)
                      (seqZ 0 nchannels) d0)).
  { unfold multichannel_val. f_equal.
    apply fold_left_seqZ_ext. intros c sum Hc. unfold window_val.
    apply fold_left_seqZ_ext. intros x a Hx.
    apply fold_left_seqZ_ext. intros y b Hy.
    destruct (Hwin c x y Hc Hx Hy) as [-> ->]. reflexivity. }
  split; [by rewrite Ep|].
  intros Hid_p. rewrite Ep. f_equal. unfold multichannel_val. f_equal.
  apply fold_left_seqZ_ext. intros c sum Hc. by rewrite Hid_p.
Qed.

Lemma multichannel_conv_cell_window_witness :
  ∃ out out',
    run (multichannel_conv Scenario.cancelling_image
           Scenario.cancelling_kernels (Shape3 1 1 1) 1 1 3 1 1)
        [IEEE.F 0] = Ok out
    ∧ run (multichannel_conv Scenario.exchanged_image
             Scenario.exchanged_kernels (Shape3 1 1 1) 1 1 3 1 1)
          [IEEE.F 0] = Ok out'
    ∧ out' !! Z.to_nat ((0 * 1 + 0) * 1 + 0)
      = Some (float_of_double
                (fold_left (λ sum c,
                   window_val (peek3 f0 Scenario.cancelling_image)
                     (peek4 0 Scenario.cancelling_kernels) 1 0 0 0
                     (Scenario.exchange c) sum)
                   (seqZ 0 3) d0))
    ∧ ((∀ c, 0 ≤ c < 3 → Scenario.exchange c = c) →
       out' !! Z.to_nat ((0 * 1 + 0) * 1 + 0)
       = out !! Z.to_nat ((0 * 1 + 0) * 1 + 0)).
Proof.
  apply (multichannel_conv_cell_window (scalars := IEEE.scalars)
           Scenario.exchange Scenario.cancelling_image
           Scenario.exchanged_image Scenario.cancelling_kernels
           Scenario.exchanged_kernels (Shape3 1 1 1) 1 1 3 1 1 0
           [IEEE.F 0] [IEEE.F 0] 0 0 0);
    [constructor; simpl; first [lia | reflexivity | auto]
    |constructor; simpl; first [lia | reflexivity | auto]
    |reflexivity|reflexivity|lia|lia|lia|].
  intros c x y Hc Hx Hy.
  assert (x = 0) as -> by lia. assert (y = 0) as -> by lia.
  assert (Ec : c = 0 ∨ c = 1 ∨ c = 2) by lia.
  destruct Ec as [-> | [-> | ->]]; split; vm_compute; reflexivity.
Defined.

Lemma fold_left_seqZ_invariant {A} (P : A → Prop) (f : A → Z → A) (n : Z)
    (a : A) :
  P a → (∀ i a, 0 ≤ i < n → P a → P (f a i)) →
  P (fold_left f (seqZ 0 n) a).
Proof.
  intros Ha Hf.
  assert (Hl : Forall (λ i, ∀ a, P a → P (f a i)) (seqZ 0 n)).
  { apply Forall_seqZ. intros i Hi b. apply Hf. lia. }
  revert a Ha. induction Hl as [|i l Hi Hl IH]; intros a Ha; [done|].
  simpl. apply IH. by apply Hi.
Qed.

Section Precision.
Import Sym Statement.

(** *** C4 *)

Lemma double_sum_test (e : expr) : double_sum e → double_sumb e = true.
Proof.
  induction 1 as [|e He|a b Ha IHa Hb IHb]; [done| |].
  - destruct He as [a k [i ->] [j ->]|a k [i ->] [j ->]]; done.
  - simpl. by rewrite IHa, IHb.
Qed.

Lemma double_accumulated_test (e : expr) :
  double_accumulated e → double_accumulatedb e = true.
Proof. intros [s Hs]. simpl. by apply double_sum_test. Qed.

(** C4, as stated, fails for kernel_order = 3: the three products of a
    kernel row are added in single precision by the dot product before the
    row total reaches the double sum. *)
Lemma order3_adds_rows_in_single_precision :
  ¬ precision_policy true 1 1 1 1 3 [Int 0]
  ∧ ¬ precision_policy false 1 1 1 1 3 [Int 0].
Proof.
  split; intros (out & E & _ & Hd); vm_compute in E; injection E as <-;
    apply Forall_inv in Hd; apply double_accumulated_test in Hd;
    vm_compute in Hd; discriminate.
Qed.

Section Leaves.
Variables (W H C M K : Z).
Hypothesis HW : 0 < W.
Hypothesis HH : 0 < H.
Hypothesis HC : 0 < C.
Hypothesis HM : 0 < M.
Hypothesis HK : 0 < K.

Local Abbreviation im := (image (Shape3 (W + K) (H + K) C)).
Local Abbreviation ke := (kernels (Shape4 M C K K)).

Lemma image_data_length :
  Z.of_nat (length (t3_data im)) = size3 (t3_shape im).
Proof using HW HH HC HK.
  simpl. unfold elements. rewrite length_fmap, length_seqZ.
  unfold size3. simpl. nia.
Qed.

Lemma kernels_data_length :
  Z.of_nat (length (t4_data ke)) = size4 (t4_shape ke).
Proof using HM HC HK.
  simpl. unfold elements. rewrite length_fmap, length_seqZ.
  unfold size4. simpl. nia.
Qed.

Lemma image_leaf (d : expr) (w h c i j : Z) :
  0 ≤ w < W → 0 ≤ h < H → 0 ≤ c < C →
  w ≤ i < w + K → h ≤ j < h + K →
  is_elem Image (peek3 d im i j c).
Proof using HW HH HC HK.
  intros Hw Hh Hc Hi Hj.
  assert (Hr : readable3 im i j c).
  { eapply image_readable; [reflexivity|apply image_data_length|done..]. }
  apply (peek3_elem_of d) in Hr. simpl in Hr. unfold elements in Hr.
  apply list_elem_of_fmap in Hr as (o & -> & _). by exists o.
Qed.

Lemma kernel_leaf (d : expr) (m c i : Z) :
  0 ≤ m < M → 0 ≤ c < C →
  c * (K * K) + m * (K * K * C) ≤ i < c * (K * K) + m * (K * K * C) + K * K →
  is_elem Kernels (peek_flat d (t4_data ke) i).
Proof using HM HC HK.
  intros Hm Hc Hi.
  assert (Hr : readable_flat (t4_data ke) i).
  { eapply kernel_pointer_readable;
      [reflexivity|apply kernels_data_length|done..]. }
  apply (peek_flat_elem_of d) in Hr. simpl in Hr. unfold elements in Hr.
  apply list_elem_of_fmap in Hr as (o & Ho & _). exists o. exact Ho.
Qed.

(** One channel of one cell keeps a double sum a double sum when the
    order is 1, 5 or 7. *)
Lemma channel_val_double_sum (omp : bool) (d : expr) (m w h c : Z)
    (sum : expr) :
  K = 1 ∨ K = 5 ∨ K = 7 →
  0 ≤ m < M → 0 ≤ w < W → 0 ≤ h < H → 0 ≤ c < C →
  double_sum sum →
  double_sum (channel_val (peek3 f0 im) (peek_flat d (t4_data ke)) omp K
                w h c (c * (K * K) + m * (K * K * C)) sum).
Proof using HW HH HC HM HK.
  intros HK' Hm Hw Hh Hc Hsum. unfold channel_val.
  assert (Hi : ∀ x y, 0 ≤ x < K → 0 ≤ y < K →
            is_elem Image (peek3 f0 im (w + x) (h + y) c)).
  { intros x y Hx Hy. apply (image_leaf (Lit F32 0 1) w h); lia. }
  assert (Hk : ∀ x y, 0 ≤ x < K → 0 ≤ y < K →
            is_elem Kernels
              (peek_flat d (t4_data ke)
                 (y + (x * K + (c * (K * K) + m * (K * K * C)))))).
  { intros x y Hx Hy. apply (kernel_leaf d m c); [done..|]. nia. }
  assert (Hi0 : ∀ x, 0 ≤ x < K →
            is_elem Image (peek3 f0 im (w + x) h c)).
  { intros x Hx. rewrite <- (Z.add_0_r h). apply Hi; lia. }
  assert (Hk0 : ∀ x, 0 ≤ x < K →
            is_elem Kernels
              (peek_flat d (t4_data ke)
                 (x * K + (c * (K * K) + m * (K * K * C))))).
  { intros x Hx.
    rewrite <- (Z.add_0_l (x * K + _)). apply Hk; lia. }
  destruct HK' as [HK1|[HK5|HK7]].
  - destruct (Z.eqb_spec K 1); [|lia].
    unfold order1_val. destruct omp; [done|].
    apply fold_left_seqZ_invariant; [done|]. intros x a Hx Ha.
    apply double_sum_add; [done|]. apply double_sum_product.
    apply product_float; [by apply Hi0 | by apply Hk0].
  - destruct (Z.eqb_spec K 1); [lia|]. destruct (Z.eqb_spec K 3); [lia|].
    destruct (Z.eqb_spec K 5); [|lia].
    unfold order5_val.
    apply fold_left_seqZ_invariant; [done|]. intros x a Hx Ha.
    cbv zeta. simpl.
    repeat first
      [ apply double_sum_add
      | apply double_sum_product; apply product_double;
        first [ apply Hi0; lia | apply Hk0; lia
              | apply Hi; lia | apply Hk; lia ]
      | assumption ].
  - destruct (Z.eqb_spec K 1); [lia|]. destruct (Z.eqb_spec K 3); [lia|].
    destruct (Z.eqb_spec K 5); [lia|]. destruct (Z.eqb_spec K 7); [|lia].
    unfold order7_val.
    apply fold_left_seqZ_invariant; [done|]. intros x a Hx Ha.
    cbv zeta. unfold mac. simpl.
    repeat first
      [ apply double_sum_add
      | apply double_sum_product; apply product_float;
        first [ apply Hi0; lia | apply Hk0; lia
              | apply Hi; lia | apply Hk; lia ]
      | assumption ].
Qed.
End Leaves.

(** C4, amended.  In [student_conv], run without OpenMP or on a single
    kernel, for every kernel_order in {1,5,7},
    each product of an image element and a kernel weight is formed after
    promoting the 16-bit integer operand to floating point, the running
    per-cell sum is kept in double precision throughout the entire (c,x,y)
    reduction, and the sum is narrowed to 32-bit float only once, when
    stored into the output cell. *)
Theorem student_conv_double_accumulated (omp : bool)
    (width height nchannels nkernels kernel_order : Z) (out0 : list expr) :
  omp = false ∨ nkernels = 1 →
  kernel_order = 1 ∨ kernel_order = 5 ∨ kernel_order = 7 →
  0 < width → 0 < height → 0 < nchannels → 0 < nkernels →
  Z.of_nat (length out0) = nkernels * width * height →
  precision_policy omp width height nchannels nkernels kernel_order out0.
Proof.
  intros Hrace HK HW HH HC HM Hl.
  assert (HKpos : 0 < kernel_order) by lia.
  destruct (student_conv_fills (scalars := Sym.scalars)
              (image (Shape3 (width + kernel_order) (height + kernel_order)
                             nchannels))
              (kernels (Shape4 nkernels nchannels kernel_order kernel_order))
              width height nchannels nkernels kernel_order (Int 0)
              eq_refl
              (image_data_length width height nchannels kernel_order
                 HW HH HC HKpos)
              eq_refl
              (kernels_data_length nchannels nkernels kernel_order
                 HC HM HKpos)
              HW HH HC HM omp out0)
    as (l & E & _); [done|lia|done|].
  eexists. unfold run. rewrite E. split; [reflexivity|]. split.
  - symmetry. apply block_length; lia.
  - apply Forall_tab3. intros m w h Hm Hw Hh. unfold student_val.
    apply double_accumulated_intro.
    apply fold_left_seqZ_invariant; [apply double_sum_zero|].
    intros c a Hc Ha. by apply channel_val_double_sum.
Qed.

Lemma student_conv_double_accumulated_witness :
  precision_policy true 1 1 1 1 5 [Int 0].
Proof.
  apply (student_conv_double_accumulated true 1 1 1 1 5 [Int 0]);
    first [lia | reflexivity | auto].
Defined.
End Precision.

(** ** The tables of pointers *)

(** a loop that keeps an invariant depending on the iteration *)
Lemma iterate_invariant {St} (Inv : Z → St → Prop) (body : Z → M St unit)
    (n : nat) :
  ∀ a s, Inv a s →
    (∀ i s, a ≤ i < a + Z.of_nat n → Inv i s →
       ∃ s' l, body i s = Ok (tt, s', l) ∧ Inv (i + 1) s') →
    ∃ s' l, iterate (λ i _, body i) (seqZ a (Z.of_nat n)) tt s
            = Ok (tt, s', l)
            ∧ Inv (a + Z.of_nat n) s'.
Proof.
  induction n as [|n IH]; intros a s Hs Hstep.
  - exists s, []. split; [done|]. by rewrite Z.add_0_r.
  - rewrite seqZ_cons by lia. simpl.
    destruct (Hstep a s ltac:(lia) Hs) as (s1 & l1 & E1 & H1).
    replace (Z.pred (Z.of_nat (S n))) with (Z.of_nat n) by lia.
    destruct (IH (Z.succ a) s1) as (s2 & l2 & E2 & H2).
    + by replace (Z.succ a) with (a + 1) by lia.
    + intros i s' Hi. apply Hstep. lia.
    + exists s2, (l1 ++ l2). split.
      * eapply bind_ok; [exact E1|exact E2|done].
      * by replace (a + Z.of_nat (S n)) with (Z.succ a + Z.of_nat n) by lia.
Qed.

Lemma for_invariant {St} (Inv : Z → St → Prop) (body : Z → M St unit)
    (n : Z) (s : St) :
  0 ≤ n → Inv 0 s →
  (∀ i s, 0 ≤ i < n → Inv i s →
     ∃ s' l, body i s = Ok (tt, s', l) ∧ Inv (i + 1) s') →
  ∃ s' l, for_ n body s = Ok (tt, s', l) ∧ Inv n s'.
Proof.
  intros Hn Hs Hstep. unfold for_, for_acc.
  destruct (iterate_invariant Inv body (Z.to_nat n) 0 s Hs)
    as (s' & l & E & H').
  - intros i s1 Hi. apply Hstep. lia.
  - rewrite Z2Nat.id in E, H' by done. by exists s', l.
Qed.

Lemma entry_write (table table' : list (option Z)) (i p x : Z) :
  write_entry table i p = Some table' →
  Z.of_nat (length table') = Z.of_nat (length table)
  ∧ entry table' x = if decide (x = i) then Some p else entry table x.
Proof.
  unfold write_entry, in_range.
  destruct (Z.leb_spec 0 i) as [H0|]; [|done].
  destruct (Z.ltb_spec i (Z.of_nat (length table))) as [H1|]; [|done].
  simpl. intros [= <-].
  rewrite length_insert. split; [done|]. unfold entry.
  destruct (decide (x = i)) as [->|Hne].
  - destruct (Z.leb_spec 0 i); [|lia].
    rewrite list_lookup_insert_eq by lia. done.
  - destruct (Z.leb_spec 0 x); [|done].
    rewrite list_lookup_insert_ne by lia. done.
Qed.

Lemma linked_extend (table : list (option Z)) (len n stride : Z) :
  linked table len n stride → 0 ≤ n < len →
  ∃ table', write_entry table n (n * stride) = Some table'
            ∧ linked table' len (n + 1) stride.
Proof.
  intros [Hlen Hx] Hn.
  destruct (write_entry table n (n * stride)) as [table'|] eqn:E.
  - exists table'. split; [done|]. split.
    + destruct (entry_write _ _ _ _ 0 E) as [-> _]. done.
    + intros x Hx'. destruct (entry_write _ _ _ _ x E) as [_ ->].
      destruct (decide (x = n)) as [->|]; [done|]. apply Hx. lia.
  - unfold write_entry, in_range in E.
    destruct (Z.leb_spec 0 n); [|lia].
    destruct (Z.ltb_spec n (Z.of_nat (length table))); [done|lia].
Qed.

Lemma linked_le (table : list (option Z)) (len n n' stride : Z) :
  linked table len n stride → n' ≤ n → linked table len n' stride.
Proof. intros [Hlen Hx] Hle. split; [done|]. intros x Hx'. apply Hx. lia. Qed.

(** every entry of a table that is linked to its end *)
Lemma linked_entry (table : list (option Z)) (len stride x : Z) :
  linked table len len stride →
  entry table x = if in_range 0 x len then Some (x * stride) else None.
Proof.
  intros [Hlen Hx]. unfold in_range.
  destruct (Z.leb_spec 0 x) as [H0|H0];
    destruct (Z.ltb_spec x len) as [H1|H1]; simpl.
  - apply Hx. lia.
  - unfold entry. destruct (Z.leb_spec 0 x); [|done].
    rewrite lookup_ge_None_2; [done|lia].
  - unfold entry. destruct (Z.leb_spec 0 x); [lia|done].
  - unfold entry. destruct (Z.leb_spec 0 x); [lia|done].
Qed.

(** a statement that returns, followed by statements that keep [P] *)
Lemma bind_invariant {St X} (P : St → Prop) (m : M St X)
    (f : X → M St unit) (s : St) (x : X) (s1 : St) :
  m s = Ok (x, s1, []) →
  (∃ s' l, f x s1 = Ok (tt, s', l) ∧ P s') →
  ∃ s' l, bind m f s = Ok (tt, s', l) ∧ P s'.
Proof.
  intros E (s' & l & E' & HP). exists s', l. split; [|done].
  by eapply bind_ok_nil.
Qed.

Lemma for_invariant_post {St} (Inv : Z → St → Prop) (P : St → Prop)
    (body : Z → M St unit) (n : Z) (s : St) :
  0 ≤ n → Inv 0 s →
  (∀ i s, 0 ≤ i < n → Inv i s →
     ∃ s' l, body i s = Ok (tt, s', l) ∧ Inv (i + 1) s') →
  (∀ s', Inv n s' → P s') →
  ∃ s' l, for_ n body s = Ok (tt, s', l) ∧ P s'.
Proof.
  intros Hn Hs Hstep Hpost.
  destruct (for_invariant Inv body n s Hn Hs Hstep) as (s' & l & E & H').
  exists s', l. auto.
Qed.

Section Linking.
Variables (dim0 dim1 dim2 dim3 : Z).
Hypothesis (H0 : 0 ≤ dim0) (H1 : 0 ≤ dim1) (H2 : 0 ≤ dim2) (H3 : 0 ≤ dim3).
Hypothesis (Hmat1 : dim0 * dim1 ≤ INT_MAX).
Hypothesis (Hmat2 : dim0 * dim1 * dim2 ≤ INT_MAX).
Hypothesis (Hmat3 : dim0 * dim1 * dim2 * dim3 ≤ INT_MAX).

Local Abbreviation upto := (linked_tables dim0 dim1 dim2 dim3).

Lemma read_result_linked (a b c i : Z) (t : tables) :
  upto a b c t → 0 ≤ i < a →
  read_entry tab_result i t = Ok (i * dim1, t, []).
Proof using Type.
  intros ([_ Hr] & _ & _) Hi. unfold read_entry. by rewrite Hr.
Qed.

Lemma read_mat1_linked (a b c i : Z) (t : tables) :
  upto a b c t → 0 ≤ i < b →
  read_entry tab_mat1 i t = Ok (i * dim2, t, []).
Proof using Type.
  intros (_ & [_ Hr] & _) Hi. unfold read_entry. by rewrite Hr.
Qed.

Lemma write_result_linked (a b c : Z) (t : tables) :
  upto a b c t → 0 ≤ a < dim0 →
  ∃ t', write_result a (a * dim1) t = Ok (tt, t', [])
        ∧ upto (a + 1) b c t'.
Proof using Type.
  intros (Hr & Hm1 & Hm2) Ha. unfold write_result.
  destruct (linked_extend _ _ _ _ Hr Ha) as (r & -> & Hr').
  eexists. split; [done|]. unfold linked_tables. simpl. auto.
Qed.

Lemma write_mat1_linked (a b c : Z) (t : tables) :
  upto a b c t → 0 ≤ b < dim0 * dim1 →
  ∃ t', write_mat1 b (b * dim2) t = Ok (tt, t', [])
        ∧ upto a (b + 1) c t'.
Proof using Type.
  intros (Hr & Hm1 & Hm2) Hb. unfold write_mat1.
  destruct (linked_extend _ _ _ _ Hm1 Hb) as (r & -> & Hr').
  eexists. split; [done|]. unfold linked_tables. simpl. auto.
Qed.

Lemma write_mat2_linked (a b c : Z) (t : tables) :
  upto a b c t → 0 ≤ c < dim0 * dim1 * dim2 →
  ∃ t', write_mat2 c (c * dim3) t = Ok (tt, t', [])
        ∧ upto a b (c + 1) t'.
Proof using Type.
  intros (Hr & Hm1 & Hm2) Hc. unfold write_mat2.
  destruct (linked_extend _ _ _ _ Hm2 Hc) as (r & -> & Hr').
  eexists. split; [done|]. unfold linked_tables. simpl. auto.
Qed.

(** the offsets of lines 85, 88 and 91 are ints *)
Lemma offsets_are_ints (i j k : Z) :
  0 ≤ i < dim0 → 0 ≤ j < dim1 → 0 ≤ k < dim2 →
  0 ≤ i * dim1 * dim2 * dim3
  ∧ 0 ≤ j * dim2 * dim3
  ∧ 0 ≤ k * dim3
  ∧ i * dim1 * dim2 * dim3 + j * dim2 * dim3 + k * dim3 ≤ INT_MAX.
Proof using All.
  intros Hi Hj Hk.
  assert (0 ≤ i * dim1) by nia.
  assert (0 ≤ i * dim1 * dim2) by nia.
  assert (0 ≤ j * dim2) by nia.
  assert (Hp : i * dim1 + j + 1 ≤ dim0 * dim1) by nia.
  assert (Hp' : (i * dim1 + j + 1) * dim2 ≤ dim0 * dim1 * dim2).
  { apply Z.mul_le_mono_nonneg_r; lia. }
  assert (Hq : (i * dim1 + j) * dim2 + k + 1 ≤ dim0 * dim1 * dim2) by lia.
  assert (Hq' : ((i * dim1 + j) * dim2 + k + 1) * dim3
                ≤ dim0 * dim1 * dim2 * dim3).
  { apply Z.mul_le_mono_nonneg_r; lia. }
  assert (0 ≤ i * dim1 * dim2 * dim3) by nia.
  assert (0 ≤ j * dim2 * dim3) by nia.
  assert (0 ≤ k * dim3) by nia.
  repeat split; lia.
Qed.

(** The loops assign every entry of the three tables: entry [x] of
    [result] points to entry [x * dim1] of [mat1], entry [x] of [mat1] to
    entry [x * dim2] of [mat2], and entry [x] of [mat2] to element
    [x * dim3] of the block. *)
Lemma link_tables_linked :
  ∃ t l, link_tables dim0 dim1 dim2 dim3 (malloc_tables dim0 dim1 dim2)
         = Ok (tt, t, l)
         ∧ upto dim0 (dim0 * dim1) (dim0 * dim1 * dim2) t.
Proof using All.
  unfold link_tables.
  apply (for_invariant (λ i t, upto i (i * dim1) (i * dim1 * dim2) t));
    [done| |].
  { unfold malloc_tables. repeat split; simpl;
      first [rewrite length_replicate; nia | intros x Hx; lia]. }
  intros i t Hi Ht.
  assert (Hi1 : 0 ≤ i * dim1 ∧ i * dim1 + dim1 ≤ dim0 * dim1) by nia.
  assert (Hi2 : 0 ≤ i * dim1 * dim2
                ∧ (i * dim1 + dim1) * dim2 ≤ dim0 * dim1 * dim2) by nia.
  eapply bind_invariant; [apply int_nonneg; lia|].
  destruct (write_result_linked _ _ _ _ Ht Hi) as (t1 & E1 & Ht1).
  eapply bind_invariant; [exact E1|].
  apply (for_invariant_post
           (λ j t, upto (i + 1) (i * dim1 + j) ((i * dim1 + j) * dim2) t));
    [done|by rewrite Z.add_0_r| |].
  2: { intros s' Hs'.
       by replace ((i + 1) * dim1) with (i * dim1 + dim1) by ring. }
  intros j t2 Hj Ht2.
  assert (Hb : 0 ≤ i * dim1 + j < dim0 * dim1) by nia.
  assert (Hj2 : 0 ≤ j * dim2 ∧ (i * dim1 + j) * dim2 + dim2
                               ≤ dim0 * dim1 * dim2) by nia.
  eapply bind_invariant;
    [exact (read_result_linked _ _ _ i _ Ht2 ltac:(lia))|].
  do 4 (eapply bind_invariant; [apply int_nonneg; nia|]).
  destruct (write_mat1_linked _ _ _ _ Ht2 Hb) as (t3 & E3 & Ht3).
  eapply bind_invariant.
  { rewrite <- E3. f_equal. ring. }
  apply (for_invariant_post
           (λ k t, upto (i + 1) (i * dim1 + j + 1)
                     ((i * dim1 + j) * dim2 + k) t));
    [done|by rewrite Z.add_0_r| |].
  2: { intros s' Hs'.
       by replace (i * dim1 + (j + 1)) with (i * dim1 + j + 1) by ring;
         replace ((i * dim1 + j + 1) * dim2)
           with ((i * dim1 + j) * dim2 + dim2) by ring. }
  intros k t4 Hk Ht4.
  assert (Hc : 0 ≤ (i * dim1 + j) * dim2 + k < dim0 * dim1 * dim2) by nia.
  destruct (offsets_are_ints i j k) as (Ha & Hb' & Hc' & Hsum); [done..|].
  eapply bind_invariant;
    [exact (read_result_linked _ _ _ i _ Ht4 ltac:(lia))|].
  eapply bind_invariant;
    [exact (read_mat1_linked _ _ _ (i * dim1 + j) _ Ht4 ltac:(lia))|].
  do 8 (eapply bind_invariant; [apply int_nonneg; nia|]).
  destruct (write_mat2_linked _ _ _ _ Ht4 Hc) as (t5 & E5 & Ht5).
  exists t5, []. split.
  - rewrite <- E5. f_equal. ring.
  - by replace ((i * dim1 + j) * dim2 + (k + 1))
      with ((i * dim1 + j) * dim2 + k + 1) by ring.
Qed.
End Linking.

Lemma new_empty_4d_matrix_tables_linked (dim0 dim1 dim2 dim3 : Z) :
  0 ≤ dim0 → 0 ≤ dim1 → 0 ≤ dim2 → 0 ≤ dim3 →
  dim0 * dim1 ≤ INT_MAX → dim0 * dim1 * dim2 ≤ INT_MAX →
  dim0 * dim1 * dim2 * dim3 ≤ INT_MAX →
  ∃ a, new_empty_4d_matrix_tables dim0 dim1 dim2 dim3 = Ok a
       ∧ linked_tables dim0 dim1 dim2 dim3
           dim0 (dim0 * dim1) (dim0 * dim1 * dim2) a.
Proof.
  intros H0 H1 H2 H3 S1 S2 S3. unfold new_empty_4d_matrix_tables.
  rewrite !is_int_nonneg by nia. simpl.
  destruct (link_tables_linked dim0 dim1 dim2 dim3 H0 H1 H2 H3 S1 S2 S3)
    as (t & l & -> & Ht).
  by exists t.
Qed.

(** X1.  For non-negative dimensions whose products
    [dim0*dim1], [dim0*dim1*dim2] and [dim0*dim1*dim2*dim3] are ints,
    [new_empty_4d_matrix_*] links
    its tables so that [a[i][j][k][l]] designates element
    [((i*dim1 + j)*dim2 + k)*dim3 + l] of the block whenever the three
    table entries and the element exist, and nothing otherwise: the
    subscripts [index4] computes are the ones the tables implement. *)
Theorem tables_implement_index4 (dim0 dim1 dim2 dim3 : Z) :
  0 ≤ dim0 → 0 ≤ dim1 → 0 ≤ dim2 → 0 ≤ dim3 →
  dim0 * dim1 ≤ INT_MAX → dim0 * dim1 * dim2 ≤ INT_MAX →
  dim0 * dim1 * dim2 * dim3 ≤ INT_MAX →
  ∃ a, new_empty_4d_matrix_tables dim0 dim1 dim2 dim3 = Ok a
       ∧ ∀ i j k l,
           element4 a (dim0 * dim1 * dim2 * dim3) i j k l
           = index4 (Shape4 dim0 dim1 dim2 dim3) i j k l.
Proof.
  intros H0 H1 H2 H3 S1 S2 S3.
  destruct (new_empty_4d_matrix_tables_linked dim0 dim1 dim2 dim3)
    as (a & E & Hr & Hm1 & Hm2); [done..|].
  exists a. split; [done|]. intros i j k l.
  unfold element4, index4, size4. simpl.
  rewrite (linked_entry _ _ _ i Hr).
  destruct (in_range 0 i dim0); [|done]. simpl.
  rewrite (linked_entry _ _ _ (i * dim1 + j) Hm1).
  destruct (in_range 0 (i * dim1 + j) (dim0 * dim1)); [|done]. simpl.
  rewrite (linked_entry _ _ _ ((i * dim1 + j) * dim2 + k) Hm2).
  destruct (in_range 0 ((i * dim1 + j) * dim2 + k) (dim0 * dim1 * dim2));
    done.
Qed.

Lemma tables_implement_index4_witness :
  ∃ a, new_empty_4d_matrix_tables 2 3 4 5 = Ok a
       ∧ ∀ i j k l,
           element4 a (2 * 3 * 4 * 5) i j k l
           = index4 (Shape4 2 3 4 5) i j k l.
Proof. apply (tables_implement_index4 2 3 4 5); unfold INT_MAX; lia. Defined.

(** X2.  For non-negative dimensions with [dim0], [dim0*dim1] and
    [dim0*dim1*dim2] within int, [new_empty_3d_matrix_*] returns the
    pointer [mat4d[0]]
    of a 4d matrix with a single first dimension; through it
    [a[i][j][k]] designates element [(i*dim1 + j)*dim2 + k] of the block
    whenever the two table entries and the element exist, and nothing
    otherwise, also after [mat4d] has been freed. *)
Theorem tables_implement_index3 (dim0 dim1 dim2 : Z) :
  0 ≤ dim0 → 0 ≤ dim1 → 0 ≤ dim2 →
  dim0 ≤ INT_MAX → dim0 * dim1 ≤ INT_MAX → dim0 * dim1 * dim2 ≤ INT_MAX →
  ∃ a, new_empty_3d_matrix_tables dim0 dim1 dim2 = Ok a
       ∧ tab_result a.2 = []
       ∧ ∀ i j k,
           element3 a (dim0 * dim1 * dim2) i j k
           = index3 (Shape3 dim0 dim1 dim2) i j k.
Proof.
  intros H0 H1 H2 S1 S2 S3. unfold new_empty_3d_matrix_tables.
  destruct (new_empty_4d_matrix_tables_linked 1 dim0 dim1 dim2)
    as (a & -> & Hr & Hm1 & Hm2); [lia|done|done|done|lia..|].
  simpl. rewrite (linked_entry _ _ _ 0 Hr). simpl.
  eexists. split; [done|]. split; [done|]. intros i j k.
  unfold element3, index3, size3. simpl.
  rewrite Z.add_0_l, (linked_entry _ _ _ i Hm1), !Z.mul_1_l.
  destruct (in_range 0 i dim0); [|done]. simpl.
  rewrite (linked_entry _ _ _ (i * dim1 + j) Hm2), !Z.mul_1_l.
  destruct (in_range 0 (i * dim1 + j) (dim0 * dim1)); done.
Qed.

Lemma tables_implement_index3_witness :
  ∃ a, new_empty_3d_matrix_tables 2 3 4 = Ok a
       ∧ tab_result a.2 = []
       ∧ ∀ i j k,
           element3 a (2 * 3 * 4) i j k = index3 (Shape3 2 3 4) i j k.
Proof. apply (tables_implement_index3 2 3 4); unfold INT_MAX; lia. Defined.

(** X3.  For matrices of non-negative dimensions whose products are
    within int, [***kernels] and [**output], which [student_conv] reads
    before its loops, exist exactly when the first entries of the tables
    do, and then point to element 0 of the block; [first_element4] and
    [first_element3] are undefined exactly when these pointers do not
    exist. *)
Theorem first_pointers (dim0 dim1 dim2 dim3 : Z) :
  0 ≤ dim0 → 0 ≤ dim1 → 0 ≤ dim2 → 0 ≤ dim3 →
  dim0 ≤ INT_MAX → dim0 * dim1 ≤ INT_MAX → dim0 * dim1 * dim2 ≤ INT_MAX →
  dim0 * dim1 * dim2 * dim3 ≤ INT_MAX →
  (∃ a, new_empty_4d_matrix_tables dim0 dim1 dim2 dim3 = Ok a
        ∧ first_pointer4 a
          = (if (0 <? dim0) && (0 <? dim0 * dim1)
                && (0 <? dim0 * dim1 * dim2)
             then Some 0 else None)
        ∧ ∀ (A St : Type) (kernels : tensor4 A) (s : St),
            t4_shape kernels = Shape4 dim0 dim1 dim2 dim3 →
            first_element4 kernels s
            = match first_pointer4 a with
              | Some _ => Ok (t4_data kernels, s, [])
              | None => Undefined
              end)
  ∧ (∃ a, new_empty_3d_matrix_tables dim0 dim1 dim2 = Ok a
          ∧ first_pointer3 a
            = (if (0 <? dim0) && (0 <? dim0 * dim1) then Some 0 else None)
          ∧ ∀ (A : Type) (s : list A),
              first_element3 (Shape3 dim0 dim1 dim2) s
              = match first_pointer3 a with
                | Some _ => Ok (tt, s, [])
                | None => Undefined
                end).
Proof.
  intros H0 H1 H2 H3 S0 S1 S2 S3. split.
  - destruct (new_empty_4d_matrix_tables_linked dim0 dim1 dim2 dim3)
      as (a & E & Hr & Hm1 & Hm2); [done..|].
    exists a. split; [done|].
    assert (Ep : first_pointer4 a
                 = if (0 <? dim0) && (0 <? dim0 * dim1)
                      && (0 <? dim0 * dim1 * dim2)
                   then Some 0 else None).
    { unfold first_pointer4.
      rewrite (linked_entry _ _ _ 0 Hr). unfold in_range.
      destruct (Z.ltb_spec 0 dim0); [|done]. simpl. rewrite Z.mul_0_l.
      rewrite (linked_entry _ _ _ 0 Hm1). unfold in_range. simpl.
      destruct (Z.ltb_spec 0 (dim0 * dim1)); [|done]. simpl.
      rewrite Z.mul_0_l, (linked_entry _ _ _ 0 Hm2). unfold in_range. simpl.
      by destruct (Z.ltb_spec 0 (dim0 * dim1 * dim2)). }
    split; [done|]. intros A St kernels s Hs.
    rewrite Ep. unfold first_element4. rewrite Hs. simpl.
    by destruct ((0 <? dim0) && (0 <? dim0 * dim1)
                 && (0 <? dim0 * dim1 * dim2)).
  - unfold new_empty_3d_matrix_tables.
    destruct (new_empty_4d_matrix_tables_linked 1 dim0 dim1 dim2)
      as (a & -> & Hr & Hm1 & Hm2); [lia|done|done|done|lia..|].
    simpl. rewrite (linked_entry _ _ _ 0 Hr). simpl.
    eexists. split; [done|].
    assert (Ep : first_pointer3 (0 * dim0,
                   Tables [] (tab_mat1 a) (tab_mat2 a))
                 = if (0 <? dim0) && (0 <? dim0 * dim1)
                   then Some 0 else None).
    { unfold first_pointer3. simpl.
      rewrite Z.mul_0_l, (linked_entry _ _ _ 0 Hm1), !Z.mul_1_l.
      unfold in_range. simpl.
      destruct (Z.ltb_spec 0 dim0); [|done]. simpl.
      rewrite Z.mul_0_l, (linked_entry _ _ _ 0 Hm2), !Z.mul_1_l.
      unfold in_range. simpl.
      by destruct (Z.ltb_spec 0 (dim0 * dim1)). }
    split; [done|]. intros A s. rewrite Ep. unfold first_element3. simpl.
    by destruct ((0 <? dim0) && (0 <? dim0 * dim1)).
Qed.

Lemma first_pointers_witness :
  (∃ a, new_empty_4d_matrix_tables 2 3 0 0 = Ok a
        ∧ first_pointer4 a
          = (if (0 <? 2) && (0 <? 2 * 3) && (0 <? 2 * 3 * 0)
             then Some 0 else None)
        ∧ ∀ (A St : Type) (kernels : tensor4 A) (s : St),
            t4_shape kernels = Shape4 2 3 0 0 →
            first_element4 kernels s
            = match first_pointer4 a with
              | Some _ => Ok (t4_data kernels, s, [])
              | None => Undefined
              end)
  ∧ (∃ a, new_empty_3d_matrix_tables 2 3 0 = Ok a
          ∧ first_pointer3 a
            = (if (0 <? 2) && (0 <? 2 * 3) then Some 0 else None)
          ∧ ∀ (A : Type) (s : list A),
              first_element3 (Shape3 2 3 0) s
              = match first_pointer3 a with
                | Some _ => Ok (tt, s, [])
                | None => Undefined
                end).
Proof. apply (first_pointers 2 3 0 0); unfold INT_MAX; lia. Defined.

Lemma radix_unique (d q r q' r' : Z) :
  0 ≤ r < d → 0 ≤ r' < d → q * d + r = q' * d + r' → q = q' ∧ r = r'.
Proof.
  intros Hr Hr' E.
  apply (Z.div_mod_unique d); [lia|lia|lia].
Qed.

(** X4.  Subscripts within the dimensions designate an element of
    the block, and different subscripts designate different elements:
    two cells of a matrix never share storage. *)
Theorem subscripts_do_not_alias (dim0 dim1 dim2 dim3 : Z)
    (i j k l i' j' k' l' : Z) :
  0 ≤ i < dim0 → 0 ≤ j < dim1 → 0 ≤ k < dim2 → 0 ≤ l < dim3 →
  0 ≤ i' < dim0 → 0 ≤ j' < dim1 → 0 ≤ k' < dim2 → 0 ≤ l' < dim3 →
  (∃ f, index4 (Shape4 dim0 dim1 dim2 dim3) i j k l = Some f
        ∧ 0 ≤ f < dim0 * dim1 * dim2 * dim3)
  ∧ (∃ f, index3 (Shape3 dim0 dim1 dim2) i j k = Some f
          ∧ 0 ≤ f < dim0 * dim1 * dim2)
  ∧ (index4 (Shape4 dim0 dim1 dim2 dim3) i j k l
     = index4 (Shape4 dim0 dim1 dim2 dim3) i' j' k' l' →
     i = i' ∧ j = j' ∧ k = k' ∧ l = l')
  ∧ (index3 (Shape3 dim0 dim1 dim2) i j k
     = index3 (Shape3 dim0 dim1 dim2) i' j' k' →
     i = i' ∧ j = j' ∧ k = k').
Proof.
  intros Hi Hj Hk Hl Hi' Hj' Hk' Hl'.
  rewrite !index4_in, !index3_in by done.
  assert (Hp : 0 ≤ i * dim1 + j < dim0 * dim1) by nia.
  assert (Hq : 0 ≤ (i * dim1 + j) * dim2 + k < dim0 * dim1 * dim2) by nia.
  split; [|split; [|split]].
  - eexists. split; [done|]. nia.
  - eexists. split; [done|]. nia.
  - intros [= E].
    apply radix_unique in E as [E ->]; [|done..].
    apply radix_unique in E as [E ->]; [|done..].
    apply radix_unique in E as [-> ->]; done.
  - intros [= E].
    apply radix_unique in E as [E ->]; [|done..].
    apply radix_unique in E as [-> ->]; done.
Qed.

Lemma subscripts_do_not_alias_witness :
  (∃ f, index4 (Shape4 2 3 4 5) 1 2 3 4 = Some f ∧ 0 ≤ f < 2 * 3 * 4 * 5)
  ∧ (∃ f, index3 (Shape3 2 3 4) 1 2 3 = Some f ∧ 0 ≤ f < 2 * 3 * 4)
  ∧ (index4 (Shape4 2 3 4 5) 1 2 3 4 = index4 (Shape4 2 3 4 5) 0 1 2 3 →
     1 = 0 ∧ 2 = 1 ∧ 3 = 2 ∧ 4 = 3)
  ∧ (index3 (Shape3 2 3 4) 1 2 3 = index3 (Shape3 2 3 4) 0 1 2 →
     1 = 0 ∧ 2 = 1 ∧ 3 = 2).
Proof. apply (subscripts_do_not_alias 2 3 4 5 1 2 3 4 0 1 2 3); lia. Defined.

(** ** Runs that do not return *)

Section Failures.
Context {St : Type}.

Lemma avoids_ret {X} f (x : X) : avoids (S := St) f (ret x).
Proof. intros s. by destruct f. Qed.

Lemma avoids_bind {X Y} f (m : M St X) (k : X → M St Y) :
  avoids f m → (∀ x, avoids f (k x)) → avoids f (bind m k).
Proof.
  intros Hm Hk s. unfold bind. specialize (Hm s).
  destruct (m s) as [| |[[x s1] l1]]; [by destruct f..|].
  specialize (Hk x s1). destruct (k x s1) as [| |[[y s2] l2]]; by destruct f.
Qed.

Lemma avoids_iterate {X} f (body : Z → X → M St X) (l : list Z) :
  (∀ i acc, i ∈ l → avoids f (body i acc)) →
  ∀ acc, avoids f (iterate body l acc).
Proof.
  induction l as [|i l IH]; intros Hb acc; simpl.
  - apply avoids_ret.
  - apply avoids_bind.
    + apply Hb. by left.
    + intros acc'. apply IH. intros j a Hj. apply Hb. by right.
Qed.

Lemma avoids_for_acc {X} f (n : Z) (body : Z → X → M St X) (acc : X) :
  (∀ i acc, 0 ≤ i < n → avoids f (body i acc)) →
  avoids f (for_acc n body acc).
Proof.
  intros Hb. apply avoids_iterate. intros i a Hi%elem_of_seqZ.
  apply Hb. lia.
Qed.

Lemma avoids_for f (n : Z) (body : Z → M St unit) :
  (∀ i, 0 ≤ i < n → avoids f (body i)) → avoids f (for_ n body).
Proof. intros Hb. apply avoids_for_acc. intros i _. apply Hb. Qed.

Lemma ends_in_bind {X Y} f (m : M St X) (k : X → M St Y) :
  ends_in f m → ends_in f (bind m k).
Proof. intros Hm s. unfold bind. rewrite Hm. by destruct f. Qed.

(** [m] does not fail otherwise and what follows fails with [f] *)
Lemma ends_in_then {X Y} f g (m : M St X) (k : X → M St Y) :
  f ≠ g → avoids g m → (∀ x, ends_in f (k x)) → ends_in f (bind m k).
Proof.
  intros Hfg Hm Hk s. unfold bind. specialize (Hm s).
  destruct (m s) as [| |[[x s1] l1]].
  - by destruct f, g.
  - by destruct f, g.
  - rewrite Hk. by destruct f.
Qed.

(** A loop one of whose iterations fails with [f], the others not failing
    otherwise, fails with [f]. *)
Lemma ends_in_iterate {X} f g (body : Z → X → M St X) (l : list Z)
    (i : Z) :
  f ≠ g → i ∈ l →
  (∀ acc, ends_in f (body i acc)) →
  (∀ j acc, j ∈ l → avoids g (body j acc)) →
  ∀ acc, ends_in f (iterate body l acc).
Proof.
  intros Hfg Hi Hbad Hrest.
  induction l as [|j l IH]; intros acc; [by apply elem_of_nil in Hi|].
  simpl. apply elem_of_cons in Hi as [<-|Hi].
  - apply ends_in_bind, Hbad.
  - apply (ends_in_then f g); [done|apply Hrest; by left|].
    intros acc'. apply IH; [done|]. intros j' a Hj'. apply Hrest. by right.
Qed.

Lemma ends_in_for_acc {X} f g (n : Z) (body : Z → X → M St X) (i : Z) :
  f ≠ g → 0 ≤ i < n →
  (∀ acc, ends_in f (body i acc)) →
  (∀ j acc, 0 ≤ j < n → avoids g (body j acc)) →
  ∀ acc, ends_in f (for_acc n body acc).
Proof.
  intros Hfg Hi Hbad Hrest acc. apply (ends_in_iterate f g _ _ i); [done| | |].
  - apply elem_of_seqZ. lia.
  - done.
  - intros j a Hj%elem_of_seqZ. apply Hrest. lia.
Qed.

Lemma ends_in_for f g (n : Z) (body : Z → M St unit) (i : Z) :
  f ≠ g → 0 ≤ i < n →
  ends_in f (body i) →
  (∀ j, 0 ≤ j < n → avoids g (body j)) →
  ends_in f (for_ n body).
Proof.
  intros Hfg Hi Hbad Hrest.
  apply (ends_in_for_acc f g _ _ i); [done..| |].
  - by intros _.
  - intros j _. apply Hrest.
Qed.

(** reads never abort; writes never abort *)
Lemma avoids_abort_load_flat {A} id (block : list A) f :
  avoids (S := St) Abort (load_flat id block f).
Proof.
  intros s. unfold load_flat. destruct (0 <=? f); [|done].
  by destruct (block !! Z.to_nat f).
Qed.

Lemma avoids_abort_load3 {A} id (t : tensor3 A) i j k :
  avoids (S := St) Abort (load3 id t i j k).
Proof.
  unfold load3. destruct (index3 _ _ _ _); [|done].
  apply avoids_abort_load_flat.
Qed.

Lemma avoids_abort_load4 {A} id (t : tensor4 A) i j k l :
  avoids (S := St) Abort (load4 id t i j k l).
Proof.
  unfold load4. destruct (index4 _ _ _ _ _); [|done].
  apply avoids_abort_load_flat.
Qed.

(** a read of an element that exists is defined *)
Lemma avoids_ub_load3 {A} id (t : tensor3 A) i j k :
  readable3 t i j k → avoids (S := St) UB (load3 id t i j k).
Proof.
  intros (f & Hf & H0 & Hlen) s. unfold load3, load_flat. rewrite Hf.
  destruct (Z.leb_spec 0 f); [|lia].
  destruct (lookup_lt_is_Some_2 (t3_data t) (Z.to_nat f)) as [v ->]; [lia|].
  done.
Qed.

(** a read of an element that does not exist is undefined *)
Lemma ends_in_ub_load3 {A} id (t : tensor3 A) i j k :
  ¬ readable3 t i j k → ends_in (S := St) UB (load3 id t i j k).
Proof.
  intros Hnr s. unfold load3, load_flat.
  destruct (index3 _ _ _ _) as [f|] eqn:Hf; [|done].
  destruct (Z.leb_spec 0 f); [|done].
  destruct (t3_data t !! Z.to_nat f) as [v|] eqn:Hv; [|done].
  exfalso. apply Hnr. exists f. split; [done|]. split; [done|].
  apply lookup_lt_Some in Hv. lia.
Qed.

Lemma ends_in_ub_load4 {A} id (t : tensor4 A) i j k l :
  ¬ readable4 t i j k l → ends_in (S := St) UB (load4 id t i j k l).
Proof.
  intros Hnr s. unfold load4, load_flat.
  destruct (index4 _ _ _ _ _) as [f|] eqn:Hf; [|done].
  destruct (Z.leb_spec 0 f); [|done].
  destruct (t4_data t !! Z.to_nat f) as [v|] eqn:Hv; [|done].
  exfalso. apply Hnr. exists f. split; [done|]. split; [done|].
  apply lookup_lt_Some in Hv. lia.
Qed.
End Failures.

Lemma avoids_abort_store_flat {A} id f (v : A) :
  avoids Abort (store_flat id f v).
Proof. intros s. unfold store_flat. by destruct (in_range _ _ _). Qed.

Lemma avoids_abort_store3 {A} id o i j k (v : A) :
  avoids Abort (store3 id o i j k v).
Proof.
  unfold store3. destruct (index3 _ _ _ _); [|done].
  apply avoids_abort_store_flat.
Qed.

(** ** Copying a matrix *)

Lemma copied_next {A} (source block0 : list A) (n : Z) (v : A) :
  length source = length block0 → 0 ≤ n →
  source !! Z.to_nat n = Some v →
  <[Z.to_nat n := v]> (take (Z.to_nat n) source ++ drop (Z.to_nat n) block0)
  = take (Z.to_nat (n + 1)) source ++ drop (Z.to_nat (n + 1)) block0.
Proof.
  intros Hlen Hn Hv.
  replace (Z.to_nat (n + 1)) with (S (Z.to_nat n)) by lia.
  pose proof (lookup_lt_Some _ _ _ Hv) as Hlt.
  destruct (lookup_lt_is_Some_2 block0 (Z.to_nat n)) as [x Hx]; [lia|].
  rewrite (take_S_r _ _ _ Hv), (drop_S _ _ _ Hx).
  rewrite insert_app_r_alt by (rewrite length_take; lia).
  rewrite length_take, Nat.min_l, Nat.sub_diag by lia. simpl.
  by rewrite <- app_assoc.
Qed.

Section Copy.
Context {scalars : Scalars}.
Variables (source_matrix : tensor4 int16) (block0 : list int16).
Variables (dim0 dim1 dim2 dim3 : Z).
Hypothesis source_shape :
  t4_shape source_matrix = Shape4 dim0 dim1 dim2 dim3.
Hypothesis source_data :
  Z.of_nat (length (t4_data source_matrix)) = size4 (t4_shape source_matrix).
Hypothesis block0_length :
  length block0 = length (t4_data source_matrix).
Hypothesis (H0 : 0 ≤ dim0) (H1 : 0 ≤ dim1) (H2 : 0 ≤ dim2) (H3 : 0 ≤ dim3).

Local Abbreviation upto := (copied (t4_data source_matrix) block0).

Lemma copy_element (i j k l : Z) (block : list int16) :
  0 ≤ i < dim0 → 0 ≤ j < dim1 → 0 ≤ k < dim2 → 0 ≤ l < dim3 →
  upto (((i * dim1 + j) * dim2 + k) * dim3 + l) block →
  ∃ block' log,
    (v <- load4 Kernels source_matrix i j k l ;;
     store4 Result (Shape4 dim0 dim1 dim2 dim3) i j k l v) block
    = Ok (tt, block', log)
    ∧ upto (((i * dim1 + j) * dim2 + k) * dim3 + (l + 1)) block'.
Proof using All.
  intros Hi Hj Hk Hl ->.
  set (f := ((i * dim1 + j) * dim2 + k) * dim3 + l).
  assert (Hf : 0 ≤ f < dim0 * dim1 * dim2 * dim3).
  { assert (0 ≤ i * dim1 + j < dim0 * dim1) by nia.
    assert (0 ≤ (i * dim1 + j) * dim2 + k < dim0 * dim1 * dim2) by nia.
    unfold f. nia. }
  assert (Hlen : Z.of_nat (length (t4_data source_matrix))
                 = dim0 * dim1 * dim2 * dim3).
  { by rewrite source_data, source_shape. }
  destruct (lookup_lt_is_Some_2 (t4_data source_matrix) (Z.to_nat f))
    as [v Hv]; [lia|].
  exists (take (Z.to_nat (f + 1)) (t4_data source_matrix)
          ++ drop (Z.to_nat (f + 1)) block0), [Rd Kernels f; Wr Result f].
  split.
  - eapply bind_ok.
    + unfold load4, load_flat. rewrite source_shape, index4_in by done.
      fold f. destruct (Z.leb_spec 0 f); [|lia]. by rewrite Hv.
    + unfold store4, store_flat. rewrite index4_in by done. fold f.
      unfold in_range.
      rewrite length_app, length_take, length_drop.
      destruct (Z.leb_spec 0 f); [|lia].
      destruct (Z.ltb_spec f
                  (Z.of_nat (Z.to_nat f `min` length (t4_data source_matrix)
                             + (length block0 - Z.to_nat f)))); [|lia].
      simpl. by rewrite copied_next.
    + done.
  - unfold copied. do 3 f_equal; lia.
Qed.

(** The loops of [copy_4d_matrix] replace the block by the elements of
    the source. *)
Lemma copy_elements_copies :
  ∃ log, copy_elements source_matrix (Shape4 dim0 dim1 dim2 dim3)
           dim0 dim1 dim2 dim3 block0
         = Ok (tt, t4_data source_matrix, log).
Proof using All.
  assert (Hall : ∃ block log,
    copy_elements source_matrix (Shape4 dim0 dim1 dim2 dim3)
      dim0 dim1 dim2 dim3 block0 = Ok (tt, block, log)
    ∧ upto (dim0 * dim1 * dim2 * dim3) block).
  { unfold copy_elements.
    apply (for_invariant (λ i b, upto (i * dim1 * dim2 * dim3) b));
      [done|by unfold copied|].
    intros i b Hi Hb.
    replace ((i + 1) * dim1 * dim2 * dim3)
      with ((i * dim1 + dim1) * dim2 * dim3) by ring.
    apply (for_invariant (λ j b, upto ((i * dim1 + j) * dim2 * dim3) b));
      [done|by rewrite Z.add_0_r|].
    intros j b1 Hj Hb1.
    replace ((i * dim1 + (j + 1)) * dim2 * dim3)
      with (((i * dim1 + j) * dim2 + dim2) * dim3) by ring.
    apply (for_invariant
             (λ k b, upto (((i * dim1 + j) * dim2 + k) * dim3) b));
      [done|by rewrite Z.add_0_r|].
    intros k b2 Hk Hb2.
    replace (((i * dim1 + j) * dim2 + (k + 1)) * dim3)
      with (((i * dim1 + j) * dim2 + k) * dim3 + dim3) by ring.
    apply (for_invariant
             (λ l b, upto (((i * dim1 + j) * dim2 + k) * dim3 + l) b));
      [done|by rewrite Z.add_0_r|].
    intros l b3 Hl Hb3. by apply copy_element. }
  destruct Hall as (block & log & E & Hb). exists log. rewrite E.
  do 3 f_equal. rewrite Hb.
  rewrite take_ge, drop_ge; [by rewrite app_nil_r| |].
  - rewrite block0_length.
    rewrite source_shape in source_data. unfold size4 in source_data.
    simpl in source_data. lia.
  - rewrite source_shape in source_data. unfold size4 in source_data.
    simpl in source_data. lia.
Qed.
End Copy.

Lemma block_size {A} (content : nat → A) (n : Z) :
  length (block content n) = Z.to_nat n.
Proof. unfold block. by rewrite length_fmap, length_seq. Qed.

(** X5.  When the dimensions passed are those of the source, with
    products within int, [copy_4d_matrix] returns a matrix with the shape
    and the elements of the source, whatever malloc left in the new
    block. *)
Theorem copy_4d_matrix_copies {scalars : Scalars} (junk : nat → int16)
    (source_matrix : tensor4 int16) (dim0 dim1 dim2 dim3 : Z) :
  t4_shape source_matrix = Shape4 dim0 dim1 dim2 dim3 →
  Z.of_nat (length (t4_data source_matrix)) = size4 (t4_shape source_matrix) →
  0 ≤ dim0 → 0 ≤ dim1 → 0 ≤ dim2 → 0 ≤ dim3 →
  dim0 * dim1 ≤ INT_MAX → dim0 * dim1 * dim2 ≤ INT_MAX →
  dim0 * dim1 * dim2 * dim3 ≤ INT_MAX →
  copy_4d_matrix junk source_matrix dim0 dim1 dim2 dim3 = Ok source_matrix.
Proof.
  intros Hs Hd H0 H1 H2 H3 S1 S2 S3.
  unfold copy_4d_matrix, new_empty_4d_matrix.
  rewrite !is_int_nonneg by nia. simpl.
  destruct (copy_elements_copies source_matrix
              (block junk (dim0 * dim1 * dim2 * dim3))
              dim0 dim1 dim2 dim3 Hs Hd) as [log ->]; [|done..|].
  - rewrite block_size. rewrite Hs in Hd. unfold size4 in Hd. simpl in Hd.
    lia.
  - destruct source_matrix as [s d]. simpl in *. by rewrite Hs.
Qed.

Lemma copy_4d_matrix_copies_witness :
  copy_4d_matrix (scalars := IEEE.scalars) (λ _, 7)
    (Tensor4 (Shape4 1 1 2 2) [1; 2; 3; 4]) 1 1 2 2
  = Ok (Tensor4 (Shape4 1 1 2 2) [1; 2; 3; 4]).
Proof.
  apply (copy_4d_matrix_copies (scalars := IEEE.scalars) (λ _, 7)
           (Tensor4 (Shape4 1 1 2 2) [1; 2; 3; 4]) 1 1 2 2);
    first [reflexivity | unfold INT_MAX; lia].
Defined.

Lemma avoids_abort_store4 {scalars : Scalars} id o i j k l (v : int16) :
  avoids Abort (store4 id o i j k l v).
Proof.
  unfold store4. destruct (index4 _ _ _ _ _); [|done].
  apply avoids_abort_store_flat.
Qed.

(** X6.  [copy_4d_matrix] trusts the dimensions it is passed: when
    they reach a subscript at which the source has no element, the copy
    reads outside the source and its behaviour is undefined. *)
Theorem copy_4d_matrix_out_of_bounds {scalars : Scalars} (junk : nat → int16)
    (source_matrix : tensor4 int16) (dim0 dim1 dim2 dim3 i j k l : Z) :
  0 ≤ i < dim0 → 0 ≤ j < dim1 → 0 ≤ k < dim2 → 0 ≤ l < dim3 →
  ¬ readable4 source_matrix i j k l →
  copy_4d_matrix junk source_matrix dim0 dim1 dim2 dim3 = Undefined.
Proof.
  intros Hi Hj Hk Hl Hnr. unfold copy_4d_matrix, new_empty_4d_matrix.
  destruct (_ && _ && _); [|done]. simpl.
  assert (Hcell : ∀ i j k l,
    avoids Abort
      (v <- load4 (S := list int16) Kernels source_matrix i j k l ;;
       store4 Result (Shape4 dim0 dim1 dim2 dim3) i j k l v)).
  { intros. apply avoids_bind; [apply avoids_abort_load4|].
    intros v. apply avoids_abort_store4. }
  assert (Hub : ends_in UB
            (copy_elements source_matrix (Shape4 dim0 dim1 dim2 dim3)
               dim0 dim1 dim2 dim3)); [|by rewrite Hub].
  apply (ends_in_for UB Abort dim0 _ i); [done|done| |].
  - apply (ends_in_for UB Abort dim1 _ j); [done|done| |].
    + apply (ends_in_for UB Abort dim2 _ k); [done|done| |].
      * apply (ends_in_for UB Abort dim3 _ l); [done|done| |].
        -- by apply ends_in_bind, ends_in_ub_load4.
        -- intros. apply Hcell.
      * intros. apply avoids_for. intros. apply Hcell.
    + intros. apply avoids_for. intros. apply avoids_for. intros.
      apply Hcell.
  - intros. apply avoids_for. intros. apply avoids_for. intros.
    apply avoids_for. intros. apply Hcell.
Qed.

Lemma copy_4d_matrix_out_of_bounds_witness :
  copy_4d_matrix (scalars := IEEE.scalars) (λ _, 7)
    (Tensor4 (Shape4 1 1 2 2) [1; 2; 3; 4]) 1 1 2 3 = Undefined.
Proof.
  apply (copy_4d_matrix_out_of_bounds (scalars := IEEE.scalars) (λ _, 7)
           (Tensor4 (Shape4 1 1 2 2) [1; 2; 3; 4]) 1 1 2 3 0 0 1 2);
    [lia..|].
  intros (f & Hf & Hr). vm_compute in Hf. discriminate.
Defined.

(** ** Printing a matrix *)

(** the block of a matrix is the table of its elements *)
Lemma tab3_peek {A} (d : A) (t : tensor3 A) (M W H : Z) :
  t3_shape t = Shape3 M W H →
  Z.of_nat (length (t3_data t)) = size3 (t3_shape t) →
  0 ≤ M → 0 ≤ W → 0 ≤ H →
  tab3 M W H (peek3 d t) = t3_data t.
Proof.
  intros Hs Hd HM HW HH. rewrite Hs in Hd. unfold size3 in Hd. simpl in Hd.
  apply (list_eq_same_length _ _ (length (t3_data t))); [done| |].
  { rewrite length_tab3. nia. }
  intros n x y Hn Hx Hy.
  set (z := Z.of_nat n).
  assert (Hz : 0 ≤ z < M * W * H) by lia.
  assert (HH' : 0 < H) by nia. assert (HW' : 0 < W) by nia.
  pose proof (Z.div_mod z H ltac:(lia)) as Ezh.
  pose proof (Z.mod_pos_bound z H HH') as Hh.
  pose proof (Z.div_mod (z / H) W ltac:(lia)) as Ezw.
  pose proof (Z.mod_pos_bound (z / H) W HW') as Hw.
  assert (Hp : 0 ≤ z / H < M * W).
  { split; [apply Z.div_pos; lia|]. apply Z.div_lt_upper_bound; nia. }
  assert (Hm : 0 ≤ z / H / W < M).
  { split; [apply Z.div_pos; lia|]. apply Z.div_lt_upper_bound; nia. }
  assert (Ez : z = (z / H / W * W + (z / H) `mod` W) * H + z `mod` H).
  { rewrite Ezh at 1. rewrite Ezw at 1. ring. }
  pose proof (lookup_tab3 M W H (peek3 d t) _ _ _ Hm Hw Hh) as Hl.
  rewrite <- Ez in Hl. unfold z in Hl at 1. rewrite Nat2Z.id in Hl.
  rewrite Hx in Hl. injection Hl as ->.
  unfold peek3. rewrite Hs, index3_in by done. rewrite <- Ez.
  unfold peek_flat, z. by rewrite Nat2Z.id, Hy.
Qed.

Section Printing.
Context {P : Type}.

Lemma prints_ret {X} (x : X) : prints (P := P) (ret x) x [].
Proof. intros out. exists []. by rewrite app_nil_r. Qed.

Lemma prints_bind {X Y} (m : M (list P) X) (k : X → M (list P) Y)
    (x : X) (y : Y) (l1 l2 : list P) :
  prints m x l1 → prints (k x) y l2 → prints (bind m k) y (l1 ++ l2).
Proof.
  intros Hm Hk out. destruct (Hm out) as [la Ea].
  destruct (Hk (out ++ l1)) as [lb Eb].
  exists (la ++ lb). unfold bind. rewrite Ea, Eb. by rewrite app_assoc.
Qed.

Lemma prints_load3 {A} id (d : A) (t : tensor3 A) (i j k : Z) :
  readable3 t i j k → prints (P := P) (load3 id t i j k) (peek3 d t i j k) [].
Proof.
  intros Hr out.
  destruct (evals_load3 (S := list P) (λ _, True) id d t i j k
              ltac:(done) Hr out) as (l & E & _).
  exists l. by rewrite app_nil_r.
Qed.

Lemma prints_iterate (body : Z → M (list P) unit) (lines : Z → list P)
    (l : list Z) :
  (∀ i, i ∈ l → prints (body i) tt (lines i)) →
  prints (iterate (λ i _, body i) l tt) tt (concat (lines <$> l)).
Proof.
  induction l as [|i l IH]; intros Hb; simpl.
  - apply prints_ret.
  - apply (prints_bind _ _ tt).
    + apply Hb. by left.
    + apply IH. intros j Hj. apply Hb. by right.
Qed.

Lemma prints_for (n : Z) (body : Z → M (list P) unit) (lines : Z → list P) :
  (∀ i, 0 ≤ i < n → prints (body i) tt (lines i)) →
  prints (for_ n body) tt (concat (lines <$> seqZ 0 n)).
Proof.
  intros Hb. apply prints_iterate. intros i Hi%elem_of_seqZ. apply Hb. lia.
Qed.
End Printing.

Lemma omap_concat_fmap {A B C} (f : A → option B) (g : C → list A)
    (l : list C) :
  omap f (concat (g <$> l)) = concat ((λ x, omap f (g x)) <$> l).
Proof.
  induction l as [|x l IH]; [done|].
  rewrite !fmap_cons. cbn [concat]. by rewrite omap_app, IH.
Qed.

Lemma filter_concat_fmap {A C} (f : A → bool) (g : C → list A) (l : list C) :
  List.filter f (concat (g <$> l))
  = concat ((λ x, List.filter f (g x)) <$> l).
Proof.
  induction l as [|x l IH]; [done|].
  rewrite !fmap_cons. cbn [concat]. by rewrite List.filter_app, IH.
Qed.

Lemma omap_fmap_none {A B C} (f : A → option B) (g : C → A) (l : list C) :
  (∀ x, f (g x) = None) → omap f (g <$> l) = [].
Proof.
  intros Hn. induction l as [|x l IH]; [done|].
  rewrite fmap_cons. cbn [omap list_omap]. by rewrite Hn.
Qed.

Lemma omap_fmap_some {A B C} (f : A → option B) (g : C → A) (h : C → B)
    (l : list C) :
  (∀ x, f (g x) = Some (h x)) → omap f (g <$> l) = h <$> l.
Proof.
  intros Hs. induction l as [|x l IH]; [done|].
  rewrite !fmap_cons. cbn [omap list_omap]. by rewrite Hs, IH.
Qed.

Lemma concat_fmap_nil {A C} (g : C → list A) (l : list C) :
  (∀ x, g x = []) → concat (g <$> l) = [].
Proof.
  intros Hg. induction l as [|x l IH]; [done|].
  rewrite fmap_cons. cbn [concat]. by rewrite Hg, IH.
Qed.

Lemma filter_fmap_false {A C} (f : A → bool) (g : C → A) (l : list C) :
  (∀ x, f (g x) = false) → List.filter f (g <$> l) = [].
Proof.
  intros Hf. induction l as [|x l IH]; [done|].
  rewrite fmap_cons. cbn [List.filter]. by rewrite Hf.
Qed.

Section WriteOut.
Context {scalars : Scalars}.
Variables (val : Z → Z → Z → int16) (dim0 dim1 dim2 : Z).
Hypothesis (H0 : 0 ≤ dim0) (H1 : 0 ≤ dim1) (H2 : 1 ≤ dim2).

Lemma row_values (i j : Z) :
  printed_values
    (((λ k, Element (val i j k)) <$> seqZ 0 (dim2 - 1))
     ++ [Last_element (val i j (dim2 - 1))])
  = (λ k, val i j k) <$> seqZ 0 dim2.
Proof using H2.
  unfold printed_values. rewrite omap_app.
  rewrite (omap_fmap_some _ _ (λ k, val i j k)) by done. simpl.
  replace dim2 with ((dim2 - 1) + 1) at 3 by lia.
  rewrite seqZ_app, fmap_app by lia. simpl. by rewrite Z.add_0_l.
Qed.

Lemma write_out_lines_values :
  printed_values (write_out_lines val dim0 dim1 dim2)
  = tab3 dim0 dim1 dim2 val.
Proof using H2.
  unfold write_out_lines, tab3, printed_values.
  rewrite omap_concat_fmap. f_equal. apply fmap_seqZ_ext. intros i Hi.
  simpl. rewrite omap_concat_fmap. f_equal. apply fmap_seqZ_ext.
  intros j Hj. apply row_values.
Qed.

Lemma write_out_lines_headers :
  printed_headers (write_out_lines val dim0 dim1 dim2) = seqZ 0 dim0.
Proof using Type.
  unfold write_out_lines, printed_headers.
  rewrite omap_concat_fmap.
  rewrite (fmap_seqZ_ext _ (λ i, [i])).
  - by rewrite concat_singletons, list_fmap_id.
  - intros i Hi. cbn [omap list_omap]. f_equal. rewrite omap_concat_fmap.
    apply concat_fmap_nil. intros j. rewrite omap_app.
    by rewrite omap_fmap_none.
Qed.

Lemma write_out_lines_rows :
  printed_rows (write_out_lines val dim0 dim1 dim2)
  = Z.to_nat (dim0 * dim1).
Proof using H0 H1.
  unfold write_out_lines, printed_rows.
  rewrite filter_concat_fmap.
  rewrite (length_concat_fmap _ _ (Z.to_nat dim1)).
  - rewrite length_seqZ. nia.
  - intros i _. simpl. rewrite filter_concat_fmap.
    rewrite (length_concat_fmap _ _ 1%nat).
    + rewrite length_seqZ. lia.
    + intros j _. rewrite List.filter_app, length_app.
      rewrite filter_fmap_false by done. done.
Qed.
End WriteOut.

Lemma prints_printf {scalars : Scalars} (p : printed) :
  prints (printf p) tt [p].
Proof. intros out. by exists []. Qed.

Lemma avoids_printf {scalars : Scalars} f (p : printed) :
  avoids f (printf p).
Proof. intros s. by destruct f. Qed.

(** X7.  For a matrix with at least one column per row,
    [write_out] prints one header per outer index, in order, ends one line
    per row, and the values it prints are, in order, the elements of the
    block: each element is printed once. *)
Theorem write_out_prints_block {scalars : Scalars} (a : tensor3 int16)
    (dim0 dim1 dim2 : Z) (stdout : list printed) :
  t3_shape a = Shape3 dim0 dim1 dim2 →
  Z.of_nat (length (t3_data a)) = size3 (t3_shape a) →
  0 ≤ dim0 → 0 ≤ dim1 → 1 ≤ dim2 →
  ∃ lines l,
    write_out a dim0 dim1 dim2 stdout = Ok (tt, stdout ++ lines, l)
    ∧ printed_values lines = t3_data a
    ∧ printed_headers lines = seqZ 0 dim0
    ∧ printed_rows lines = Z.to_nat (dim0 * dim1).
Proof.
  intros Hs Hd H0 H1 H2.
  set (val := peek3 (int16_of_int 0) a).
  assert (Hr : ∀ i j k, 0 ≤ i < dim0 → 0 ≤ j < dim1 → 0 ≤ k < dim2 →
            readable3 a i j k).
  { intros i j k Hi Hj Hk. by eapply readable3_in. }
  assert (Hp : prints (write_out a dim0 dim1 dim2) tt
                 (write_out_lines val dim0 dim1 dim2)).
  { unfold write_out, write_out_lines.
    apply prints_for. intros i Hi.
    apply (prints_bind _ _ tt _ [_]); [apply prints_printf|].
    apply prints_for. intros j Hj.
    apply (prints_bind _ _ tt).
    - rewrite <- concat_singletons.
      apply prints_for. intros k Hk.
      apply (prints_bind _ _ (val i j k) _ [] [_]).
      + apply prints_load3, Hr; lia.
      + apply prints_printf.
    - apply (prints_bind _ _ (val i j (dim2 - 1)) _ [] [_]).
      + apply prints_load3, Hr; lia.
      + apply prints_printf. }
  destruct (Hp stdout) as [l E].
  exists (write_out_lines val dim0 dim1 dim2), l. split; [done|].
  split; [|split].
  - rewrite write_out_lines_values by done.
    apply tab3_peek; first [done|lia].
  - apply write_out_lines_headers.
  - by apply write_out_lines_rows.
Qed.

Lemma write_out_prints_block_witness :
  ∃ lines l,
    write_out (scalars := IEEE.scalars)
      (Tensor3 (Shape3 1 2 2) [1; 2; 3; 4]) 1 2 2 [] = Ok (tt, [] ++ lines, l)
    ∧ printed_values lines = [1; 2; 3; 4]
    ∧ printed_headers lines = seqZ 0 1
    ∧ printed_rows lines = Z.to_nat (1 * 2).
Proof.
  apply (write_out_prints_block (scalars := IEEE.scalars)
           (Tensor3 (Shape3 1 2 2) [1; 2; 3; 4]) 1 2 2 []);
    first [reflexivity | lia].
Defined.

(** no element has a negative last subscript in the first row *)
Lemma not_readable3_negative {A} (t : tensor3 A) (k : Z) :
  k < 0 → ¬ readable3 t 0 0 k.
Proof.
  intros Hk (f & Hf & Hr). unfold index3, in_range in Hf.
  rewrite !Z.mul_0_l, !Z.add_0_l in Hf.
  destruct (Z.leb_spec 0 k); [lia|].
  by rewrite andb_false_r in Hf.
Qed.

(** X8.  For a matrix without columns (dim2 <= 0, dim0 and
    dim1 positive) [write_out] reads [a[0][0][dim2 - 1]], an element before
    the block: its behaviour is undefined. *)
Theorem write_out_without_columns {scalars : Scalars} (a : tensor3 int16)
    (dim0 dim1 dim2 : Z) (stdout : list printed) :
  0 < dim0 → 0 < dim1 → dim2 ≤ 0 →
  write_out a dim0 dim1 dim2 stdout = Undefined.
Proof.
  intros H0 H1 H2.
  assert (Hrow : ∀ i j,
    avoids Abort
      (for_ (dim2 - 1) (λ k,
         v <- load3 Output a i j k ;; printf (Element v)) ;;;
       v <- load3 Output a i j (dim2 - 1) ;; printf (Last_element v))).
  { intros i j. apply avoids_bind.
    - apply avoids_for. intros k _. apply avoids_bind.
      + apply avoids_abort_load3.
      + intros v. apply avoids_printf.
    - intros _. apply avoids_bind.
      + apply avoids_abort_load3.
      + intros v. apply avoids_printf. }
  assert (Hub : ends_in UB (write_out a dim0 dim1 dim2));
    [|by rewrite Hub].
  unfold write_out.
  apply (ends_in_for UB Abort dim0 _ 0); [done|lia| |].
  - apply (ends_in_then UB Abort); [done|apply avoids_printf|]. intros _.
    apply (ends_in_for UB Abort dim1 _ 0); [done|lia| |].
    + apply (ends_in_then UB Abort); [done| |].
      * apply avoids_for. intros k _. apply avoids_bind.
        -- apply avoids_abort_load3.
        -- intros v. apply avoids_printf.
      * intros _. apply ends_in_bind, ends_in_ub_load3.
        apply not_readable3_negative. lia.
    + intros j _. apply Hrow.
  - intros i _. apply avoids_bind; [apply avoids_printf|]. intros _.
    apply avoids_for. intros j _. apply Hrow.
Qed.

Lemma write_out_without_columns_witness :
  write_out (scalars := IEEE.scalars) (Tensor3 (Shape3 1 1 0) []) 1 1 0 []
  = Undefined.
Proof.
  apply (write_out_without_columns (scalars := IEEE.scalars)
           (Tensor3 (Shape3 1 1 0) []) 1 1 0 []); lia.
Defined.

(** ** The generated data *)

Section Generated.
Import IEEE.

(** the float of a positive integer below 2^24 is finite and positive *)
Lemma F_positive (i : Z) :
  0 < i < 16777216 →
  is_finite (F i) = true ∧ SFltb (S754_zero false) (F i) = true.
Proof.
  intros Hi. destruct i as [|q|q]; [lia| |lia].
  unfold F, round32. by rewrite (normalize_pos 24 128) by lia.
Qed.

Lemma lookup_block {A} (content : nat → A) (size : Z) (n : nat) (v : A) :
  block content size !! n = Some v → v = content n.
Proof.
  unfold block. rewrite list_lookup_fmap. intros Hv.
  destruct (seq 0 (Z.to_nat size) !! n) as [x|] eqn:E; [|done].
  apply lookup_seq in E as [-> _]. simpl in Hv. by injection Hv as <-.
Qed.

(** X9.  For non-negative dimensions whose products are within int, the
    generators of int16_t
    matrices return a matrix of the dimensions asked for in which element
    [n] of the block is the [n]-th value of random() modulo 1024: the
    conversion to int16_t loses nothing, the weights lie strictly between
    -1024 and 1024, and are non-negative when random() is.  The 3d
    generator returns the block of the 4d generator with a single first
    dimension. *)
Theorem generated_int16_elements (random : nat → Z)
    (dim0 dim1 dim2 dim3 : Z) :
  0 ≤ dim0 → 0 ≤ dim1 → 0 ≤ dim2 → 0 ≤ dim3 →
  dim0 ≤ INT_MAX → dim0 * dim1 ≤ INT_MAX → dim0 * dim1 * dim2 ≤ INT_MAX →
  dim0 * dim1 * dim2 * dim3 ≤ INT_MAX →
  (∃ kernels,
     gen_random_4d_matrix_int16 random dim0 dim1 dim2 dim3 = Ok kernels
     ∧ t4_shape kernels = Shape4 dim0 dim1 dim2 dim3
     ∧ Z.of_nat (length (t4_data kernels)) = size4 (t4_shape kernels)
     ∧ ∀ n v, t4_data kernels !! n = Some v →
         v = Z.rem (random n) 1024 ∧ -1024 < v < 1024
         ∧ (0 ≤ random n → 0 ≤ v))
  ∧ (∃ mat3d mat4d,
       gen_random_3d_matrix_int16 random dim0 dim1 dim2 = Ok mat3d
       ∧ gen_random_4d_matrix_int16 random 1 dim0 dim1 dim2 = Ok mat4d
       ∧ t3_shape mat3d = Shape3 dim0 dim1 dim2
       ∧ t3_data mat3d = t4_data mat4d).
Proof.
  intros H0 H1 H2 H3 S0 S1 S2 S3.
  unfold gen_random_3d_matrix_int16, gen_random_4d_matrix_int16,
    new_empty_4d_matrix.
  rewrite !is_int_nonneg by nia.
  simpl. split.
  - eexists. split; [done|]. split; [done|]. simpl. split.
    + rewrite block_size. unfold size4. simpl. nia.
    + intros n v Hv%lookup_block. change (Z.shiftl 1 10) with 1024 in Hv.
      pose proof (Z.rem_bound_abs (random n) 1024 ltac:(lia)) as Hb.
      assert (Hr : -1024 < Z.rem (random n) 1024 < 1024) by lia.
      assert (Ev : v = Z.rem (random n) 1024).
      { rewrite Hv. simpl. rewrite Z.mod_small by lia. lia. }
      split; [done|]. split; [lia|]. intros Hn.
      pose proof (Z.rem_bound_pos (random n) 1024 Hn). lia.
  - by eexists _, _.
Qed.

Lemma generated_int16_elements_witness :
  (∃ kernels,
     gen_random_4d_matrix_int16 (λ n, 5000 - Z.of_nat n) 1 1 2 2 = Ok kernels
     ∧ t4_shape kernels = Shape4 1 1 2 2
     ∧ Z.of_nat (length (t4_data kernels)) = size4 (t4_shape kernels)
     ∧ ∀ n v, t4_data kernels !! n = Some v →
         v = Z.rem (5000 - Z.of_nat n) 1024 ∧ -1024 < v < 1024
         ∧ (0 ≤ 5000 - Z.of_nat n → 0 ≤ v))
  ∧ (∃ mat3d mat4d,
       gen_random_3d_matrix_int16 (λ n, 5000 - Z.of_nat n) 1 1 2 = Ok mat3d
       ∧ gen_random_4d_matrix_int16 (λ n, 5000 - Z.of_nat n) 1 1 1 2
         = Ok mat4d
       ∧ t3_shape mat3d = Shape3 1 1 2
       ∧ t3_data mat3d = t4_data mat4d).
Proof.
  apply (generated_int16_elements (λ n, 5000 - Z.of_nat n) 1 1 2 2);
    unfold INT_MAX; lia.
Defined.

(** X10.  For non-negative dimensions whose products are within int,
    [gen_random_3d_matrix_float]
    returns a matrix of the dimensions asked for in which element [n] of
    the block is the float of 1024 plus the [n]-th value of random() modulo
    4096; when random() is non-negative every element is the float of an
    integer in [1024, 5120), finite and greater than 0.0. *)
Theorem generated_float_elements (random : nat → Z) (dim0 dim1 dim2 : Z) :
  0 ≤ dim0 → 0 ≤ dim1 → 0 ≤ dim2 →
  dim0 ≤ INT_MAX → dim0 * dim1 ≤ INT_MAX → dim0 * dim1 * dim2 ≤ INT_MAX →
  ∃ image,
    gen_random_3d_matrix_float random dim0 dim1 dim2 = Ok image
    ∧ t3_shape image = Shape3 dim0 dim1 dim2
    ∧ Z.of_nat (length (t3_data image)) = size3 (t3_shape image)
    ∧ ∀ n v, t3_data image !! n = Some v →
        v = F (Z.rem (random n) 4096 + 1024)
        ∧ (0 ≤ random n →
           1024 ≤ Z.rem (random n) 4096 + 1024 < 5120
           ∧ is_finite v = true ∧ SFltb (S754_zero false) v = true).
Proof.
  intros H0 H1 H2 S0 S1 S2.
  unfold gen_random_3d_matrix_float, gen_random_4d_matrix_float,
    new_empty_4d_matrix.
  rewrite !is_int_nonneg by nia. simpl.
  eexists. split; [done|]. split; [done|]. simpl. split.
  - rewrite block_size. unfold size3. simpl. nia.
  - intros n v Hv%lookup_block. split; [done|]. intros Hn.
    pose proof (Z.rem_bound_pos (random n) 4096 Hn ltac:(lia)) as Hb.
    split; [lia|]. rewrite Hv. apply F_positive.
    change (Z.shiftl 1 12) with 4096. change (Z.shiftl 1 10) with 1024. lia.
Qed.

Lemma generated_float_elements_witness :
  ∃ image,
    gen_random_3d_matrix_float (λ n, 5000 + Z.of_nat n) 1 2 2 = Ok image
    ∧ t3_shape image = Shape3 1 2 2
    ∧ Z.of_nat (length (t3_data image)) = size3 (t3_shape image)
    ∧ ∀ n v, t3_data image !! n = Some v →
        v = F (Z.rem (5000 + Z.of_nat n) 4096 + 1024)
        ∧ (0 ≤ 5000 + Z.of_nat n →
           1024 ≤ Z.rem (5000 + Z.of_nat n) 4096 + 1024 < 5120
           ∧ is_finite v = true ∧ SFltb (S754_zero false) v = true).
Proof.
  apply (generated_float_elements (λ n, 5000 + Z.of_nat n) 1 2 2);
    unfold INT_MAX; lia.
Defined.
End Generated.

(** ** More about the convolutions *)

(** X11.  For every valid input [multichannel_conv] returns, and so does
    [student_conv] without OpenMP or with a single kernel; the block each
    leaves does not depend on what the output block held before: every
    cell is overwritten, none is read. *)
Theorem outputs_ignore_initial_contents {scalars : Scalars} (omp : bool)
    (image : tensor3 float) (kernels : tensor4 int16) (output : shape3)
    (width height nchannels nkernels kernel_order : Z)
    (out0 out1 : list float) :
  valid_input image kernels output width height nchannels nkernels
    kernel_order →
  Z.of_nat (length out0) = nkernels * width * height →
  Z.of_nat (length out1) = nkernels * width * height →
  ∃ control,
    run (multichannel_conv image kernels output
           width height nchannels nkernels kernel_order) out0 = Ok control
    ∧ run (multichannel_conv image kernels output
             width height nchannels nkernels kernel_order) out1 = Ok control
    ∧ length control = length out0
    ∧ (omp = false ∨ nkernels = 1 →
       ∃ candidate,
         run (student_conv omp image kernels output
                width height nchannels nkernels kernel_order) out0
         = Ok candidate
         ∧ run (student_conv omp image kernels output
                  width height nchannels nkernels kernel_order) out1
           = Ok candidate
         ∧ length candidate = length out0).
Proof.
  intros Hv Hl0 Hl1.
  destruct (valid_input_weight _ _ _ _ _ _ _ _ Hv) as [kd _].
  destruct Hv as [HK HW HH HC HM His Hid Hks Hkd ->].
  destruct (multichannel_conv_fills image kernels width height nchannels
              nkernels kernel_order kd His Hid Hks Hkd HW HH HC HM out0)
    as (l0 & E0 & _); [lia|done|].
  destruct (multichannel_conv_fills image kernels width height nchannels
              nkernels kernel_order kd His Hid Hks Hkd HW HH HC HM out1)
    as (l1 & E1 & _); [lia|done|].
  eexists. unfold run. rewrite E0, E1.
  split; [reflexivity|]. split; [reflexivity|]. split.
  { symmetry. apply block_length; lia. }
  intros Hrace.
  destruct (student_conv_fills image kernels width height nchannels nkernels
              kernel_order kd His Hid Hks Hkd HW HH HC HM omp out0)
    as (l2 & E2 & _); [done..|].
  destruct (student_conv_fills image kernels width height nchannels nkernels
              kernel_order kd His Hid Hks Hkd HW HH HC HM omp out1)
    as (l3 & E3 & _); [done..|].
  eexists. rewrite E2, E3.
  repeat split; symmetry; apply block_length; lia.
Qed.

Lemma outputs_ignore_initial_contents_witness :
  ∃ control,
    run (multichannel_conv (scalars := IEEE.scalars) Scenario.ones_image
           Scenario.ones_kernels (Shape3 1 1 1) 1 1 1 1 3) [IEEE.F 5]
    = Ok control
    ∧ run (multichannel_conv Scenario.ones_image
             Scenario.ones_kernels (Shape3 1 1 1) 1 1 1 1 3)
          [S754_infinity true] = Ok control
    ∧ length control = length [IEEE.F 5]
    ∧ (true = false ∨ 1 = 1 →
       ∃ candidate,
         run (student_conv true Scenario.ones_image
                Scenario.ones_kernels (Shape3 1 1 1) 1 1 1 1 3) [IEEE.F 5]
         = Ok candidate
         ∧ run (student_conv true Scenario.ones_image
                  Scenario.ones_kernels (Shape3 1 1 1) 1 1 1 1 3)
               [S754_infinity true] = Ok candidate
         ∧ length candidate = length [IEEE.F 5]).
Proof.
  apply (outputs_ignore_initial_contents (scalars := IEEE.scalars) true
           Scenario.ones_image Scenario.ones_kernels (Shape3 1 1 1)
           1 1 1 1 3 [IEEE.F 5] [S754_infinity true]);
    [constructor; simpl; first [lia | reflexivity | auto]
    |reflexivity|reflexivity].
Defined.

Lemma iterate_nothing {St} (body : Z → M St unit) (l : list Z) (s : St) :
  (∀ i s, i ∈ l → body i s = Ok (tt, s, [])) →
  iterate (λ i _, body i) l tt s = Ok (tt, s, []).
Proof.
  induction l as [|i l IH]; intros Hb; [done|]. simpl.
  eapply bind_ok_nil; [apply Hb; by left|].
  apply IH. intros j s' Hj. apply Hb. by right.
Qed.

(** a loop whose iterations do nothing does nothing *)
Lemma for_nothing {St} (n : Z) (body : Z → M St unit) (s : St) :
  (∀ i s, 0 ≤ i < n → body i s = Ok (tt, s, [])) →
  for_ n body s = Ok (tt, s, []).
Proof.
  intros Hb. apply iterate_nothing. intros i s' Hi%elem_of_seqZ.
  apply Hb. lia.
Qed.


Lemma iterate_unchanged {St X} (body : Z → X → M St X) (l : list Z)
    (acc : X) (s : St) :
  (∀ i, i ∈ l → body i acc s = Ok (acc, s, [])) →
  iterate body l acc s = Ok (acc, s, []).
Proof.
  induction l as [|i l IH]; intros Hb; [done|]. simpl.
  eapply bind_ok_nil; [apply Hb; by left|].
  apply IH. intros j Hj. apply Hb. by right.
Qed.

Lemma for_acc_unchanged {St X} (n : Z) (body : Z → X → M St X)
    (acc : X) (s : St) :
  (∀ i, 0 ≤ i < n → body i acc s = Ok (acc, s, [])) →
  for_acc n body acc s = Ok (acc, s, []).
Proof.
  intros Hb. apply iterate_unchanged. intros i Hi%elem_of_seqZ.
  apply Hb. lia.
Qed.







Lemma student_conv_no_first_pointer {scalars : Scalars} (omp : bool)
    (image : tensor3 float) (kernels : tensor4 int16) (output : shape3)
    (width height nchannels nkernels kernel_order : Z) (out0 : list float) :
  s4_0 (t4_shape kernels) ≤ 0 ∨ s4_1 (t4_shape kernels) ≤ 0
  ∨ s4_2 (t4_shape kernels) ≤ 0 ∨ s3_0 output ≤ 0 ∨ s3_1 output ≤ 0 →
  student_conv omp image kernels output
    width height nchannels nkernels kernel_order out0 = Undefined.
Proof.
  intros Hd. unfold student_conv, bind, first_element4, first_element3.
  destruct (Z.ltb_spec 0 (s4_0 (t4_shape kernels))); [|done].
  destruct (Z.ltb_spec
              0 (s4_0 (t4_shape kernels) * s4_1 (t4_shape kernels)));
    [|done].
  destruct (Z.ltb_spec
              0 (s4_0 (t4_shape kernels) * s4_1 (t4_shape kernels)
                 * s4_2 (t4_shape kernels))); [|done].
  simpl.
  destruct (Z.ltb_spec 0 (s3_0 output)); [|done].
  destruct (Z.ltb_spec 0 (s3_0 output * s3_1 output)); [|done].
  exfalso. nia.
Qed.

(** X13.  [student_conv] reads [***kernels] and [**output] before
    its loops: when the kernels have no first element pointer (no kernel,
    no channel or kernel order 0) or the output has none (no kernel or no
    column), its behaviour is undefined, whatever the other arguments,
    also when there is no cell to compute. *)
Theorem student_conv_reads_first_pointers {scalars : Scalars} (omp : bool)
    (image : tensor3 float) (kernels : tensor4 int16) (output : shape3)
    (width height nchannels nkernels kernel_order : Z) (out0 : list float) :
  s4_0 (t4_shape kernels) ≤ 0 ∨ s4_1 (t4_shape kernels) ≤ 0
  ∨ s4_2 (t4_shape kernels) ≤ 0 ∨ s3_0 output ≤ 0 ∨ s3_1 output ≤ 0 →
  student_conv omp image kernels output
    width height nchannels nkernels kernel_order out0 = Undefined.
Proof. apply student_conv_no_first_pointer. Qed.

Lemma student_conv_reads_first_pointers_witness :
  student_conv (scalars := IEEE.scalars) true
    (Tensor3 (Shape3 4 4 1) (replicate 16 (IEEE.F 1)))
    (Tensor4 (Shape4 0 1 3 3) []) (Shape3 0 1 1) 1 1 1 0 3 []
  = Undefined.
Proof.
  apply (student_conv_reads_first_pointers (scalars := IEEE.scalars)).
  simpl. lia.
Defined.

Section OutOfBounds.
Context {scalars : Scalars}.
Variables (image : tensor3 float) (kernels : tensor4 int16) (output : shape3).
Variables (W H C M K : Z).

Lemma avoids_abort_window (m w h c : Z) (sum : double) :
  avoids (S := list float) Abort
    (for_acc K (λ x sum,
       for_acc K (λ y sum,
         a <- load3 Image image (w + x) (h + y) c ;;
         k <- load4 Kernels kernels m c x y ;;
         ret (mac sum a k)) sum) sum).
Proof using Type.
  apply avoids_for_acc. intros x s1 _. apply avoids_for_acc. intros y s2 _.
  apply avoids_bind; [apply avoids_abort_load3|]. intros a.
  apply avoids_bind; [apply avoids_abort_load4|]. intros k.
  apply avoids_ret.
Qed.

Lemma avoids_abort_reference_cell (m w h : Z) :
  avoids Abort
    (_ <- for_acc C (λ c sum,
            sum <- for_acc K (λ x sum,
                     for_acc K (λ y sum,
                       a <- load3 Image image (w + x) (h + y) c ;;
                       k <- load4 Kernels kernels m c x y ;;
                       ret (mac sum a k)) sum) sum ;;
            store3 Output output m w h (float_of_double sum) ;;;
            ret sum) d0 ;;
     ret tt).
Proof using Type.
  apply avoids_bind; [|intros; apply avoids_ret].
  apply avoids_for_acc. intros c sum _.
  apply avoids_bind; [apply avoids_abort_window|]. intros s.
  apply avoids_bind; [apply avoids_abort_store3|]. intros _.
  apply avoids_ret.
Qed.

Lemma avoids_abort_multichannel_conv :
  avoids Abort (multichannel_conv image kernels output W H C M K).
Proof using Type.
  unfold multichannel_conv. apply avoids_for. intros m _.
  apply avoids_for. intros w _. apply avoids_for. intros h _.
  apply avoids_abort_reference_cell.
Qed.

Lemma multichannel_conv_ends_in_ub (m w h c x y : Z) :
  0 ≤ m < M → 0 ≤ w < W → 0 ≤ h < H → 0 ≤ c < C → 0 ≤ x < K → 0 ≤ y < K →
  ¬ readable3 image (w + x) (h + y) c →
  ends_in UB (multichannel_conv image kernels output W H C M K).
Proof using Type.
  intros Hm Hw Hh Hc Hx Hy Hnr. unfold multichannel_conv.
  apply (ends_in_for UB Abort M _ m); [done|done| |].
  - apply (ends_in_for UB Abort W _ w); [done|done| |].
    + apply (ends_in_for UB Abort H _ h); [done|done| |].
      * apply ends_in_bind.
        apply (ends_in_for_acc UB Abort C _ c); [done|done| |].
        -- intros sum. apply ends_in_bind.
           apply (ends_in_for_acc UB Abort K _ x); [done|done| |].
           ++ intros s1.
              apply (ends_in_for_acc UB Abort K _ y); [done|done| |].
              ** intros s2. by apply ends_in_bind, ends_in_ub_load3.
              ** intros y' s2 _.
                 apply avoids_bind; [apply avoids_abort_load3|]. intros a.
                 apply avoids_bind; [apply avoids_abort_load4|]. intros k.
                 apply avoids_ret.
           ++ intros x' s1 _. apply avoids_for_acc. intros y' s2 _.
              apply avoids_bind; [apply avoids_abort_load3|]. intros a.
              apply avoids_bind; [apply avoids_abort_load4|]. intros k.
              apply avoids_ret.
        -- intros c' sum _.
           apply avoids_bind; [apply avoids_abort_window|]. intros s.
           apply avoids_bind; [apply avoids_abort_store3|]. intros _.
           apply avoids_ret.
      * intros h' _. apply avoids_abort_reference_cell.
    + intros w' _. apply avoids_for. intros h' _.
      apply avoids_abort_reference_cell.
  - intros m' _. apply avoids_for. intros w' _. apply avoids_for.
    intros h' _. apply avoids_abort_reference_cell.
Qed.

Variable kernel_pointer : list int16.

Ltac loads :=
  repeat first
    [ apply avoids_ret
    | apply avoids_bind;
        [first [apply avoids_abort_load3 | apply avoids_abort_load_flat]
        |intros ?] ].

Lemma avoids_abort_channel (omp : bool) (w h c c_index : Z) (sum : double) :
  avoids (S := list float) Abort
    (channel omp image kernel_pointer K w h c c_index sum).
Proof using Type.
  unfold channel, order1, order3, order5, order7.
  repeat case_match; try apply avoids_ret.
  - apply avoids_bind; [|intros; apply avoids_ret].
    apply avoids_for. intros x _. loads.
  - apply avoids_for_acc. intros x s _. loads.
  - apply avoids_for_acc. intros x s _. cbv zeta. loads.
  - apply avoids_for_acc. intros x s _. cbv zeta. loads.
  - apply avoids_for_acc. intros x s _. cbv zeta. loads.
Qed.

(** the first read of an element that does not exist: what comes before
    are reads, which do not abort *)
Ltac first_bad_load Hnr :=
  repeat first
    [ apply ends_in_bind, ends_in_ub_load3; exact Hnr
    | apply (ends_in_then UB Abort);
        [done
        |first [apply avoids_abort_load3 | apply avoids_abort_load_flat]
        |intros ?] ].

Lemma channel_ends_in_ub (omp : bool) (w h c c_index x y : Z) (sum : double) :
  K = 1 ∨ K = 3 ∨ K = 5 ∨ K = 7 →
  0 ≤ x < K → 0 ≤ y < K →
  ¬ readable3 image (w + x) (h + y) c →
  ends_in (S := list float) UB
    (channel omp image kernel_pointer K w h c c_index sum).
Proof using Type.
  intros HK Hx Hy Hnr. unfold channel.
  destruct HK as [HK|[HK|[HK|HK]]]; rewrite HK in *; simpl.
  - assert (y = 0) as -> by lia. rewrite Z.add_0_r in Hnr.
    unfold order1. destruct omp.
    + apply ends_in_bind.
      apply (ends_in_for UB Abort 1 _ x); [done|done| |].
      * first_bad_load Hnr.
      * intros x' _. loads.
    + apply (ends_in_for_acc UB Abort 1 _ x); [done|done| |].
      * intros s. first_bad_load Hnr.
      * intros x' s _. loads.
  - unfold order3.
    apply (ends_in_for_acc UB Abort 3 _ x); [done|done| |].
    + intros s. cbv zeta.
      assert (y = 0 ∨ y = 1 ∨ y = 2) as [->|[->| ->]] by lia;
        rewrite ?Z.add_0_r in Hnr; first_bad_load Hnr.
    + intros x' s _. cbv zeta. loads.
  - unfold order5.
    apply (ends_in_for_acc UB Abort 5 _ x); [done|done| |].
    + intros s. cbv zeta.
      assert (y = 0 ∨ y = 1 ∨ y = 2 ∨ y = 3 ∨ y = 4)
        as [->|[->|[->|[->| ->]]]] by lia;
        rewrite ?Z.add_0_r in Hnr; first_bad_load Hnr.
    + intros x' s _. cbv zeta. loads.
  - unfold order7.
    apply (ends_in_for_acc UB Abort 7 _ x); [done|done| |].
    + intros s. cbv zeta.
      assert (y = 0 ∨ y = 1 ∨ y = 2 ∨ y = 3 ∨ y = 4 ∨ y = 5 ∨ y = 6)
        as [->|[->|[->|[->|[->|[->| ->]]]]]] by lia;
        rewrite ?Z.add_0_r in Hnr; first_bad_load Hnr.
    + intros x' s _. cbv zeta. loads.
Qed.
End OutOfBounds.

Lemma avoids_abort_first_element4 {A St} (t : tensor4 A) :
  avoids (S := St) Abort (first_element4 t).
Proof. intros s. unfold first_element4. by destruct (_ && _). Qed.

Lemma avoids_abort_first_element3 {A} (o : shape3) :
  avoids (S := list A) Abort (first_element3 o).
Proof. intros s. unfold first_element3. by destruct (_ && _). Qed.

Lemma student_conv_ends_in_ub {scalars : Scalars} (omp : bool)
    (image : tensor3 float) (kernels : tensor4 int16) (output : shape3)
    (W H C M K m w h c x y : Z) :
  K = 1 ∨ K = 3 ∨ K = 5 ∨ K = 7 →
  0 ≤ m < M → 0 ≤ w < W → 0 ≤ h < H → 0 ≤ c < C → 0 ≤ x < K → 0 ≤ y < K →
  ¬ readable3 image (w + x) (h + y) c →
  ends_in UB (student_conv omp image kernels output W H C M K).
Proof.
  intros HK Hm Hw Hh Hc Hx Hy Hnr. unfold student_conv.
  apply (ends_in_then UB Abort);
    [done|apply avoids_abort_first_element4|]. intros kernel_pointer.
  apply (ends_in_then UB Abort);
    [done|apply avoids_abort_first_element3|]. intros _. cbv zeta.
  destruct (data_race omp M W H); [done|].
  assert (Hcell : ∀ m w h,
    avoids Abort
      (sum <- for_acc C (λ c sum,
                channel omp image kernel_pointer K w h c
                  (c * (K * K) + m * (K * K * C)) sum) d0 ;;
       store_flat Output (h + (w * H + m * (W * H))) (float_of_double sum))).
  { intros. apply avoids_bind.
    - apply avoids_for_acc. intros. apply avoids_abort_channel.
    - intros. apply avoids_abort_store_flat. }
  apply (ends_in_for UB Abort M _ m); [done|done| |].
  - apply (ends_in_for UB Abort W _ w); [done|done| |].
    + apply (ends_in_for UB Abort H _ h); [done|done| |].
      * apply ends_in_bind.
        apply (ends_in_for_acc UB Abort C _ c); [done|done| |].
        -- intros sum. by apply (channel_ends_in_ub _ _ _ _ _ _ _ _ x y).
        -- intros. apply avoids_abort_channel.
      * intros. apply Hcell.
    + intros. apply avoids_for. intros. apply Hcell.
  - intros. apply avoids_for. intros. apply avoids_for. intros. apply Hcell.
Qed.

(** X14.  The image must reach beyond the output by the kernel:
    when some element of the window of a cell does not exist in the
    image, the behaviour of both convolutions is undefined, whatever the
    data. *)
Theorem window_outside_image {scalars : Scalars} (omp : bool)
    (image : tensor3 float) (kernels : tensor4 int16) (output : shape3)
    (width height nchannels nkernels kernel_order : Z) (out0 : list float)
    (m w h c x y : Z) :
  kernel_order = 1 ∨ kernel_order = 3 ∨ kernel_order = 5
  ∨ kernel_order = 7 →
  0 ≤ m < nkernels → 0 ≤ w < width → 0 ≤ h < height → 0 ≤ c < nchannels →
  0 ≤ x < kernel_order → 0 ≤ y < kernel_order →
  ¬ readable3 image (w + x) (h + y) c →
  multichannel_conv image kernels output
    width height nchannels nkernels kernel_order out0 = Undefined
  ∧ student_conv omp image kernels output
      width height nchannels nkernels kernel_order out0 = Undefined.
Proof.
  intros HK Hm Hw Hh Hc Hx Hy Hnr. split.
  - by apply (multichannel_conv_ends_in_ub image kernels output
                width height nchannels nkernels kernel_order m w h c x y).
  - by apply (student_conv_ends_in_ub omp image kernels output
                width height nchannels nkernels kernel_order m w h c x y).
Qed.

Lemma window_outside_image_witness :
  multichannel_conv (scalars := IEEE.scalars)
    (Tensor3 (Shape3 1 1 1) [IEEE.F 1]) Scenario.ones_kernels
    (Shape3 1 1 1) 1 1 1 1 3 [IEEE.F 0] = Undefined
  ∧ student_conv (scalars := IEEE.scalars) true
      (Tensor3 (Shape3 1 1 1) [IEEE.F 1])
      Scenario.ones_kernels (Shape3 1 1 1) 1 1 1 1 3 [IEEE.F 0]
    = Undefined.
Proof.
  apply (window_outside_image (scalars := IEEE.scalars) true
           (Tensor3 (Shape3 1 1 1) [IEEE.F 1]) Scenario.ones_kernels
           (Shape3 1 1 1) 1 1 1 1 3 [IEEE.F 0] 0 0 0 0 1 0);
    [auto|lia..|].
  intros (f & Hf & Hr). vm_compute in Hf. discriminate.
Defined.

(** X15.  [multichannel_conv] stores a cell after each channel
    and nowhere else: without a channel (nchannels <= 0) it stores
    nothing, and the output block keeps what it held before the call
    instead of receiving 0.0. *)
Theorem multichannel_conv_without_channels {scalars : Scalars}
    (image : tensor3 float) (kernels : tensor4 int16) (output : shape3)
    (width height nchannels nkernels kernel_order : Z) (out0 : list float) :
  nchannels ≤ 0 →
  multichannel_conv image kernels output
    width height nchannels nkernels kernel_order out0 = Ok (tt, out0, []).
Proof.
  intros HC. unfold multichannel_conv.
  apply for_nothing. intros m s1 _. apply for_nothing. intros w s2 _.
  apply for_nothing. intros h s3 _.
  eapply bind_ok_nil; [|reflexivity].
  apply for_acc_unchanged. intros c Hc. lia.
Qed.

Lemma multichannel_conv_without_channels_witness :
  multichannel_conv (scalars := IEEE.scalars)
    (Tensor3 (Shape3 4 4 0) []) (Tensor4 (Shape4 1 0 3 3) [])
    (Shape3 1 1 1) 1 1 0 1 3 [IEEE.F 5] = Ok (tt, [IEEE.F 5], []).
Proof.
  apply (multichannel_conv_without_channels (scalars := IEEE.scalars)
           (Tensor3 (Shape3 4 4 0) []) (Tensor4 (Shape4 1 0 3 3) [])
           (Shape3 1 1 1) 1 1 0 1 3 [IEEE.F 5]).
  lia.
Defined.

(** ** More about the checker *)

Section Symmetry.
Import IEEE.

Lemma SFabs_opp (x : spec_float) : SFabs (SFopp x) = SFabs x.
Proof. by destruct x. Qed.

(** the sign passed to the rounding only signs the result *)
Lemma round_sign (prec emax : Z) (p : positive) (e : Z) :
  binary_round prec emax true p e = SFopp (binary_round prec emax false p e).
Proof.
  unfold binary_round. destruct (shl_align _ _ _) as [mz ez].
  unfold binary_round_aux. destruct (shr_fexp _ _ _ _ _) as [mrs' e'].
  destruct (shr_fexp _ _ _ _ _) as [mrs'' e''].
  destruct (shr_m mrs''); [done| |done]. by destruct (_ <=? _).
Qed.

Lemma abs_normalize_opp (prec emax m e : Z) (z z' : bool) :
  SFabs (binary_normalize prec emax (- m) e z)
  = SFabs (binary_normalize prec emax m e z').
Proof.
  destruct m as [|p|p]; simpl; [done| |].
  - by rewrite round_sign, SFabs_opp.
  - by rewrite round_sign, SFabs_opp.
Qed.

Lemma abs_convert (round : Z → Z → bool → spec_float) (x y : spec_float) :
  (∀ m e z z', SFabs (round (- m) e z) = SFabs (round m e z')) →
  SFabs x = SFabs y →
  SFabs (convert round x) = SFabs (convert round y).
Proof.
  intros Hr. destruct x as [sx|sx| |sx mx ex], y as [sy|sy| |sy my ey];
    try done.
  simpl. intros [= -> ->].
  destruct sx, sy; simpl; first [done | apply (Hr (Z.pos my))
                                | symmetry; apply (Hr (Z.pos my))].
Qed.

Lemma abs_sub (a b : spec_float) :
  SFabs (SFsub 24 128 a b) = SFabs (SFsub 24 128 b a).
Proof.
  destruct a as [sa|sa| |sa ma ea], b as [sb|sb| |sb mb eb];
    try done; try by destruct sa, sb.
  unfold SFsub. rewrite (Z.min_comm eb ea).
  set (ez := Z.min ea eb).
  set (A := cond_Zopp sa (Z.pos (fst (shl_align ma ea ez)))).
  set (B := cond_Zopp sb (Z.pos (fst (shl_align mb eb ez)))).
  replace (A - B) with (- (B - A)) by lia.
  apply abs_normalize_opp.
Qed.

(** [fabs(c - r)] is [fabs(r - c)] *)
Lemma abs_diff_sym (c r : spec_float) :
  fabs (double_of_float (fsub c r)) = fabs (double_of_float (fsub r c)).
Proof.
  apply abs_convert; [|apply abs_sub].
  intros m e z z'. apply abs_normalize_opp.
Qed.
End Symmetry.

Lemma returned_bind {St X Y} (m m' : M St X) (k k' : X → M St Y)
    (s s' : St) :
  returned (m s) = returned (m' s') →
  (∀ x s1 s1', returned (k x s1) = returned (k' x s1')) →
  returned (bind m k s) = returned (bind m' k' s').
Proof.
  intros Hm Hk. unfold bind.
  destruct (m s) as [| |[[x s1] l1]], (m' s') as [| |[[x' s1'] l1']];
    try done.
  injection Hm as ->. specialize (Hk x' s1 s1').
  by destruct (k x' s1) as [| |[[y s2] l2]],
       (k' x' s1') as [| |[[y' s2'] l2']].
Qed.

Lemma returned_iterate {St X} (body body' : Z → X → M St X) (l : list Z) :
  (∀ i acc s s', i ∈ l →
     returned (body i acc s) = returned (body' i acc s')) →
  ∀ acc s s',
    returned (iterate body l acc s) = returned (iterate body' l acc s').
Proof.
  induction l as [|i l IH]; intros Hb acc s s'; [done|]. simpl.
  apply returned_bind.
  - apply Hb. by left.
  - intros x s1 s1'. apply IH. intros j a t t' Hj. apply Hb. by right.
Qed.

Lemma returned_for_acc {St X} (n : Z) (body body' : Z → X → M St X)
    (acc : X) (s s' : St) :
  (∀ i acc s s', 0 ≤ i < n →
     returned (body i acc s) = returned (body' i acc s')) →
  returned (for_acc n body acc s) = returned (for_acc n body' acc s').
Proof.
  intros Hb. apply returned_iterate. intros i a t t' Hi%elem_of_seqZ.
  apply Hb. lia.
Qed.

(** reading two elements in either order *)
Lemma returned_two_loads {St A Y} (id1 id2 id1' id2' : tensor_id)
    (t u : tensor3 A) (i j k : Z) (f f' : A → A → M St Y) (s s' : St) :
  (∀ c r s1 s1', returned (f c r s1) = returned (f' r c s1')) →
  returned ((c <- load3 id1 t i j k ;; r <- load3 id2 u i j k ;; f c r) s)
  = returned ((c <- load3 id1' u i j k ;; r <- load3 id2' t i j k ;; f' c r)
                s').
Proof.
  intros Hf. unfold bind, load3, load_flat.
  destruct (index3 (t3_shape t) i j k) as [p|],
    (index3 (t3_shape u) i j k) as [q|]; simpl; try done.
  - destruct (0 <=? p), (0 <=? q); simpl; try done.
    + destruct (t3_data t !! Z.to_nat p) as [c|],
        (t3_data u !! Z.to_nat q) as [r|]; simpl; try done.
      specialize (Hf c r s s').
      by destruct (f c r s) as [| |[[y s2] l2]],
           (f' r c s') as [| |[[y' s2'] l2']].
    + by destruct (t3_data t !! Z.to_nat p).
    + by destruct (t3_data u !! Z.to_nat q).
  - destruct (0 <=? p); [|done]. by destruct (t3_data t !! Z.to_nat p).
  - destruct (0 <=? q); [|done]. by destruct (t3_data u !! Z.to_nat q).
Qed.

(** X16.  [check_result] treats its two tensors alike: exchanging the
    result and the control changes neither the sum it reports, nor the
    classification, nor whether it aborts or reads outside a tensor. *)
Theorem check_result_symmetric (result control : tensor3 IEEE.scalars.(float))
    (dim0 dim1 dim2 : Z) :
  returned (check_result result control dim0 dim1 dim2 tt)
  = returned (check_result control result dim0 dim1 dim2 tt).
Proof.
  unfold check_result. apply returned_bind; [|done].
  apply returned_for_acc. intros i a s s' Hi.
  apply returned_for_acc. intros j b t t' Hj.
  apply returned_for_acc. intros k c u u' Hk.
  apply returned_two_loads. intros x y s1 s1'.
  rewrite (abs_diff_sym x y).
  by destruct (d_ge (fabs (double_of_float (fsub y x))) d0).
Qed.

Lemma ends_in_after {St X Y} φ f (m : M St X) (k : X → M St Y) (v : X) :
  evals φ m v → ends_in f (k v) → ends_in f (bind m k).
Proof.
  intros Hm Hk s. destruct (Hm s) as (l & E & _).
  unfold bind. rewrite E, Hk. by destruct f.
Qed.

Lemma avoids_ub_assert {St} (b : bool) : avoids (S := St) UB (assert_ b).
Proof. intros s. unfold assert_. by destruct b. Qed.

Section Aborting.
Import IEEE.
Variables (result control : tensor3 float) (dim0 dim1 dim2 : Z).
Hypothesis readable :
  ∀ i j k, 0 ≤ i < dim0 → 0 ≤ j < dim1 → 0 ≤ k < dim2 →
    readable3 control i j k ∧ readable3 result i j k.

Lemma avoids_ub_difference (i j k : Z) (sum_abs_diff : double) :
  0 ≤ i < dim0 → 0 ≤ j < dim1 → 0 ≤ k < dim2 →
  avoids (S := unit) UB
    (c <- load3 Control control i j k ;;
     r <- load3 Result result i j k ;;
     let diff := fabs (double_of_float (fsub c r)) in
     assert_ (d_ge diff d0) ;;;
     ret (dadd sum_abs_diff diff)).
Proof using readable.
  intros Hi Hj Hk. destruct (readable i j k Hi Hj Hk) as [Hc Hr].
  apply avoids_bind; [by apply avoids_ub_load3|]. intros c.
  apply avoids_bind; [by apply avoids_ub_load3|]. intros r.
  apply avoids_bind; [apply avoids_ub_assert|]. intros _.
  apply avoids_ret.
Qed.

Lemma check_result_ends_in_abort (i j k : Z) :
  0 ≤ i < dim0 → 0 ≤ j < dim1 → 0 ≤ k < dim2 →
  is_nan (abs_diff result control i j k) = true →
  ends_in Abort (check_result result control dim0 dim1 dim2).
Proof using readable.
  intros Hi Hj Hk Hnan. unfold check_result. apply ends_in_bind.
  apply (ends_in_for_acc Abort UB dim0 _ i); [done|done| |].
  - intros a.
    apply (ends_in_for_acc Abort UB dim1 _ j); [done|done| |].
    + intros b.
      apply (ends_in_for_acc Abort UB dim2 _ k); [done|done| |].
      * intros c. destruct (readable i j k Hi Hj Hk) as [Hc Hr].
        eapply ends_in_after;
          [by apply (evals_load3 (λ _, True) Control f0)|].
        eapply ends_in_after;
          [by apply (evals_load3 (λ _, True) Result f0)|].
        cbv zeta. apply ends_in_bind.
        unfold abs_diff in Hnan. intros s. unfold assert_.
        by destruct (fabs _) as [?|?| |[] ? ?].
      * intros k' c Hk'. by apply avoids_ub_difference.
    + intros j' b Hj'. apply avoids_for_acc. intros k' c Hk'.
      by apply avoids_ub_difference.
  - intros i' a Hi'. apply avoids_for_acc. intros j' b Hj'.
    apply avoids_for_acc. intros k' c Hk'. by apply avoids_ub_difference.
Qed.
End Aborting.

(** X17.  [check_result] aborts as soon as one difference is NaN (the
    two tensors hold the same infinity in a cell, or one of them holds a
    NaN): for two tensors of the dimensions passed, if the difference of
    some cell is NaN the assertion fails and nothing is reported. *)
Theorem check_result_aborts_on_nan
    (result control : tensor3 IEEE.scalars.(float))
    (dim0 dim1 dim2 i j k : Z) :
  t3_shape result = Shape3 dim0 dim1 dim2 →
  t3_shape control = Shape3 dim0 dim1 dim2 →
  Z.of_nat (length (t3_data result)) = size3 (t3_shape result) →
  Z.of_nat (length (t3_data control)) = size3 (t3_shape control) →
  0 ≤ i < dim0 → 0 ≤ j < dim1 → 0 ≤ k < dim2 →
  IEEE.is_nan (abs_diff result control i j k) = true →
  check_result result control dim0 dim1 dim2 tt = Aborted.
Proof.
  intros Hrs Hcs Hrd Hcd Hi Hj Hk Hnan.
  apply (check_result_ends_in_abort result control dim0 dim1 dim2)
    with (i := i) (j := j) (k := k); [|done..].
  intros i' j' k' Hi' Hj' Hk'. split; by eapply readable3_in.
Qed.

Lemma check_result_aborts_on_nan_witness :
  check_result (scalars := IEEE.scalars)
    (Tensor3 (Shape3 1 1 2) [IEEE.F 1; S754_infinity true])
    (Tensor3 (Shape3 1 1 2) [IEEE.F 2; S754_infinity true]) 1 1 2 tt
  = Aborted.
Proof.
  apply (check_result_aborts_on_nan
           (Tensor3 (Shape3 1 1 2) [IEEE.F 1; S754_infinity true])
           (Tensor3 (Shape3 1 1 2) [IEEE.F 2; S754_infinity true])
           1 1 2 0 0 1); first [reflexivity | lia].
Defined.

Lemma check_result_nothing (result control : tensor3 IEEE.scalars.(float))
    (dim0 dim1 dim2 : Z) :
  dim0 ≤ 0 ∨ dim1 ≤ 0 ∨ dim2 ≤ 0 →
  check_result result control dim0 dim1 dim2 tt
  = Ok (COMMENT (S754_zero false), tt, []).
Proof.
  intros Hd. unfold check_result.
  eapply bind_ok_nil.
  { apply for_acc_unchanged. intros i Hi.
    apply for_acc_unchanged. intros j Hj.
    apply for_acc_unchanged. intros k Hk. lia. }
  reflexivity.
Qed.

(** X18.  With a dimension that is not positive [check_result]
    compares nothing: it reads no element and reports a sum of 0.0 as
    acceptable, whatever the two tensors hold. *)
Theorem check_result_without_cells
    (result control : tensor3 IEEE.scalars.(float)) (dim0 dim1 dim2 : Z) :
  dim0 ≤ 0 ∨ dim1 ≤ 0 ∨ dim2 ≤ 0 →
  check_result result control dim0 dim1 dim2 tt
  = Ok (COMMENT (S754_zero false), tt, []).
Proof. apply check_result_nothing. Qed.

Lemma check_result_without_cells_witness :
  check_result (scalars := IEEE.scalars)
    (Tensor3 (Shape3 1 1 1) [IEEE.F 1])
    (Tensor3 (Shape3 1 1 1) [S754_nan]) 1 0 1 tt
  = Ok (COMMENT (S754_zero false), tt, []).
Proof.
  apply (check_result_without_cells (Tensor3 (Shape3 1 1 1) [IEEE.F 1])
           (Tensor3 (Shape3 1 1 1) [S754_nan]) 1 0 1).
  lia.
Defined.

(** ** More about the driver *)

Section Exit.
Context {scalars : Scalars}.
Variables (omp : bool) (random_image random_kernels : nat → Z).
Variables (junk_output junk_control : nat → float).

(** X19.  Whenever [main] returns, its exit status is 1 after a
    single message (the usage when argc is not 6, the fatal error when the
    kernel order is not 1, 3, 5 or 7) and before any convolution, or 0
    after both convolutions and the check: a WARNING of the checker leaves
    the exit status 0. *)
Theorem main_exit_status
    (argc width height kernel_order nchannels nkernels status : Z)
    (events : list (event double)) :
  main omp random_image random_kernels junk_output junk_control
       argc width height kernel_order nchannels nkernels
  = Ok (status, events) →
  (status = 1
   ∧ (argc ≠ 6 ∧ events = [USAGE]
      ∨ argc = 6
        ∧ ¬ (kernel_order = 1 ∨ kernel_order = 3 ∨ kernel_order = 5
             ∨ kernel_order = 7)
        ∧ events = [FATAL kernel_order]))
  ∨ (status = 0 ∧ argc = 6
     ∧ (kernel_order = 1 ∨ kernel_order = 3 ∨ kernel_order = 5
        ∨ kernel_order = 7)
     ∧ ∃ v, events = [CONTROL_CONV; STUDENT_CONV; CHECK v]).
Proof using Type.
  unfold main. destruct (Z.eqb_spec argc 6) as [Hargc|Hargc]; simpl.
  2: { intros [= <- <-]. left. split; [done|]. by left. }
  destruct (Z.eqb_spec kernel_order 1) as [H1|H1];
    [|destruct (Z.eqb_spec kernel_order 3) as [H3|H3];
      [|destruct (Z.eqb_spec kernel_order 5) as [H5|H5];
        [|destruct (Z.eqb_spec kernel_order 7) as [H7|H7]]]]; simpl.
  5: { intros [= <- <-]. left. split; [done|]. right.
       split; [done|]. split; [lia|done]. }
  all: destruct (is_int _ && is_int _); simpl; [|done].
  all: repeat match goal with
         | |- context [rbind ?x _] => destruct x; simpl; try done
         end.
  all: match goal with
       | |- context [check_result ?r ?c ?a ?b ?d tt] =>
           destruct (check_result r c a b d tt) as [| |[[v []] l]];
             try done
       end.
  all: intros [= <- <-]; right; split; [done|]; split; [done|];
         split; [auto|by eexists].
Qed.
End Exit.

Lemma main_exit_status_witness :
  (0 = 1
   ∧ (6 ≠ 6 ∧ [CONTROL_CONV; STUDENT_CONV;
               CHECK (WARNING (IEEE.D 3087))] = [USAGE]
      ∨ 6 = 6
        ∧ ¬ (1 = 1 ∨ 1 = 3 ∨ 1 = 5 ∨ 1 = 7)
        ∧ [CONTROL_CONV; STUDENT_CONV; CHECK (WARNING (IEEE.D 3087))]
          = [FATAL 1]))
  ∨ (0 = 0 ∧ 6 = 6
     ∧ (1 = 1 ∨ 1 = 3 ∨ 1 = 5 ∨ 1 = 7)
     ∧ ∃ v, [CONTROL_CONV; STUDENT_CONV; CHECK (WARNING (IEEE.D 3087))]
            = [CONTROL_CONV; STUDENT_CONV; CHECK v]).
Proof.
  apply (main_exit_status (scalars := IEEE.scalars) true (λ _, 5) (λ _, 3)
           (λ _, IEEE.F 0) (λ _, IEEE.F 0) 6 1 1 1 1 1 0
           [CONTROL_CONV; STUDENT_CONV; CHECK (WARNING (IEEE.D 3087))]).
  vm_compute. reflexivity.
Defined.

Section Driver.
Import IEEE Statement.
Variables (omp : bool) (random_image random_kernels : nat → Z).
Variables (junk_output junk_control : nat → float).
Variables (width height kernel_order nchannels nkernels : Z).

Lemma new_empty_4d_matrix_ok {A} (junk : nat → A) (dim0 dim1 dim2 dim3 : Z) :
  0 ≤ dim0 * dim1 ≤ INT_MAX → 0 ≤ dim0 * dim1 * dim2 ≤ INT_MAX →
  0 ≤ dim0 * dim1 * dim2 * dim3 ≤ INT_MAX →
  new_empty_4d_matrix junk dim0 dim1 dim2 dim3
  = Ok (Tensor4 (Shape4 dim0 dim1 dim2 dim3)
                (block junk (dim0 * dim1 * dim2 * dim3))).
Proof using Type.
  intros H1 H2 H3. unfold new_empty_4d_matrix.
  by rewrite !is_int_nonneg.
Qed.

(** the tensors [main] allocates *)
Local Abbreviation image :=
  (Tensor3 (Shape3 (width + kernel_order) (height + kernel_order) nchannels)
     (block (λ n, float_of_int
                    (Z.rem (random_image n) (Z.shiftl 1 12) + Z.shiftl 1 10))
            (1 * (width + kernel_order) * (height + kernel_order)
             * nchannels))).
Local Abbreviation kernels :=
  (Tensor4 (Shape4 nkernels nchannels kernel_order kernel_order)
     (block (λ n, int16_of_int (Z.rem (random_kernels n) (Z.shiftl 1 10)))
            (nkernels * nchannels * kernel_order * kernel_order))).
Local Abbreviation output_block :=
  (block junk_output (1 * nkernels * width * height)).
Local Abbreviation control_block :=
  (block junk_control (1 * nkernels * width * height)).

Hypothesis order : kernel_order = 1 ∨ kernel_order = 3 ∨ kernel_order = 5
                   ∨ kernel_order = 7.

Lemma order_accepted :
  (kernel_order =? 1) || (kernel_order =? 3)
  || (kernel_order =? 5) || (kernel_order =? 7) = true.
Proof using order. destruct order as [->|[->|[->| ->]]]; done. Qed.

(** [main] after the checks of its arguments, when the sizes of the
    tensors are ints *)
Lemma main_allocated :
  0 < width → 0 ≤ height → 0 < nchannels → 0 < nkernels →
  (width + kernel_order) * (height + kernel_order) * nchannels ≤ INT_MAX →
  nkernels * nchannels * kernel_order * kernel_order ≤ INT_MAX →
  nkernels * width ≤ INT_MAX → nkernels * width * height ≤ INT_MAX →
  main omp random_image random_kernels junk_output junk_control
       6 width height kernel_order nchannels nkernels
  = rbind (run (multichannel_conv image kernels
                  (Shape3 nkernels width height)
                  width height nchannels nkernels kernel_order)
               control_block) (λ control_block',
    rbind (run (student_conv omp image kernels
                  (Shape3 nkernels width height)
                  width height nchannels nkernels kernel_order)
               output_block) (λ output_block',
    match check_result
            (Tensor3 (Shape3 nkernels width height) output_block')
            (Tensor3 (Shape3 nkernels width height) control_block')
            nkernels width height tt with
    | Ok (v, _, _) => Ok (0, [CONTROL_CONV; STUDENT_CONV; CHECK v])
    | Aborted => Aborted
    | Undefined => Undefined
    end)).
Proof using order.
  intros HW HH HC HM Si Sk So1 So. unfold main.
  rewrite order_accepted. simpl.
  assert (HK : 0 < kernel_order) by (destruct order as [->|[->|[->| ->]]]; lia).
  assert (Hi1 : 0 < (width + kernel_order) * (height + kernel_order))
    by nia.
  assert (Hi2 : (width + kernel_order) * (height + kernel_order)
                ≤ (width + kernel_order) * (height + kernel_order)
                  * nchannels) by nia.
  assert (Hi0 : width + kernel_order
                ≤ (width + kernel_order) * (height + kernel_order)) by nia.
  assert (Hi3 : height + kernel_order
                ≤ (width + kernel_order) * (height + kernel_order)) by nia.
  assert (Hk1 : 0 < nkernels * nchannels) by nia.
  assert (Hk2 : nkernels * nchannels ≤ nkernels * nchannels * kernel_order)
    by nia.
  assert (Hk3 : nkernels * nchannels * kernel_order
                ≤ nkernels * nchannels * kernel_order * kernel_order) by nia.
  assert (Ho1 : nkernels ≤ nkernels * width) by nia.
  assert (Ho2 : 0 ≤ nkernels * width * height) by nia.
  rewrite !is_int_nonneg by lia. simpl.
  unfold gen_random_3d_matrix_float, gen_random_4d_matrix_float,
    gen_random_4d_matrix_int16, new_empty_3d_matrix.
  rewrite !new_empty_4d_matrix_ok by lia. done.
Qed.

(** X20.  A width, a number of channels or a number of kernels that
    is not positive is not rejected by [main]: with argc = 6 and a valid
    kernel order the run is undefined ([student_conv] reads a table entry
    that does not exist, when the sizes have not overflowed before). *)
Theorem main_non_positive_dimension :
  width ≤ 0 ∨ nchannels ≤ 0 ∨ nkernels ≤ 0 →
  main omp random_image random_kernels junk_output junk_control
       6 width height kernel_order nchannels nkernels = Undefined.
Proof using order.
  intros Hd. unfold main. rewrite order_accepted.
  change (6 =? 6) with true. cbn [negb].
  destruct (is_int _ && is_int _); cbn [negb]; [|done].
  unfold gen_random_3d_matrix_float, gen_random_4d_matrix_float,
    gen_random_4d_matrix_int16, new_empty_3d_matrix, new_empty_4d_matrix.
  repeat match goal with
         | |- context [is_int ?a && is_int ?b && is_int ?c] =>
             destruct (is_int a && is_int b && is_int c);
               cbn [rbind t4_data t3_shape t3_data]; try done
         end.
  unfold run at 1.
  match goal with
  | |- context [multichannel_conv ?i ?k ?o ?w ?h ?c ?m ?K ?b] =>
      pose proof (avoids_abort_multichannel_conv i k o w h c m K b) as Hna;
      destruct (multichannel_conv i k o w h c m K b) as [| |[[[] blk] l]];
        [done|done|]
  end.
  cbn [rbind]. unfold run.
  rewrite student_conv_no_first_pointer; [done|].
  cbn [t4_shape s4_0 s4_1 s4_2 s3_0 s3_1]. lia.
Qed.

End Driver.

Lemma main_non_positive_dimension_witness :
  main (scalars := IEEE.scalars) true (λ _, 5) (λ _, 3)
    (λ _, IEEE.F 0) (λ _, IEEE.F 0) 6 0 2 3 1 1 = Undefined.
Proof.
  apply (main_non_positive_dimension true (λ _, 5) (λ _, 3)
           (λ _, IEEE.F 0) (λ _, IEEE.F 0) 0 2 3 1 1); [auto|lia].
Defined.


(** X22.  On the data it generates (random() returns non-negative
    values) [main] finds the two convolutions in exact agreement: for
    positive dimensions with sizes within int, small enough for the sums
    of a cell to stay below 2^53, when the program is compiled without
    OpenMP, or run with a single kernel of order 3, 5 or 7, it exits with
    status 0 after the checker has reported a sum of absolute differences
    of 0.0, whatever malloc left in the output blocks. *)
Theorem main_reports_zero (omp : bool)
    (random_image random_kernels : nat → Z)
    (junk_output junk_control : nat → IEEE.scalars.(float))
    (width height kernel_order nchannels nkernels : Z) :
  (∀ n, 0 ≤ random_image n) → (∀ n, 0 ≤ random_kernels n) →
  0 < width → 0 < height → 0 < nchannels → 0 < nkernels →
  kernel_order = 1 ∨ kernel_order = 3 ∨ kernel_order = 5
  ∨ kernel_order = 7 →
  omp = false ∨ (nkernels = 1 ∧ kernel_order ≠ 1) →
  int_sizes width height nchannels nkernels kernel_order →
  Statement.small_sums nchannels kernel_order →
  main omp random_image random_kernels junk_output junk_control
       6 width height kernel_order nchannels nkernels
  = Ok (0, [CONTROL_CONV; STUDENT_CONV; CHECK (COMMENT (S754_zero false))]).
Proof.
  intros Hri Hrk HW HH HC HM HK Hrace (Si & Sk & So) Hs.
  assert (So1 : nkernels * width ≤ nkernels * width * height) by nia.
  assert (HKpos : 0 < kernel_order) by lia.
  assert (Hi1 : 0 < (width + kernel_order) * (height + kernel_order))
    by nia.
  assert (Hi2 : (width + kernel_order) * (height + kernel_order)
                ≤ (width + kernel_order) * (height + kernel_order)
                  * nchannels) by nia.
  assert (Hk1 : 0 < nkernels * nchannels) by nia.
  assert (Hk2 : nkernels * nchannels ≤ nkernels * nchannels * kernel_order)
    by nia.
  assert (Hk3 : nkernels * nchannels * kernel_order
                ≤ nkernels * nchannels * kernel_order * kernel_order) by nia.
  rewrite main_allocated by first [done|lia].
  set (image := Tensor3 _ _). set (kernels := Tensor4 _ _).
  assert (Hv : valid_input image kernels (Shape3 nkernels width height)
                 width height nchannels nkernels kernel_order).
  { constructor; try done; simpl; rewrite block_size.
    - unfold size3. simpl. nia.
    - unfold size4. simpl. nia. }
  assert (Hsd : Statement.small_data image kernels nchannels kernel_order).
  { split; [|split; [|done]].
    - apply (generated_image_small random_image (width + kernel_order)
               (height + kernel_order) nchannels); [done|].
      unfold gen_random_3d_matrix_float, gen_random_4d_matrix_float.
      by rewrite new_empty_4d_matrix_ok by lia.
    - apply (generated_kernels_small random_kernels nkernels nchannels
               kernel_order kernel_order); [done|].
      unfold gen_random_4d_matrix_int16.
      by rewrite new_empty_4d_matrix_ok by lia. }
  destruct (same_values_same_block image kernels
              (Shape3 nkernels width height) width height nchannels nkernels
              kernel_order Hv omp
              (block junk_control (1 * nkernels * width * height))
              (block junk_output (1 * nkernels * width * height)))
    as (out & E & E' & Hlen).
  { destruct Hrace as [?|[? _]]; auto. }
  { intros kd m w h Hm Hw Hh. destruct Hsd as (Hi & Hk & _).
    destruct HK as [HK|[HK|[HK|HK]]].
    - destruct Hrace as [->|[_ Hne]]; [|done].
      unfold multichannel_val, student_val. f_equal.
      apply fold_left_seqZ_ext. intros c sum Hc.
      by apply (window_val_order1 image kernels nchannels nkernels
                  kernel_order kd
                  (valid_kernels_shape _ _ _ _ _ _ _ _ Hv)).
    - eapply small_same_values; eauto.
    - eapply small_same_values; eauto.
    - subst kernel_order. by eapply order7_same_values. }
  { rewrite block_size. lia. }
  { rewrite block_size. lia. }
  rewrite E, E'. cbn [rbind].
  assert (Hfin : Statement.finite_output out).
  { apply (small_reference_finite image kernels
             (Shape3 nkernels width height) width height nchannels nkernels
             kernel_order
             (block junk_control (1 * nkernels * width * height)));
      [done|done| |done].
    rewrite block_size. lia. }
  destruct (check_result_same (Shape3 nkernels width height)
              nkernels width height out) as [l ->]; [done| |done|done].
  rewrite Hlen, block_size. lia.
Qed.

Lemma main_reports_zero_witness :
  main (scalars := IEEE.scalars) true (λ n, 7 * Z.of_nat n) (λ n, Z.of_nat n)
    (λ _, IEEE.F 0) (λ _, S754_nan) 6 1 1 3 1 1
  = Ok (0, [CONTROL_CONV; STUDENT_CONV; CHECK (COMMENT (S754_zero false))]).
Proof.
  apply (main_reports_zero true (λ n, 7 * Z.of_nat n) (λ n, Z.of_nat n)
           (λ _, IEEE.F 0) (λ _, S754_nan) 1 1 3 1 1);
    [intros; lia|intros; lia|lia|lia|lia|lia|auto|right; split; [done|lia]
    |unfold int_sizes, INT_MAX; lia|unfold Statement.small_sums; lia].
Defined.
